(** * Verification of ccc, the Claude Code configuration manager (main.go)

    Shallow embedding of the Go program.  Go strings are byte strings and
    are modelled by [string] (a list of 8-bit [ascii]); JSON documents are
    modelled as parse trees [jvalue]; the file system, environment and
    platform are fields of a [World] threaded through a state/error monad. *)

From Stdlib Require Import String Ascii ZArith Bool List.
From stdpp Require Import base gmap strings list fin_maps sorting.

Local Open Scope string_scope.
Local Open Scope list_scope.
Set Warnings "-register-all".

(* ------------------------------------------------------------------ *)
(** ** Byte-string helpers (Go slicing and the strings package) *)

Fixpoint str_take (n : nat) (s : string) : string :=
  match n, s with
  | O, _ => EmptyString
  | S n', String c r => String c (str_take n' r)
  | S _, EmptyString => EmptyString
  end.

Fixpoint str_drop (n : nat) (s : string) : string :=
  match n, s with
  | O, _ => s
  | S n', String _ r => str_drop n' r
  | S _, EmptyString => EmptyString
  end.

(** strings.Repeat *)
Fixpoint str_repeat (t : string) (n : nat) : string :=
  match n with
  | O => EmptyString
  | S n' => String.append t (str_repeat t n')
  end.

Definition byte_of (c : ascii) : nat := nat_of_ascii c.

(* ------------------------------------------------------------------ *)
(** ** UTF-8 as encoding/json handles it

    [rune_size s] is the size returned by utf8.DecodeRuneInString for a
    leading byte >= 0x80: [Some k] for a valid k-byte sequence, [None]
    for (RuneError, 1). *)

Definition in_range (lo hi : nat) (c : ascii) : bool :=
  Nat.leb lo (byte_of c) && Nat.leb (byte_of c) hi.

Definition is_cont (c : ascii) : bool := in_range 128 191 c.

Definition rune_size (s : string) : option nat :=
  match s with
  | String c0 (String c1 rest) =>
      let b0 := byte_of c0 in
      if in_range 194 223 c0 then
        if is_cont c1 then Some 2%nat else None
      else if in_range 224 239 c0 then
        let ok1 := if Nat.eqb b0 224 then in_range 160 191 c1
                   else if Nat.eqb b0 237 then in_range 128 159 c1
                   else is_cont c1 in
        match rest with
        | String c2 _ => if ok1 && is_cont c2 then Some 3%nat else None
        | EmptyString => None
        end
      else if in_range 240 244 c0 then
        let ok1 := if Nat.eqb b0 240 then in_range 144 191 c1
                   else if Nat.eqb b0 244 then in_range 128 143 c1
                   else is_cont c1 in
        match rest with
        | String c2 (String c3 _) =>
            if ok1 && is_cont c2 && is_cont c3 then Some 4%nat else None
        | _ => None
        end
      else None
  | _ => None
  end.

(** U+FFFD, the replacement rune, as UTF-8 bytes EF BF BD. *)
Definition replacement : string :=
  String (ascii_of_nat 239) (String (ascii_of_nat 191) (String (ascii_of_nat 189) EmptyString)).

(** The string coercion of encoding/json (encodeString, and the decoder's
    unquote): every byte that does not start a valid UTF-8 sequence is
    replaced by U+FFFD; everything else is kept.  [fuel] bounds the
    number of steps; [coerce] runs it with the length of the input. *)
Fixpoint coerce_fuel (fuel : nat) (s : string) : string :=
  match fuel with
  | O => s
  | S f =>
      match s with
      | EmptyString => EmptyString
      | String c rest =>
          if Nat.ltb (byte_of c) 128 then String c (coerce_fuel f rest)
          else match rune_size s with
               | Some k => String.append (str_take k s) (coerce_fuel f (str_drop k s))
               | None => String.append replacement (coerce_fuel f rest)
               end
      end
  end.

Definition coerce (s : string) : string := coerce_fuel (String.length s) s.

(** Valid UTF-8: every step of the decoding loop succeeds. *)
Fixpoint valid_fuel (fuel : nat) (s : string) : bool :=
  match fuel with
  | O => true
  | S f =>
      match s with
      | EmptyString => true
      | String c rest =>
          if Nat.ltb (byte_of c) 128 then valid_fuel f rest
          else match rune_size s with
               | Some k => valid_fuel f (str_drop k s)
               | None => false
               end
      end
  end.

Definition valid_utf8 (s : string) : bool := valid_fuel (String.length s) s.

(* ------------------------------------------------------------------ *)
(** ** Numbers: decimals and float64 (strconv)

    A JSON number token denotes the decimal [ddigits * 10 ^ dexp] (with
    the sign [dneg]); how the text spells it (fraction, exponent, leading
    or trailing zeros) is not observed by the program.  encoding/json
    reads a number into an interface{} with strconv.ParseFloat(s, 64)
    and writes a float64 with the shortest decimal that reads back as the
    same float (strconv.AppendFloat with precision -1). *)

Section float64_model.
Local Open Scope Z_scope.

Record decimal := mkDecimal { dneg : bool; ddigits : Z; dexp : Z }.

(** An IEEE-754 binary64 value other than an infinity or NaN: the value
    [fmant * 2 ^ fexp] with sign [fneg]; normal numbers have
    2^52 <= fmant < 2^53 and -1074 < fexp <= 971, subnormal numbers and
    zero have fexp = -1074 and fmant < 2^52. *)
Record float64 := F64 { fneg : bool; fmant : Z; fexp : Z }.

(** Round the non-negative rational [p / q] to the nearest float64, ties
    to even: [N] is the value in units of 2^-1074, [r] the remainder of
    that division; [shift] drops the bits beyond 53 significant ones.
    [None] on overflow (strconv.ErrRange); underflow gives zero. *)
Definition round_scaled (neg : bool) (p q : Z) : option float64 :=
  let N := (p * 2 ^ 1074) / q in
  let r := (p * 2 ^ 1074) mod q in
  let shift := Z.max 0 (Z.log2 N - 52) in
  let m0 := Z.shiftr N shift in
  let up :=
    if Z.eqb shift 0 then Z.ltb q (2 * r) || (Z.eqb (2 * r) q && Z.odd m0)
    else
      let low := N mod 2 ^ shift in
      let half := 2 ^ (shift - 1) in
      Z.ltb half low || (Z.eqb low half && (negb (Z.eqb r 0) || Z.odd m0)) in
  let m := if up then m0 + 1 else m0 in
  let e := shift - 1074 in
  let '(m, e) := if Z.eqb m (2 ^ 53) then (2 ^ 52, e + 1) else (m, e) in
  if Z.ltb 971 e then None else Some (F64 neg m e).

(** strconv.ParseFloat(s, 64) on a well-formed number (the digits of a
    JSON number are a natural number, the sign is [dneg]). *)
Definition ParseFloat (d : decimal) : option float64 :=
  let k := Z.abs (ddigits d) in
  if Z.leb 0 (dexp d) then round_scaled (dneg d) (k * 10 ^ dexp d) 1
  else round_scaled (dneg d) k (10 ^ (- dexp d)).

Definition float_eqb (f g : float64) : bool :=
  Bool.eqb (fneg f) (fneg g) && Z.eqb (fmant f) (fmant g) && Z.eqb (fexp f) (fexp g).

(** The exact decimal value of a float64. *)
Definition exact_decimal (f : float64) : decimal :=
  if Z.leb 0 (fexp f) then mkDecimal (fneg f) (fmant f * 2 ^ fexp f) 0
  else mkDecimal (fneg f) (fmant f * 5 ^ (- fexp f)) (fexp f).

(** Number of decimal digits of a positive integer. *)
Fixpoint ndigits_fuel (fuel : nat) (z : Z) : Z :=
  match fuel with
  | O => 0
  | S n => if Z.ltb z 10 then 1 else 1 + ndigits_fuel n (z / 10)
  end.

Definition ndigits (z : Z) : Z := ndigits_fuel (Z.to_nat (Z.log2 z + 1)) z.

(** Remove trailing zero digits (the value is unchanged). *)
Fixpoint strip_zeros_fuel (fuel : nat) (d : decimal) : decimal :=
  match fuel with
  | O => d
  | S n =>
      if negb (Z.eqb (ddigits d) 0) && Z.eqb (ddigits d mod 10) 0
      then strip_zeros_fuel n (mkDecimal (dneg d) (ddigits d / 10) (dexp d + 1))
      else d
  end.

Definition strip_zeros (d : decimal) : decimal :=
  strip_zeros_fuel (Z.to_nat (Z.log2 (ddigits d) + 1)) d.

Definition reads_as (d : decimal) (f : float64) : bool :=
  match ParseFloat d with Some g => float_eqb g f | None => false end.

(** The shortest-digits search of strconv (roundShortest): with [n]
    significant digits, the truncation [lo] and its successor [hi] of the
    exact decimal [x] are the candidates; if both read back as [f] the
    nearer one wins (ties to an even last digit), if one does it is
    taken, if none does one more digit is tried.  Seventeen significant
    digits always identify a float64, so the search ends before [x]
    itself is returned. *)
Fixpoint shortest_fuel (fuel : nat) (n : Z) (f : float64) (x : decimal) : decimal :=
  match fuel with
  | O => x
  | S fuel' =>
      let drop := Z.max 0 (ndigits (ddigits x) - n) in
      let t := ddigits x / 10 ^ drop in
      let r := ddigits x mod 10 ^ drop in
      let lo := mkDecimal (fneg f) t (dexp x + drop) in
      let hi := mkDecimal (fneg f) (t + 1) (dexp x + drop) in
      match reads_as lo f, reads_as hi f with
      | true, true =>
          if Z.ltb (2 * r) (10 ^ drop) || (Z.eqb (2 * r) (10 ^ drop) && Z.even t) then lo else hi
      | true, false => lo
      | false, true => hi
      | false, false => shortest_fuel fuel' (n + 1) f x
      end
  end.

(** strconv.FormatFloat(f, 'g'-like, -1, 64) as encoding/json uses it:
    the shortest decimal that reads back as [f], without trailing zeros;
    zero keeps its sign. *)
Definition FormatFloat (f : float64) : decimal :=
  if Z.eqb (fmant f) 0 then mkDecimal (fneg f) 0 0
  else strip_zeros (shortest_fuel 17 1 f (exact_decimal f)).

(** The decimal encoding/json writes for a Go int. *)
Definition int_decimal (z : Z) : decimal :=
  strip_zeros (mkDecimal (Z.ltb z 0) (Z.abs z) 0).

(** The float64 values strconv produces: canonical mantissa and
    exponent, in range. *)
Definition float_ok (f : float64) : bool :=
  (Z.eqb (fexp f) (-1074) && Z.leb 0 (fmant f) && Z.ltb (fmant f) (2 ^ 53)) ||
  (Z.leb (2 ^ 52) (fmant f) && Z.ltb (fmant f) (2 ^ 53) &&
   Z.ltb (-1074) (fexp f) && Z.leb (fexp f) 971).

End float64_model.

(* ------------------------------------------------------------------ *)
(** ** JSON values *)

Inductive jvalue :=
  | JNull
  | JBool (b : bool)
  | JNum (d : decimal)
  | JStr (s : string)
  | JArr (l : list jvalue)
  | JObj (l : list (string * jvalue)).

(** Strings of a document after the encoder or the decoder has coerced
    them to valid UTF-8. *)
Fixpoint jcoerce (v : jvalue) : jvalue :=
  match v with
  | JStr s => JStr (coerce s)
  | JArr l => JArr (map jcoerce l)
  | JObj l => JObj (map (fun kv => (coerce kv.1, jcoerce kv.2)) l)
  | _ => v
  end.

(** The content of a file: text that is not JSON, or the parse tree of
    its JSON text (strings as the raw bytes of the text). *)
Inductive FileContent :=
  | Malformed
  | Wellformed (v : jvalue).

(** Struct field matching of encoding/json: exact or case-insensitive
    (ASCII letters; the Unicode special folds such as the Kelvin sign are
    not modelled). *)
Definition ascii_lower (c : ascii) : ascii :=
  if in_range 65 90 c then ascii_of_nat (byte_of c + 32) else c.

Fixpoint fold_eqb (s t : string) : bool :=
  match s, t with
  | EmptyString, EmptyString => true
  | String a s', String b t' => Ascii.eqb (ascii_lower a) (ascii_lower b) && fold_eqb s' t'
  | _, _ => false
  end.

Fixpoint foldM {A B} (f : A -> B -> option A) (acc : A) (l : list B) : option A :=
  match l with
  | [] => Some acc
  | x :: r => match f acc x with Some acc' => foldM f acc' r | None => None end
  end.

Fixpoint mapM {A B} (f : A -> option B) (l : list A) : option (list B) :=
  match l with
  | [] => Some []
  | x :: r => match f x, mapM f r with Some y, Some ys => Some (y :: ys) | _, _ => None end
  end.

(* ------------------------------------------------------------------ *)
(** ** Data model: Configuration and ConfigFile *)

Record Configuration := mkConf {
  Name : string;
  BaseURL : string;
  APIKey : string;
  Active : bool
}.

Definition zero_conf : Configuration := mkConf "" "" "" false.

Definition set_name (c : Configuration) (s : string) := mkConf s (BaseURL c) (APIKey c) (Active c).
Definition set_base_url (c : Configuration) (s : string) := mkConf (Name c) s (APIKey c) (Active c).
Definition set_api_key (c : Configuration) (s : string) := mkConf (Name c) (BaseURL c) s (Active c).
Definition set_active (c : Configuration) (b : bool) := mkConf (Name c) (BaseURL c) (APIKey c) b.

(** ConfigFile has the single field Configurations; a nil slice and an
    empty slice are both the empty list. *)
Abbreviation ConfigFile := (list Configuration).

(** json.Marshal of a Configuration (field tags name, base_url, api_key,
    active) and of a ConfigFile. *)
Definition marshal_conf (c : Configuration) : jvalue :=
  JObj [("name", JStr (Name c)); ("base_url", JStr (BaseURL c));
        ("api_key", JStr (APIKey c)); ("active", JBool (Active c))].

(** The only empty collection saveConfig receives is the one
    deleteConfiguration builds by appending to a nil slice, which
    json.Marshal writes as null; add never saves an empty collection, and
    update and activate keep the length of the loaded one. *)
Definition marshal_configfile (cfg : ConfigFile) : jvalue :=
  JObj [("configurations", match cfg with
                           | [] => JNull
                           | _ => JArr (map marshal_conf cfg)
                           end)].

(** json.Unmarshal into the structs: null leaves a field unchanged,
    unknown keys are ignored, a value of the wrong JSON type is an error. *)
Definition decode_string (cur : string) (v : jvalue) : option string :=
  match v with JStr s => Some s | JNull => Some cur | _ => None end.

Definition decode_bool (cur : bool) (v : jvalue) : option bool :=
  match v with JBool b => Some b | JNull => Some cur | _ => None end.

Definition decode_conf_field (c : Configuration) (kv : string * jvalue) : option Configuration :=
  let (k, v) := kv in
  if fold_eqb k "name" then option_map (set_name c) (decode_string (Name c) v)
  else if fold_eqb k "base_url" then option_map (set_base_url c) (decode_string (BaseURL c) v)
  else if fold_eqb k "api_key" then option_map (set_api_key c) (decode_string (APIKey c) v)
  else if fold_eqb k "active" then option_map (set_active c) (decode_bool (Active c) v)
  else Some c.

Definition decode_conf (v : jvalue) : option Configuration :=
  match v with
  | JObj kvs => foldM decode_conf_field zero_conf kvs
  | JNull => Some zero_conf
  | _ => None
  end.

Definition decode_configs (v : jvalue) : option (list Configuration) :=
  match v with
  | JNull => Some []
  | JArr l => mapM decode_conf l
  | _ => None
  end.

Definition decode_configfile_field (cfg : ConfigFile) (kv : string * jvalue) : option ConfigFile :=
  let (k, v) := kv in
  if fold_eqb k "configurations" then decode_configs v else Some cfg.

Definition decode_configfile (v : jvalue) : option ConfigFile :=
  match v with
  | JObj kvs => foldM decode_configfile_field [] kvs
  | JNull => Some []
  | _ => None
  end.

(* ------------------------------------------------------------------ *)
(** ** ClaudeSettings (~/.claude/settings.json) *)

(** A Go value of type interface{} as encoding/json builds it: nil, bool,
    float64, string, []interface{} or map[string]interface{}; [GInt] is
    the int constant 1 that NewClaudeSettings and setUnixSettingsFile
    store.  A map is kept as a list sorted by key, without duplicates. *)
Inductive gvalue :=
  | GNil
  | GBool (b : bool)
  | GFloat (f : float64)
  | GInt (z : Z)
  | GString (s : string)
  | GSlice (l : list gvalue)
  | GMap (l : list (string * gvalue)).

(** m[k] = x on a map kept sorted by key. *)
Fixpoint map_set {A} (k : string) (x : A) (l : list (string * A)) : list (string * A) :=
  match l with
  | [] => [(k, x)]
  | (k', x') :: r =>
      if String.eqb k k' then (k, x) :: r
      else if String.ltb k k' then (k, x) :: l
      else (k', x') :: map_set k x r
  end.

(** The value json.Unmarshal stores in an interface{}: a number goes
    through strconv.ParseFloat, and its range error makes Unmarshal fail;
    an object becomes a map in which the last duplicate key wins. *)
Fixpoint to_interface (v : jvalue) : option gvalue :=
  match v with
  | JNull => Some GNil
  | JBool b => Some (GBool b)
  | JNum d => option_map GFloat (ParseFloat d)
  | JStr s => Some (GString s)
  | JArr l =>
      option_map GSlice
        ((fix go (l : list jvalue) : option (list gvalue) :=
            match l with
            | [] => Some []
            | x :: r =>
                match to_interface x, go r with
                | Some y, Some ys => Some (y :: ys)
                | _, _ => None
                end
            end) l)
  | JObj l =>
      option_map GMap
        ((fix go (acc : list (string * gvalue)) (l : list (string * jvalue))
              : option (list (string * gvalue)) :=
            match l with
            | [] => Some acc
            | (k, x) :: r =>
                match to_interface x with
                | Some y => go (map_set k y acc) r
                | None => None
                end
            end) [] l)
  end.

(** json.Marshal of an interface{} value; map keys come out in
    increasing byte order, the order a [GMap] keeps. *)
Fixpoint marshal_gvalue (g : gvalue) : jvalue :=
  match g with
  | GNil => JNull
  | GBool b => JBool b
  | GFloat f => JNum (FormatFloat f)
  | GInt z => JNum (int_decimal z)
  | GString s => JStr s
  | GSlice l => JArr (map marshal_gvalue l)
  | GMap l => JObj (map (fun kv => (kv.1, marshal_gvalue kv.2)) l)
  end.

Record ClaudeSettings := mkSettings { Env : option (gmap string gvalue) }.

Definition NewClaudeSettings : ClaudeSettings :=
  mkSettings (Some (list_to_map
    [("ANTHROPIC_AUTH_TOKEN", GString "");
     ("ANTHROPIC_BASE_URL", GString "");
     ("API_TIMEOUT_MS", GString "3000000");
     ("CLAUDE_CODE_DISABLE_NONESSENTIAL_TRAFFIC", GInt 1)])).

(** Unmarshal of a JSON object into map[string]interface{}: a nil map is
    allocated, an existing one is extended; null sets the map to nil.  A
    value that cannot be stored (a number out of float64 range) makes the
    whole Unmarshal fail. *)
Definition decode_env (cur : option (gmap string gvalue)) (v : jvalue)
    : option (option (gmap string gvalue)) :=
  match v with
  | JNull => Some None
  | JObj kvs =>
      option_map Some
        (foldM (fun m kv => option_map (fun x => <[kv.1 := x]> m) (to_interface kv.2))
               (match cur with Some m => m | None => ∅ end) kvs)
  | _ => None
  end.

Definition decode_settings_field (s : ClaudeSettings) (kv : string * jvalue) : option ClaudeSettings :=
  let (k, v) := kv in
  if fold_eqb k "env" then option_map mkSettings (decode_env (Env s) v) else Some s.

Definition decode_settings (v : jvalue) : option ClaudeSettings :=
  match v with
  | JObj kvs => foldM decode_settings_field (mkSettings None) kvs
  | JNull => Some (mkSettings None)
  | _ => None
  end.

(** json.Marshal writes map keys in increasing byte order. *)
Definition key_le {A} (a b : string * A) : Prop := String.leb a.1 b.1 = true.
Global Instance key_le_dec {A} : RelDecision (@key_le A).
Proof. intros a b. unfold key_le. apply _. Defined.

Definition marshal_env (m : gmap string gvalue) : jvalue :=
  JObj (merge_sort key_le (map_to_list (marshal_gvalue <$> m))).

Definition marshal_settings (s : ClaudeSettings) : jvalue :=
  JObj [("env", match Env s with Some m => marshal_env m | None => JNull end)].

(* ------------------------------------------------------------------ *)
(** ** More strings helpers: Index, LastIndex, Cut, Split, TrimPrefix *)

Definition char_in (c : ascii) (s : string) : bool :=
  existsb (Ascii.eqb c) (list_ascii_of_string s).

Fixpoint index_char (c : ascii) (s : string) : option nat :=
  match s with
  | EmptyString => None
  | String d r => if Ascii.eqb c d then Some O else option_map S (index_char c r)
  end.

Fixpoint last_index_char (c : ascii) (s : string) : option nat :=
  match s with
  | EmptyString => None
  | String d r =>
      match last_index_char c r with
      | Some i => Some (S i)
      | None => if Ascii.eqb c d then Some O else None
      end
  end.

(** strings.Cut at a byte: before, after, found. *)
Definition cut (s : string) (c : ascii) : string * string * bool :=
  match index_char c s with
  | Some i => (str_take i s, str_drop (S i) s, true)
  | None => (s, EmptyString, false)
  end.

Definition has_suffix_char (s : string) (c : ascii) : bool :=
  match String.get (String.length s - 1) s, s with
  | Some d, String _ _ => Ascii.eqb c d
  | _, _ => false
  end.

Fixpoint count_char (c : ascii) (s : string) : nat :=
  match s with
  | EmptyString => O
  | String d r => (if Ascii.eqb c d then 1 else 0) + count_char c r
  end.

(** strings.Split at a one-byte separator: always at least one part. *)
Fixpoint split_char (sep : ascii) (s : string) : list string :=
  match s with
  | EmptyString => [EmptyString]
  | String c r =>
      let parts := split_char sep r in
      if Ascii.eqb c sep then EmptyString :: parts
      else match parts with
           | p :: ps => String c p :: ps
           | [] => [String c EmptyString]
           end
  end.

(** strings.TrimPrefix *)
Definition TrimPrefix (s prefix : string) : string :=
  if String.prefix prefix s then str_drop (String.length prefix) s else s.

(* ------------------------------------------------------------------ *)
(** ** net/url: Parse and URL.Hostname (Go 1.21)

    Only what the program reads is kept: [Parse] returns the Host field
    of the parsed URL, or [None] when url.Parse returns an error. *)

Module GoURL.

Inductive encoding := encodePath | encodeUserPassword | encodeHost | encodeZone | encodeFragment.

Definition is_letter (c : ascii) : bool := in_range 97 122 c || in_range 65 90 c.
Definition is_digit (c : ascii) : bool := in_range 48 57 c.
Definition is_alnum (c : ascii) : bool := is_letter c || is_digit c.
Definition ishex (c : ascii) : bool := is_digit c || in_range 97 102 c || in_range 65 70 c.
Definition unhex (c : ascii) : nat :=
  if is_digit c then byte_of c - 48
  else if in_range 97 102 c then byte_of c - 87
  else if in_range 65 70 c then byte_of c - 55
  else 0.

Definition dquote : ascii := ascii_of_nat 34.

Definition host_like (mode : encoding) : bool :=
  match mode with encodeHost | encodeZone => true | _ => false end.

Definition shouldEscape (c : ascii) (mode : encoding) : bool :=
  if is_alnum c then false
  else if host_like mode && (char_in c "!$&'()*+,;=:[]<>" || Ascii.eqb c dquote) then false
  else if char_in c "-_.~" then false
  else if char_in c "$&+,/:;=?@" then
    match mode with
    | encodePath => Ascii.eqb c "?"
    | encodeUserPassword => char_in c "@/?:"
    | encodeFragment => false
    | _ => true
    end
  else if (match mode with encodeFragment => true | _ => false end) && char_in c "!()*" then false
  else true.

(** unescape: the validation pass and the decoding pass together. *)
Fixpoint unescape (mode : encoding) (s : string) : option string :=
  match s with
  | EmptyString => Some EmptyString
  | String c rest =>
      if Ascii.eqb c "%" then
        match rest with
        | String h1 (String h2 rest') =>
            if ishex h1 && ishex h2 then
              let is25 := Ascii.eqb h1 "2" && Ascii.eqb h2 "5" in
              let v := ascii_of_nat (unhex h1 * 16 + unhex h2) in
              if (match mode with encodeHost => true | _ => false end)
                   && Nat.ltb (unhex h1) 8 && negb is25 then None
              else if (match mode with encodeZone => true | _ => false end)
                   && negb is25 && negb (Ascii.eqb v " ") && shouldEscape v encodeHost then None
              else option_map (String v) (unescape mode rest')
            else None
        | _ => None
        end
      else if host_like mode && Nat.ltb (byte_of c) 128 && shouldEscape c mode then None
      else option_map (String c) (unescape mode rest)
  end.

Definition validOptionalPort (port : string) : bool :=
  match port with
  | EmptyString => true
  | String c r => Ascii.eqb c ":" && forallb is_digit (list_ascii_of_string r)
  end.

Definition validUserinfo (s : string) : bool :=
  forallb (fun c => is_alnum c || char_in c "-._:~!$&'()*+,;=%@") (list_ascii_of_string s).

Definition stringContainsCTLByte (s : string) : bool :=
  existsb (fun c => Nat.ltb (byte_of c) 32 || Nat.eqb (byte_of c) 127) (list_ascii_of_string s).

Definition parseHost (host : string) : option string :=
  if String.prefix "[" host then
    match last_index_char "]" host with
    | None => None
    | Some i =>
        if negb (validOptionalPort (str_drop (S i) host)) then None
        else match String.index 0 "%25" (str_take i host) with
             | Some zone =>
                 h1 ← unescape encodeHost (str_take zone host);
                 h2 ← unescape encodeZone (str_take (i - zone) (str_drop zone host));
                 h3 ← unescape encodeHost (str_drop i host);
                 Some (String.append h1 (String.append h2 h3))
             | None => unescape encodeHost host
             end
    end
  else
    match last_index_char ":" host with
    | Some i => if validOptionalPort (str_drop i host) then unescape encodeHost host else None
    | None => unescape encodeHost host
    end.

Definition parseAuthority (authority : string) : option string :=
  match last_index_char "@" authority with
  | None => parseHost authority
  | Some i =>
      host ← parseHost (str_drop (S i) authority);
      let userinfo := str_take i authority in
      if negb (validUserinfo userinfo) then None
      else if char_in ":" userinfo then
        let '(username, password, _) := cut userinfo ":" in
        _ ← unescape encodeUserPassword username;
        _ ← unescape encodeUserPassword password;
        Some host
      else
        _ ← unescape encodeUserPassword userinfo;
        Some host
  end.

(** getScheme: [None] is the error "missing protocol scheme", [Some None]
    no scheme, [Some (Some i)] a scheme ending with the colon at [i]. *)
Fixpoint scheme_colon (i : nat) (s : string) : option (option nat) :=
  match s with
  | EmptyString => Some None
  | String c r =>
      if is_letter c then scheme_colon (S i) r
      else if is_digit c || char_in c "+-." then
        (if Nat.eqb i 0 then Some None else scheme_colon (S i) r)
      else if Ascii.eqb c ":" then (if Nat.eqb i 0 then None else Some (Some i))
      else Some None
  end.

Definition getScheme (raw : string) : option (string * string) :=
  match scheme_colon 0 raw with
  | None => None
  | Some None => Some (EmptyString, raw)
  | Some (Some i) => Some (str_take i raw, str_drop (S i) raw)
  end.

(** parse(rawURL, viaRequest = false), returning the Host field. *)
Definition parse (raw : string) : option string :=
  if stringContainsCTLByte raw then None
  else if String.eqb raw "*" then Some EmptyString
  else
    sr ← getScheme raw;
    let '(scheme, rest0) := sr in
    let rest :=
      if has_suffix_char rest0 "?" && Nat.eqb (count_char "?" rest0) 1
      then str_take (String.length rest0 - 1) rest0
      else (cut rest0 "?").1.1 in
    let no_slash := negb (String.prefix "/" rest) in
    if no_slash && negb (String.eqb scheme "") then Some EmptyString
    else if no_slash && char_in ":" (cut rest "/").1.1 then None
    else
      hr ← (if (negb (String.eqb scheme "") || negb (String.prefix "///" rest))
                 && String.prefix "//" rest then
              let authority := str_drop 2 rest in
              match index_char "/" authority with
              | Some i => h ← parseAuthority (str_take i authority); Some (h, str_drop i authority)
              | None => h ← parseAuthority authority; Some (h, EmptyString)
              end
            else Some (EmptyString, rest));
      let '(host, path) := hr in
      _ ← unescape encodePath path;
      Some host.

Definition Parse (raw : string) : option string :=
  let '(u, frag, _) := cut raw "#" in
  host ← parse u;
  if String.eqb frag "" then Some host
  else _ ← unescape encodeFragment frag; Some host.

(** URL.Hostname: splitHostPort, then strip the brackets. *)
Definition Hostname (host : string) : string :=
  let h := match last_index_char ":" host with
           | Some i => if validOptionalPort (str_drop i host) then str_take i host else host
           | None => host
           end in
  if String.prefix "[" h && has_suffix_char h "]"
  then str_take (String.length h - 2) (str_drop 1 h)
  else h.

End GoURL.

(** extractDomainFromURL *)
Definition extractDomainFromURL (baseURL : string) : string :=
  if String.eqb baseURL "" then "default"
  else match GoURL.Parse baseURL with
       | None => "default"
       | Some host =>
           let hostname := GoURL.Hostname host in
           if String.eqb hostname "" then "default"
           else
             let hostname := TrimPrefix hostname "www." in
             let parts := split_char "." hostname in
             if Nat.leb 2 (length parts) then
               (if Nat.leb 3 (length parts) then nth 1 parts EmptyString
                else nth 0 parts EmptyString)
             else nth 0 parts EmptyString
       end.

(** maskAPIKey *)
Definition maskAPIKey (apiKey : string) : string :=
  if Nat.leb (String.length apiKey) 8 then str_repeat "*" (String.length apiKey)
  else String.append (str_take 4 apiKey)
         (String.append (str_repeat "*" (String.length apiKey - 8))
            (str_drop (String.length apiKey - 4) apiKey)).

(* ------------------------------------------------------------------ *)
(** ** The world: platform, files, environment *)

Inductive GOOS := Windows | Linux | Darwin | OtherOS (name : string).

(** Which permission bits of a file apply to us: the owner's, the
    group's or the others'. *)
Inductive perm_class := Owner | Group | Other.

(** A file: absent, present but impossible to open whatever its mode (a
    directory on its path cannot be searched, say), or present with the
    class that applies to us, its permission bits and its content. *)
Inductive FileState :=
  | FMissing
  | FDenied
  | FPresent (cls : perm_class) (mode : Z) (content : FileContent).

(** The directory ~/.claude: missing (and whether its parent lets us
    create it), present (and whether new files can be created in it), or
    something os.MkdirAll fails on (a file of that name, say).  A file in
    a missing directory is [FMissing]. *)
Inductive DirState :=
  | DirMissing (can_mkdir : bool)
  | DirPresent (can_create : bool)
  | DirBlocked.

Record World := mkWorld {
  goos : GOOS;
  exe_ok : bool;               (* os.Executable succeeds *)
  exe_dir_writable : bool;     (* a new file can be created beside the executable *)
  store : FileState;           (* <dir of executable>/ccc-config.json *)
  home_ok : bool;              (* os.UserHomeDir succeeds *)
  claude_dir : DirState;       (* ~/.claude *)
  settings : FileState;        (* ~/.claude/settings.json *)
  umask : Z;
  root : bool;                 (* the process runs as root: no permission checks *)
  proc_env : list (string * string);
  user_env : list (string * string);   (* variables persisted by setx *)
  setx_ok : bool
}.

Definition set_store (w : World) (f : FileState) : World :=
  mkWorld (goos w) (exe_ok w) (exe_dir_writable w) f (home_ok w) (claude_dir w)
    (settings w) (umask w) (root w) (proc_env w) (user_env w) (setx_ok w).
Definition set_settings (w : World) (f : FileState) : World :=
  mkWorld (goos w) (exe_ok w) (exe_dir_writable w) (store w) (home_ok w) (claude_dir w)
    f (umask w) (root w) (proc_env w) (user_env w) (setx_ok w).
Definition set_claude_dir (w : World) (d : DirState) : World :=
  mkWorld (goos w) (exe_ok w) (exe_dir_writable w) (store w) (home_ok w) d
    (settings w) (umask w) (root w) (proc_env w) (user_env w) (setx_ok w).
Definition set_proc_env (w : World) (e : list (string * string)) : World :=
  mkWorld (goos w) (exe_ok w) (exe_dir_writable w) (store w) (home_ok w) (claude_dir w)
    (settings w) (umask w) (root w) e (user_env w) (setx_ok w).
Definition set_user_env (w : World) (e : list (string * string)) : World :=
  mkWorld (goos w) (exe_ok w) (exe_dir_writable w) (store w) (home_ok w) (claude_dir w)
    (settings w) (umask w) (root w) (proc_env w) e (setx_ok w).

(** os.Getenv: the empty string when unset. *)
Fixpoint Getenv (env : list (string * string)) (k : string) : string :=
  match env with
  | [] => EmptyString
  | (k', v) :: r => if String.eqb k k' then v else Getenv r k
  end.

Definition Setenv (env : list (string * string)) (k v : string) : list (string * string) :=
  (k, v) :: List.filter (fun kv => negb (String.eqb kv.1 k)) env.

(** The read and write bits of each class: 0400/0200 for the owner,
    0040/0020 for the group, 0004/0002 for the others. *)
Definition read_bit (c : perm_class) : Z := match c with Owner => 8 | Group => 5 | Other => 2 end.
Definition write_bit (c : perm_class) : Z := match c with Owner => 7 | Group => 4 | Other => 1 end.

(** Opening a file for reading (os.ReadFile) or writing (os.WriteFile)
    is allowed by its mode, or to root. *)
Definition can_read (su : bool) (f : FileState) : bool :=
  match f with FPresent c m _ => su || Z.testbit m (read_bit c) | _ => false end.
Definition can_write (su : bool) (f : FileState) : bool :=
  match f with FPresent c m _ => su || Z.testbit m (write_bit c) | _ => false end.

(** os.WriteFile(name, data, perm): a new file is ours and gets
    perm &^ umask; an existing file must be writable, is truncated and
    keeps its owner and mode. *)
Definition write_file (su : bool) (f : FileState) (can_create : bool) (um perm : Z)
    (c : FileContent) : option FileState :=
  match f with
  | FMissing => if can_create then Some (FPresent Owner (Z.ldiff perm um) c) else None
  | FDenied => None
  | FPresent cls m _ => if can_write su f then Some (FPresent cls m c) else None
  end.

(** os.MkdirAll(~/.claude, 0755): an existing directory is kept; a new
    one gets 0755 &^ umask and is empty, and files can be created in it
    when that mode lets its owner write and search it (0300), or by root.
    [None] when MkdirAll fails. *)
Definition MkdirAll_claude (w : World) : option World :=
  match claude_dir w with
  | DirPresent _ => Some w
  | DirBlocked => None
  | DirMissing false => None
  | DirMissing true =>
      let m := Z.ldiff 493 (umask w) in
      Some (set_settings
              (set_claude_dir w (DirPresent (root w || (Z.testbit m 7 && Z.testbit m 6))))
              FMissing)
  end.

Definition dir_can_create (d : DirState) : bool :=
  match d with DirPresent b => b | _ => false end.

(** The bytes json.MarshalIndent writes for a value. *)
Definition encode (v : jvalue) : FileContent := Wellformed (jcoerce v).

(** The value json.Unmarshal reads from a parse tree. *)
Definition decode_text (v : jvalue) : jvalue := jcoerce v.

(* ------------------------------------------------------------------ *)
(** ** A state and error monad *)

Inductive error :=
  | ErrExecutablePath
  | ErrReadConfig
  | ErrParseConfig
  | ErrWriteConfig
  | ErrDuplicateName
  | ErrNotFound
  | ErrActiveDeletion
  | ErrHomeDir
  | ErrMkdirClaude
  | ErrReadSettings
  | ErrWriteSettings.

Inductive result (A : Type) := Ok (a : A) | Err (e : error).
Arguments Ok {A} a.
Arguments Err {A} e.

Definition M (A : Type) : Type := World -> World * result A.

Definition ret {A} (a : A) : M A := fun w => (w, Ok a).
Definition throw {A} (e : error) : M A := fun w => (w, Err e).
Definition bind {A B} (m : M A) (k : A -> M B) : M B :=
  fun w => match m w with
           | (w', Ok a) => k a w'
           | (w', Err e) => (w', Err e)
           end.
Definition get : M World := fun w => (w, Ok w).
Definition put (w : World) : M unit := fun _ => (w, Ok tt).
Definition lift {A} (r : result A) : M A := fun w => (w, r).
(** Run an action and ignore its error (if err := f(); err == nil {...}). *)
Definition try_ (m : M unit) : M unit :=
  fun w => match m w with (w', _) => (w', Ok tt) end.

Notation "x <- m ;; k" := (bind m (fun x => k))
  (at level 60, m at next level, right associativity).

(* ------------------------------------------------------------------ *)
(** ** Persistence: getConfigPath, saveConfig, loadConfig *)

Definition getConfigPath : M unit :=
  w <- get ;; if exe_ok w then ret tt else throw ErrExecutablePath.

Definition saveConfig (config : ConfigFile) : M unit :=
  _ <- getConfigPath ;;
  w <- get ;;
  match write_file (root w) (store w) (exe_dir_writable w) (umask w) 420 (* 0644 *)
          (encode (marshal_configfile config)) with
  | Some f => put (set_store w f)
  | None => throw ErrWriteConfig
  end.

(** importFromWindows *)
Definition importFromWindows (w : World) : option Configuration :=
  let baseURL := Getenv (proc_env w) "ANTHROPIC_BASE_URL" in
  let apiKey := Getenv (proc_env w) "ANTHROPIC_AUTH_TOKEN" in
  if String.eqb baseURL "" || String.eqb apiKey "" then None
  else Some (mkConf (extractDomainFromURL baseURL) baseURL apiKey true).

(** importFromUnixSettings *)
Definition importFromUnixSettings (w : World) : option Configuration :=
  if negb (home_ok w) then None else
  if negb (can_read (root w) (settings w)) then None else
  match settings w with
  | FPresent _ _ (Wellformed v) =>
      match decode_settings (decode_text v) with
      | Some (mkSettings (Some env)) =>
          match env !! "ANTHROPIC_BASE_URL", env !! "ANTHROPIC_AUTH_TOKEN" with
          | Some (GString baseURL), Some (GString apiKey) =>
              if String.eqb baseURL "" || String.eqb apiKey "" then None
              else Some (mkConf (extractDomainFromURL baseURL) baseURL apiKey true)
          | _, _ => None
          end
      | _ => None
      end
  | _ => None
  end.

Definition loadConfig : M ConfigFile :=
  _ <- getConfigPath ;;
  w <- get ;;
  match store w with
  | FMissing =>
      let importedConfig :=
        match goos w with
        | Windows => importFromWindows w
        | Linux | Darwin => importFromUnixSettings w
        | OtherOS _ => None
        end in
      match importedConfig with
      | Some c => _ <- try_ (saveConfig [c]) ;; ret [c]
      | None => ret []
      end
  | FDenied => throw ErrReadConfig
  | FPresent _ _ c =>
      if negb (can_read (root w) (store w)) then throw ErrReadConfig else
      match c with
      | Malformed => throw ErrParseConfig
      | Wellformed v =>
          match decode_configfile (decode_text v) with
          | Some cfg => ret cfg
          | None => throw ErrParseConfig
          end
      end
  end.

(* ------------------------------------------------------------------ *)
(** ** Collection operations *)

(** findConfiguration: the index of the first configuration with that
    name and the element the returned pointer designates. *)
Fixpoint findConfiguration (config : ConfigFile) (name : string) : option (nat * Configuration) :=
  match config with
  | [] => None
  | c :: r =>
      if String.eqb (Name c) name then Some (O, c)
      else option_map (fun p => (S p.1, p.2)) (findConfiguration r name)
  end.

(** setActiveConfiguration *)
Definition setActiveConfiguration (config : ConfigFile) (activeName : string) : ConfigFile :=
  map (fun c => set_active c (String.eqb (Name c) activeName)) config.

(** The part of addConfiguration between loadConfig and saveConfig. *)
Definition add_core (config : ConfigFile) (name baseURL apiKey : string) : result ConfigFile :=
  match findConfiguration config name with
  | Some _ => Err ErrDuplicateName
  | None =>
      let newConf := mkConf name baseURL apiKey false in
      let newConf := if Nat.eqb (length config) 0 then set_active newConf true else newConf in
      Ok (config ++ [newConf])
  end.

(** The part of updateConfiguration between loadConfig and saveConfig. *)
Definition update_core (config : ConfigFile) (name baseURL apiKey : string) : result ConfigFile :=
  match findConfiguration config name with
  | None => Err ErrNotFound
  | Some (i, conf) =>
      let conf := if String.eqb baseURL "" then conf else set_base_url conf baseURL in
      let conf := if String.eqb apiKey "" then conf else set_api_key conf apiKey in
      Ok (<[i := conf]> config)
  end.

(** The part of deleteConfiguration between loadConfig and saveConfig. *)
Definition delete_core (config : ConfigFile) (name : string) : result ConfigFile :=
  match findConfiguration config name with
  | None => Err ErrNotFound
  | Some (_, conf) =>
      if Active conf then Err ErrActiveDeletion
      else Ok (List.filter (fun c => negb (String.eqb (Name c) name)) config)
  end.

(** The part of activateConfiguration between loadConfig and saveConfig:
    the new collection and the configuration being activated. *)
Definition activate_core (config : ConfigFile) (name : string) : result (ConfigFile * Configuration) :=
  match findConfiguration config name with
  | None => Err ErrNotFound
  | Some (_, conf) => Ok (setActiveConfiguration config name, set_active conf true)
  end.

(* ------------------------------------------------------------------ *)
(** ** Commands *)

Definition addConfiguration (name baseURL apiKey : string) : M unit :=
  config <- loadConfig ;;
  config' <- lift (add_core config name baseURL apiKey) ;;
  saveConfig config'.

Definition updateConfiguration (name baseURL apiKey : string) : M unit :=
  config <- loadConfig ;;
  config' <- lift (update_core config name baseURL apiKey) ;;
  saveConfig config'.

Definition deleteConfiguration (name : string) : M unit :=
  config <- loadConfig ;;
  config' <- lift (delete_core config name) ;;
  saveConfig config'.

(** setWindowsEnvironmentVariables: os.Setenv for the process, then setx
    for the user environment; a setx failure is only a warning. *)
Definition setWindowsEnvironmentVariables (activeConfig : Configuration) : M unit :=
  w <- get ;;
  let pe := Setenv (Setenv (proc_env w) "ANTHROPIC_BASE_URL" (BaseURL activeConfig))
                   "ANTHROPIC_AUTH_TOKEN" (APIKey activeConfig) in
  let ue := if setx_ok w
            then Setenv (Setenv (user_env w) "ANTHROPIC_BASE_URL" (BaseURL activeConfig))
                        "ANTHROPIC_AUTH_TOKEN" (APIKey activeConfig)
            else user_env w in
  put (set_user_env (set_proc_env w pe) ue).

(** The env map setUnixSettingsFile writes, from the settings it read. *)
Definition update_env (settings : ClaudeSettings) (activeConfig : Configuration) : gmap string gvalue :=
  let env := match Env settings with Some m => m | None => ∅ end in
  let env := <["ANTHROPIC_AUTH_TOKEN" := GString (APIKey activeConfig)]> env in
  let env := <["ANTHROPIC_BASE_URL" := GString (BaseURL activeConfig)]> env in
  let env := match env !! "API_TIMEOUT_MS" with
             | Some _ => env
             | None => <["API_TIMEOUT_MS" := GString "3000000"]> env
             end in
  match env !! "CLAUDE_CODE_DISABLE_NONESSENTIAL_TRAFFIC" with
  | Some _ => env
  | None => <["CLAUDE_CODE_DISABLE_NONESSENTIAL_TRAFFIC" := GInt 1]> env
  end.

(** The settings setUnixSettingsFile starts from: the parsed file, or
    NewClaudeSettings when it is absent or does not parse; a file that
    exists but cannot be read is an error. *)
Definition read_settings (su : bool) (f : FileState) : result ClaudeSettings :=
  match f with
  | FMissing => Ok NewClaudeSettings
  | FDenied => Err ErrReadSettings
  | FPresent _ _ c =>
      if negb (can_read su f) then Err ErrReadSettings else
      match c with
      | Malformed => Ok NewClaudeSettings
      | Wellformed v =>
          match decode_settings (decode_text v) with
          | Some s => Ok s
          | None => Ok NewClaudeSettings
          end
      end
  end.

(** The part of setUnixSettingsFile after os.MkdirAll. *)
Definition write_settings (activeConfig : Configuration) : M unit :=
  w <- get ;;
  settings0 <- lift (read_settings (root w) (settings w)) ;;
  let s := mkSettings (Some (update_env settings0 activeConfig)) in
  match write_file (root w) (settings w) (dir_can_create (claude_dir w)) (umask w) 420 (* 0644 *)
          (encode (marshal_settings s)) with
  | Some f => put (set_settings w f)
  | None => throw ErrWriteSettings
  end.

Definition setUnixSettingsFile (activeConfig : Configuration) : M unit :=
  w <- get ;;
  if negb (home_ok w) then throw ErrHomeDir
  else match MkdirAll_claude w with
       | None => throw ErrMkdirClaude
       | Some w' => _ <- put w' ;; write_settings activeConfig
       end.

Definition activateConfiguration (name : string) : M unit :=
  config <- loadConfig ;;
  p <- lift (activate_core config name) ;;
  let '(config', conf) := p in
  _ <- saveConfig config' ;;
  w <- get ;;
  match goos w with
  | Windows => setWindowsEnvironmentVariables conf
  | Linux | Darwin => setUnixSettingsFile conf
  | OtherOS _ => ret tt
  end.

(* ------------------------------------------------------------------ *)
(** ** Sample worlds *)

(** A Linux machine on first run, for a user other than root with umask
    022: no store file, no ~/.claude. *)
Definition fresh_linux : World :=
  mkWorld Linux true true FMissing true (DirMissing true) FMissing 18 (* 022 *) false [] [] true.

(** A fresh Linux machine of a user other than root, with the given
    umask. *)
Definition fresh_linux_umask (um : Z) : World :=
  mkWorld Linux true true FMissing true (DirMissing true) FMissing um false [] [] true.

Definition run {A} (m : M A) (w : World) : World := (m w).1.
Definition outcome {A} (m : M A) (w : World) : result A := (m w).2.

Definition stored (w : World) : option ConfigFile :=
  match store w with
  | FPresent _ _ (Wellformed v) => decode_configfile (decode_text v)
  | _ => None
  end.

(** The documented invariants of a collection. *)
Definition count_active (config : ConfigFile) : nat := length (List.filter Active config).
Definition unique_names (config : ConfigFile) : Prop := NoDup (map Name config).
Definition wf_collection (config : ConfigFile) : Prop :=
  unique_names config /\ (count_active config <= 1)%nat.

(** Errors of the collection logic (as opposed to I/O and parse errors). *)
Definition domain_error (e : error) : bool :=
  match e with ErrDuplicateName | ErrNotFound | ErrActiveDeletion => true | _ => false end.

(** Top-level keys of a JSON file. *)
Definition top_keys (f : FileState) : list string :=
  match f with FPresent _ _ (Wellformed (JObj kvs)) => map fst kvs | _ => [] end.

(** The same machine with ~/.claude present and settings.json as given. *)
Definition linux_with (s : FileState) : World :=
  mkWorld Linux true true FMissing true (DirPresent true) s 18 false [] [] true.

(** A settings.json written by Claude Code: a top-level key besides env. *)
Definition settings_with_model : FileState :=
  FPresent Owner 420 (Wellformed (JObj
    [("env", JObj [("ANTHROPIC_MODEL", JStr "claude-x")]); ("model", JStr "opus")])).

(** A settings.json from which auto-import takes a profile. *)
Definition importable_settings : FileState :=
  FPresent Owner 420 (Wellformed (JObj [("env", JObj
    [("ANTHROPIC_BASE_URL", JStr "https://api.anthropic.com");
     ("ANTHROPIC_AUTH_TOKEN", JStr "sk-ant-0123456789")])])).

Definition sample_conf : Configuration :=
  mkConf "work" "https://api.example.com" "sk-9876543210" true.

(** A one-byte string that is not UTF-8 (0xFF). *)
Definition byte_ff : string := String (ascii_of_nat 255) EmptyString.

(** A store written by hand with two active profiles. *)
Definition two_active : ConfigFile :=
  [mkConf "a" "https://a.test" "key-a" true; mkConf "b" "https://b.test" "key-b" true].

(** A store written by hand with two profiles of the same name. *)
Definition dup_names : ConfigFile :=
  [mkConf "a" "https://a1.test" "key-1" false; mkConf "a" "https://a2.test" "key-2" false].

(** A collection with unique names and one active profile. *)
Definition two_profiles : ConfigFile :=
  [mkConf "a" "https://a.test" "key-a" true; mkConf "b" "https://b.test" "key-b" false].

Definition mode_of (f : FileState) : option Z :=
  match f with FPresent _ m _ => Some m | _ => None end.

(** A settings.json whose env holds an integer beyond 2^53. *)
Definition settings_big_number : FileState :=
  FPresent Owner 420 (Wellformed (JObj [("env", JObj
    [("ANTHROPIC_MODEL", JStr "claude-x");
     ("MAX_TOKENS", JNum (mkDecimal false 12345678901234567891 0))])])).

(** A settings.json whose env holds a number beyond the float64 range. *)
Definition settings_overflow : FileState :=
  FPresent Owner 420 (Wellformed (JObj [("env", JObj
    [("ANTHROPIC_MODEL", JStr "claude-x"); ("LIMIT", JNum (mkDecimal false 1 400))])])).

(** A settings.json of mode 0444 (decimal 292). *)
Definition settings_read_only : FileState :=
  FPresent Owner 292 (Wellformed (JObj [("env", JObj [])])).

(** The value of an env entry in a settings file. *)
Definition file_env_entry (f : FileState) (k : string) : option jvalue :=
  match f with
  | FPresent _ _ (Wellformed (JObj kvs)) =>
      match List.find (fun kv => String.eqb kv.1 "env") kvs with
      | Some (_, JObj l) => option_map snd (List.find (fun kv => String.eqb kv.1 k) l)
      | _ => None
      end
  | _ => None
  end.

(** extractName following the words of the specification (section 4.4),
    over the same URL parser. *)
Definition extractName_spec (endpointURL : string) : string :=
  if String.eqb endpointURL "" then "default"
  else match GoURL.Parse endpointURL with
       | None => "default"
       | Some host =>
           let h := GoURL.Hostname host in
           if String.eqb h "" then "default"
           else match split_char "." (TrimPrefix h "www.") with
                | [l0] => l0
                | [l0; _] => l0
                | _ :: l1 :: _ :: _ => l1
                | [] => "default"
                end
       end.

(** An action raises no error of the collection logic. *)
Definition no_domain_errors {A} (m : M A) : Prop :=
  forall w w' e, m w = (w', Err e) -> domain_error e = false.

(** The env map of parsed settings, empty when env is null or absent. *)
Definition env_of (s : ClaudeSettings) : gmap string gvalue :=
  match Env s with Some m => m | None => ∅ end.

(** A Linux machine after its first "ccc add": the store holds one
    active profile "a". *)
Definition world_one_profile : World :=
  run (addConfiguration "a" "https://x.test" "12345678") fresh_linux.

(** The env map setUnixSettingsFile writes when it starts from
    NewClaudeSettings: the four keys, two of them from the profile. *)
Definition fresh_env (conf : Configuration) : gmap string gvalue :=
  list_to_map [("ANTHROPIC_AUTH_TOKEN", GString (APIKey conf));
               ("ANTHROPIC_BASE_URL", GString (BaseURL conf));
               ("API_TIMEOUT_MS", GString "3000000");
               ("CLAUDE_CODE_DISABLE_NONESSENTIAL_TRAFFIC", GInt 1)].

(** The settings.json setUnixSettingsFile writes when it starts from
    NewClaudeSettings. *)
Definition fresh_file (conf : Configuration) : FileContent :=
  encode (marshal_settings (mkSettings (Some (fresh_env conf)))).

(** The profile loadConfig imports when the store file is missing. *)
Definition imported_config (w : World) : option Configuration :=
  match goos w with
  | Windows => importFromWindows w
  | Linux | Darwin => importFromUnixSettings w
  | OtherOS _ => None
  end.

(** Every string of a JSON value, object keys included, is valid UTF-8. *)
Fixpoint jvalid (v : jvalue) : bool :=
  match v with
  | JStr s => valid_utf8 s
  | JArr l => forallb jvalid l
  | JObj l => forallb (fun kv => valid_utf8 kv.1 && jvalid kv.2) l
  | _ => true
  end.

(** Induction over JSON values through the lists of arrays and objects. *)
Section jvalue_ind_nested.
Variable P : jvalue -> Prop.
Hypothesis HNull : P JNull.
Hypothesis HBool : forall b, P (JBool b).
Hypothesis HNum : forall n, P (JNum n).
Hypothesis HStr : forall s, P (JStr s).
Hypothesis HArr : forall l, Forall P l -> P (JArr l).
Hypothesis HObj : forall l, Forall (fun kv => P kv.2) l -> P (JObj l).

Fixpoint jvalue_ind' (v : jvalue) : P v :=
  match v with
  | JNull => HNull
  | JBool b => HBool b
  | JNum n => HNum n
  | JStr s => HStr s
  | JArr l =>
      HArr l ((fix go (l : list jvalue) : Forall P l :=
                 match l with
                 | [] => @List.Forall_nil _ P
                 | a :: r => @List.Forall_cons _ P a r (jvalue_ind' a) (go r)
                 end) l)
  | JObj l =>
      HObj l ((fix go (l : list (string * jvalue)) : Forall (fun kv => P kv.2) l :=
                 match l with
                 | [] => @List.Forall_nil _ (fun kv => P kv.2)
                 | a :: r => @List.Forall_cons _ (fun kv => P kv.2) a r (jvalue_ind' a.2) (go r)
                 end) l)
  end.
End jvalue_ind_nested.

(** Keys in strictly increasing byte order. *)
Fixpoint keys_sorted {A} (l : list (string * A)) : bool :=
  match l with
  | (k, _) :: (((k', _) :: _) as r) => String.ltb k k' && keys_sorted r
  | _ => true
  end.

(** The interface{} values the decoder builds, and the int 1: strings
    and keys valid UTF-8, floats canonical, maps sorted by key. *)
Fixpoint gvalid (g : gvalue) : bool :=
  match g with
  | GNil | GBool _ => true
  | GFloat f => float_ok f
  | GInt z => Z.eqb z 1
  | GString s => valid_utf8 s
  | GSlice l => forallb gvalid l
  | GMap l => keys_sorted l && forallb (fun kv => valid_utf8 kv.1 && gvalid kv.2) l
  end.

(** A value as it reads back after it was written: the int 1 becomes the
    float64 1. *)
Fixpoint gnorm (g : gvalue) : gvalue :=
  match g with
  | GInt z => match ParseFloat (int_decimal z) with Some f => GFloat f | None => GInt z end
  | GSlice l => GSlice (map gnorm l)
  | GMap l => GMap (map (fun kv => (kv.1, gnorm kv.2)) l)
  | _ => g
  end.

(** Induction over interface{} values through slices and maps. *)
Section gvalue_ind_nested.
Variable P : gvalue -> Prop.
Hypothesis HNil : P GNil.
Hypothesis HBool : forall b, P (GBool b).
Hypothesis HFloat : forall f, P (GFloat f).
Hypothesis HInt : forall z, P (GInt z).
Hypothesis HString : forall s, P (GString s).
Hypothesis HSlice : forall l, Forall P l -> P (GSlice l).
Hypothesis HMap : forall l, Forall (fun kv => P kv.2) l -> P (GMap l).

Fixpoint gvalue_ind' (g : gvalue) : P g :=
  match g with
  | GNil => HNil
  | GBool b => HBool b
  | GFloat f => HFloat f
  | GInt z => HInt z
  | GString s => HString s
  | GSlice l =>
      HSlice l ((fix go (l : list gvalue) : Forall P l :=
                   match l with
                   | [] => @List.Forall_nil _ P
                   | a :: r => @List.Forall_cons _ P a r (gvalue_ind' a) (go r)
                   end) l)
  | GMap l =>
      HMap l ((fix go (l : list (string * gvalue)) : Forall (fun kv => P kv.2) l :=
                 match l with
                 | [] => @List.Forall_nil _ (fun kv => P kv.2)
                 | a :: r => @List.Forall_cons _ (fun kv => P kv.2) a r (gvalue_ind' a.2) (go r)
                 end) l)
  end.
End gvalue_ind_nested.

(** Every key and value of an env map is valid. *)
Definition env_valid (m : gmap string gvalue) : Prop :=
  map_Forall (fun k x => valid_utf8 k = true /\ gvalid x = true) m.

(** A Linux machine whose store file, written by hand, holds the two
    profiles of [two_profiles] and a key the program does not know. *)
Definition stored_two_profiles : World :=
  set_store fresh_linux (FPresent Owner 420 (Wellformed (JObj
    [("configurations", JArr (map marshal_conf two_profiles)); ("extra", JNull)]))).

(* ------------------------------------------------------------------ *)
(** ** fmt: %-*s pads to a width counted in runes *)

(** utf8.RuneCountInString: a valid multi-byte sequence counts as one
    rune, every other byte as one rune. *)
Fixpoint rune_count_fuel (fuel : nat) (s : string) : nat :=
  match fuel with
  | O => O
  | S f =>
      match s with
      | EmptyString => O
      | String c rest =>
          if Nat.ltb (byte_of c) 128 then S (rune_count_fuel f rest)
          else match rune_size s with
               | Some k => S (rune_count_fuel f (str_drop k s))
               | None => S (rune_count_fuel f rest)
               end
      end
  end.

Definition RuneCountInString (s : string) : nat := rune_count_fuel (String.length s) s.

(** The verb %-*s with width [w]: the string, then spaces up to [w] runes
    (fmt.padString with the minus flag; nothing is cut). *)
Definition pad_right (w : nat) (s : string) : string :=
  String.append s (str_repeat " " (w - RuneCountInString s)).

(** One fmt.Printf("%-*s%-*s%-*s%-*s\n", ...) line, without its newline. *)
Definition table_line (w1 w2 w3 w4 : nat) (a b c d : string) : string :=
  String.append (pad_right w1 a)
    (String.append (pad_right w2 b) (String.append (pad_right w3 c) (pad_right w4 d))).

(* ------------------------------------------------------------------ *)
(** ** listConfigurations *)

Definition status_of (conf : Configuration) : string :=
  if Active conf then "Active" else "Inactive".

(** The loop over the sorted profiles computing the four column widths
    (in bytes, len), before the padding of 2 is added. *)
Definition column_widths (config : ConfigFile) : nat * nat * nat * nat :=
  fold_left (fun acc conf =>
    let '(nameWidth, statusWidth, urlWidth, apiKeyWidth) := acc in
    let nameWidth := if Nat.ltb nameWidth (String.length (Name conf))
                     then String.length (Name conf) else nameWidth in
    let status := status_of conf in
    let statusWidth := if Nat.ltb statusWidth (String.length status)
                       then String.length status else statusWidth in
    let urlWidth := if Nat.ltb urlWidth (String.length (BaseURL conf))
                    then String.length (BaseURL conf) else urlWidth in
    let maskedKey := maskAPIKey (APIKey conf) in
    let apiKeyWidth := if Nat.ltb apiKeyWidth (String.length maskedKey)
                       then String.length maskedKey else apiKeyWidth in
    (nameWidth, statusWidth, urlWidth, apiKeyWidth)) config (4, 6, 8, 7).

(** sort.Slice with the comparison by Name of listConfigurations.  The
    package sort does not specify the order of elements with equal names
    (pdqsort is not stable), so the sort is a parameter; all the results
    below only use that it keeps the number of elements.  For at most 12
    elements sort.Slice is an insertion sort, modelled by
    [insertionSort_by_name] below. *)
Section Listing.
Variable sortSlice : ConfigFile -> ConfigFile.

(** The lines listConfigurations prints on success, in order. *)
Definition listConfigurations : M (list string) :=
  config <- loadConfig ;;
  if Nat.eqb (length config) 0 then ret ["No configurations found."]
  else
    let config := sortSlice config in
    let '(nameWidth, statusWidth, urlWidth, apiKeyWidth) := column_widths config in
    let nameWidth := nameWidth + 2 in
    let statusWidth := statusWidth + 2 in
    let urlWidth := urlWidth + 2 in
    let apiKeyWidth := apiKeyWidth + 2 in
    let header := table_line nameWidth statusWidth urlWidth apiKeyWidth
                    "Name" "Status" "Base URL" "API Key" in
    let separator := table_line nameWidth statusWidth urlWidth apiKeyWidth
                       (str_repeat "-" (nameWidth - 2)) (str_repeat "-" (statusWidth - 2))
                       (str_repeat "-" (urlWidth - 2)) (str_repeat "-" (apiKeyWidth - 2)) in
    let rows := map (fun conf => table_line nameWidth statusWidth urlWidth apiKeyWidth
                                   (Name conf) (status_of conf) (BaseURL conf)
                                   (maskAPIKey (APIKey conf))) config in
    ret (header :: separator :: rows).
End Listing.

(** sort's insertionSortLessFunc over the whole slice with
    less(i, j) = Name[i] < Name[j]: element i moves left past every
    element whose name is greater.  [acc] is the sorted prefix, reversed. *)
Fixpoint insert_rev (x : Configuration) (acc : ConfigFile) : ConfigFile :=
  match acc with
  | [] => [x]
  | y :: r => if String.ltb (Name x) (Name y) then y :: insert_rev x r else x :: acc
  end.

Definition insertionSort_by_name (config : ConfigFile) : ConfigFile :=
  rev (fold_left (fun acc x => insert_rev x acc) config []).

(* ------------------------------------------------------------------ *)
(** ** Package flag: FlagSet.Parse with ExitOnError, for string flags *)

(** The result of FlagSet.parseOne: stop with the remaining arguments
    (false, nil), a flag set to a value (true, nil), or an error
    (ErrHelp when [help]). *)
Inductive flag_step :=
  | FlagDone (args : list string)
  | FlagSet (name value : string) (args : list string)
  | FlagErr (help : bool).

(** FlagSet.parseOne for a set whose flags [formal] are all string flags
    (flag.String: Set never fails, no boolean flags). *)
Definition parseOne (formal : list string) (args : list string) : flag_step :=
  match args with
  | [] => FlagDone []
  | s :: rest =>
      match s with
      | String c0 (String c1 _) =>
          if negb (Ascii.eqb c0 "-") then FlagDone args
          else if Ascii.eqb c1 "-" && Nat.eqb (String.length s) 2 then FlagDone rest
          else
            let numMinuses := if Ascii.eqb c1 "-" then 2 else 1 in
            let name := str_drop numMinuses s in
            match name with
            | EmptyString => FlagErr false
            | String n0 _ =>
                if Ascii.eqb n0 "-" || Ascii.eqb n0 "=" then FlagErr false
                else
                  let '(name, hasValue, value) :=
                    match index_char "=" (str_drop 1 name) with
                    | Some j => (str_take (S j) name, true, str_drop (S (S j)) name)
                    | None => (name, false, EmptyString)
                    end in
                  if negb (existsb (String.eqb name) formal) then
                    FlagErr (String.eqb name "help" || String.eqb name "h")
                  else if hasValue then FlagSet name value rest
                  else match rest with
                       | v :: rest' => FlagSet name v rest'
                       | [] => FlagErr false
                       end
            end
      | _ => FlagDone args
      end
  end.

(** FlagSet.Parse with ExitOnError: the values set, most recent first,
    and the remaining arguments; or the exit status (0 after ErrHelp,
    2 after any other error). *)
Inductive parse_outcome :=
  | Parsed (actual : list (string * string)) (args : list string)
  | ParseExit (code : nat).

Fixpoint parse_fuel (fuel : nat) (formal : list string) (args : list string)
    (actual : list (string * string)) : parse_outcome :=
  match fuel with
  | O => Parsed actual args
  | S f =>
      match parseOne formal args with
      | FlagSet name value rest => parse_fuel f formal rest ((name, value) :: actual)
      | FlagDone rest => Parsed actual rest
      | FlagErr help => ParseExit (if help then 0 else 2)
      end
  end.

(** Every flag consumes an argument, so [length args + 1] steps suffice. *)
Definition Parse (formal : list string) (args : list string) : parse_outcome :=
  parse_fuel (S (length args)) formal args [].

(** The value of a string flag after parsing: the last value set, or the
    default "". *)
Fixpoint flag_value (actual : list (string * string)) (name : string) : string :=
  match actual with
  | [] => EmptyString
  | (k, v) :: r => if String.eqb k name then v else flag_value r name
  end.

(* ------------------------------------------------------------------ *)
(** ** main *)

(** The exit status of a command: os.Exit(1) after an error, 0 when main
    returns. *)
Definition exit_of (r : World * result unit) : World * nat :=
  (r.1, match r.2 with Ok _ => O | Err _ => 1 end).

(** main, with [args] = os.Args[1:]; the result is the final world and
    the exit status.  What it prints is not modelled. *)
Definition main (sortSlice : ConfigFile -> ConfigFile) (args : list string) (w : World) : World * nat :=
  match args with
  | [] => (w, 1)
  | command :: rest =>
      if String.eqb command "list" || String.eqb command "ls" then
        let '(w', r) := listConfigurations sortSlice w in
        (w', match r with Ok _ => O | Err _ => 1 end)
      else if String.eqb command "add" then
        match Parse ["n"; "u"; "k"] rest with
        | ParseExit code => (w, code)
        | Parsed actual _ =>
            let name := flag_value actual "n" in
            let baseURL := flag_value actual "u" in
            let apiKey := flag_value actual "k" in
            if String.eqb name "" || String.eqb baseURL "" || String.eqb apiKey "" then (w, 1)
            else exit_of (addConfiguration name baseURL apiKey w)
        end
      else if String.eqb command "update" then
        match Parse ["n"; "u"; "k"] rest with
        | ParseExit code => (w, code)
        | Parsed actual _ =>
            let name := flag_value actual "n" in
            let baseURL := flag_value actual "u" in
            let apiKey := flag_value actual "k" in
            if String.eqb name "" then (w, 1)
            else exit_of (updateConfiguration name baseURL apiKey w)
        end
      else if String.eqb command "delete" then
        match Parse ["n"] rest with
        | ParseExit code => (w, code)
        | Parsed actual _ =>
            let name := flag_value actual "n" in
            if String.eqb name "" then (w, 1) else exit_of (deleteConfiguration name w)
        end
      else if String.eqb command "activate" then
        match Parse ["n"] rest with
        | ParseExit code => (w, code)
        | Parsed actual _ =>
            let name := flag_value actual "n" in
            if String.eqb name "" then (w, 1) else exit_of (activateConfiguration name w)
        end
      else (w, 1)
  end.

(* ------------------------------------------------------------------ *)
(** ** Command lines made of flags *)

(** The ways a string flag of add, update, delete or activate can be
    written: "-n v", "-n=v", "--n v" and "--n=v". *)
Inductive flag_form := DashSpace | DashEq | DDashSpace | DDashEq.

(** The flags defined by the subcommands: -n, -u and -k. *)
Inductive flag_name := FlagN | FlagU | FlagK.

Definition flag_letter (x : flag_name) : string :=
  match x with FlagN => "n" | FlagU => "u" | FlagK => "k" end.

Definition flag_name_eqb (x y : flag_name) : bool :=
  match x, y with
  | FlagN, FlagN | FlagU, FlagU | FlagK, FlagK => true
  | _, _ => false
  end.

(** The arguments that give flag [x] the value [v] in form [fm]. *)
Definition flag_args (e : flag_form * flag_name * string) : list string :=
  let '(fm, x, v) := e in
  match fm with
  | DashSpace => [String.append "-" (flag_letter x); v]
  | DashEq => [String.append "-" (String.append (flag_letter x) (String.append "=" v))]
  | DDashSpace => [String.append "--" (flag_letter x); v]
  | DDashEq => [String.append "--" (String.append (flag_letter x) (String.append "=" v))]
  end.

Definition flags_args (fl : list (flag_form * flag_name * string)) : list string :=
  flat_map flag_args fl.

(** The value flag [x] is given last in [fl], or "" if [fl] never gives it. *)
Definition last_flag_value (fl : list (flag_form * flag_name * string)) (x : flag_name) : string :=
  fold_left (fun acc e => if flag_name_eqb e.1.2 x then e.2 else acc) fl "".

(** An argument "-name", "--name", "-name=value" or "--name=value". *)
Definition flag_token (two : bool) (name : string) (value : option string) : string :=
  String.append (if two then "--" else "-")
    (String.append name (match value with Some v => String.append "=" v | None => "" end)).

(* ================================================================== *)
(** * Properties *)

(** ** Lemmas on findConfiguration and the collection operations *)

Lemma findConfiguration_Some (l : ConfigFile) n i c :
  findConfiguration l n = Some (i, c) -> l !! i = Some c /\ Name c = n.
Proof.
  revert i. induction l as [|d l IH]; intros i H; simpl in H; [discriminate|].
  destruct (String.eqb_spec (Name d) n) as [E|E].
  - injection H as <- <-. auto.
  - destruct (findConfiguration l n) as [[j e]|] eqn:F; simpl in H; [|discriminate].
    injection H as <- <-. simpl. apply IH. reflexivity.
Qed.

Lemma findConfiguration_None (l : ConfigFile) n :
  findConfiguration l n = None <-> ~ In n (map Name l).
Proof.
  induction l as [|d l IH]; simpl; [tauto|].
  destruct (String.eqb_spec (Name d) n) as [E|E].
  - split; [discriminate|]. intros H; exfalso; auto.
  - destruct (findConfiguration l n) eqn:F; simpl.
    + split; [discriminate|]. intros H. exfalso.
      assert (Hs : Some p = None) by (apply IH; intros Hi; apply H; auto). discriminate.
    + split; [|reflexivity]. intros _ [H|H]; [auto|]. apply IH in H; auto.
Qed.

Lemma filter_name_nil (l : ConfigFile) n :
  ~ In n (map Name l) -> List.filter (fun c => String.eqb (Name c) n) l = [].
Proof.
  induction l as [|d l IH]; simpl; intros H; [reflexivity|].
  destruct (String.eqb_spec (Name d) n) as [E|E]; [exfalso; auto|]. apply IH; auto.
Qed.

Lemma count_setActive (l : ConfigFile) n :
  count_active (setActiveConfiguration l n) = length (List.filter (fun c => String.eqb (Name c) n) l).
Proof.
  unfold count_active, setActiveConfiguration.
  induction l as [|d l IH]; simpl; [reflexivity|].
  destruct (String.eqb (Name d) n); simpl; rewrite IH; reflexivity.
Qed.

Lemma names_setActive (l : ConfigFile) n :
  map Name (setActiveConfiguration l n) = map Name l.
Proof.
  unfold setActiveConfiguration. rewrite map_map. apply map_ext. reflexivity.
Qed.

Lemma count_name_unique (l : ConfigFile) n :
  NoDup (map Name l) -> In n (map Name l) ->
  length (List.filter (fun c => String.eqb (Name c) n) l) = 1%nat.
Proof.
  induction l as [|d l IH]; simpl; intros Hnd Hin; [contradiction|].
  inversion Hnd as [|? ? Hnin Hnd']; subst.
  destruct (String.eqb_spec (Name d) n) as [E|E]; simpl.
  - subst. rewrite filter_name_nil; [reflexivity|].
    intros Hi. apply Hnin. apply list_elem_of_In. exact Hi.
  - apply IH; auto. destruct Hin; [contradiction|auto].
Qed.

Lemma count_name_le (l : ConfigFile) n :
  NoDup (map Name l) -> (length (List.filter (fun c => String.eqb (Name c) n) l) <= 1)%nat.
Proof.
  intros Hnd. destruct (in_dec string_dec n (map Name l)) as [Hin|Hin].
  - rewrite count_name_unique; auto.
  - rewrite filter_name_nil; simpl; auto.
Qed.

Lemma map_insert_same {B} (f : Configuration -> B) (l : ConfigFile) i x y :
  l !! i = Some x -> f y = f x -> map f (<[i := y]> l) = map f l.
Proof.
  revert i. induction l as [|a l IH]; intros [|i] H E; simpl in *; try discriminate.
  - injection H as ->. rewrite E. reflexivity.
  - f_equal. apply (IH i H E).
Qed.

Lemma count_insert_same (l : ConfigFile) i x y :
  l !! i = Some x -> Active y = Active x -> count_active (<[i := y]> l) = count_active l.
Proof.
  unfold count_active. revert i. induction l as [|a l IH]; intros [|i] H E; simpl in *; try discriminate.
  - injection H as ->. rewrite E. destruct (Active x); reflexivity.
  - destruct (Active a); simpl; [f_equal|]; apply (IH i H E).
Qed.

Lemma nodup_map_filter {A B} (f : A -> B) (p : A -> bool) (l : list A) :
  NoDup (map f l) -> NoDup (map f (List.filter p l)).
Proof.
  induction l as [|a l IH]; simpl; intros H; [constructor|].
  inversion H as [|? ? Hnin Hnd]; subst.
  destruct (p a); simpl; [|auto].
  constructor; [|auto]. intros Hin. apply Hnin. apply list_elem_of_In.
  apply list_elem_of_In in Hin.
  apply in_map_iff in Hin as [b [Eb Hb]]. apply filter_In in Hb as [Hb _].
  rewrite <- Eb. apply in_map. exact Hb.
Qed.

Lemma count_filter_le (l : ConfigFile) p :
  (count_active (List.filter p l) <= count_active l)%nat.
Proof.
  unfold count_active. induction l as [|a l IH]; simpl; [lia|].
  destruct (p a); simpl; destruct (Active a) eqn:Ea; simpl; try rewrite Ea; simpl; lia.
Qed.

Lemma lookup_map_opt {A B} (f : A -> B) (l : list A) j :
  map f l !! j = option_map f (l !! j).
Proof.
  revert j. induction l as [|a l IH]; intros [|j]; simpl; auto.
Qed.

Lemma nodup_snoc {A} (l : list A) x : NoDup l -> x ∉ l -> NoDup (l ++ [x]).
Proof.
  induction l as [|a l IH]; simpl; intros H Hx.
  - constructor; [set_solver|constructor].
  - inversion H as [|? ? Ha Hl]; subst. constructor.
    + rewrite elem_of_app. intros [Hi|Hi]; [contradiction|].
      apply Hx. apply list_elem_of_singleton in Hi. subst. constructor.
    + apply IH; [exact Hl|]. intros Hi; apply Hx; right; exact Hi.
Qed.

Lemma count_snoc (l : ConfigFile) c :
  count_active (l ++ [c]) = (count_active l + if Active c then 1 else 0)%nat.
Proof.
  unfold count_active. rewrite List.filter_app, length_app. simpl.
  destruct (Active c); reflexivity.
Qed.

(** ** C1: the operations preserve the collection invariants *)

(** C1 (as stated: counterexample).  A store with two active profiles
    is accepted by loadConfig, and a successful add leaves both active. *)
Lemma C1_counterexample :
  count_active two_active = 2%nat /\
  add_core two_active "c" "https://c.test" "key-c"
    = Ok (two_active ++ [mkConf "c" "https://c.test" "key-c" false]) /\
  count_active (two_active ++ [mkConf "c" "https://c.test" "key-c" false]) = 2%nat.
Proof. vm_compute. auto. Qed.

(** C1 (amended).  For every collection that satisfies the invariants
    (unique names, at most one active profile), a successful add, update,
    delete or setActive (the collection step of activate) yields a
    collection that again satisfies them. *)
Theorem C1_ops_preserve_invariants (config : ConfigFile) (n u k : string) :
  wf_collection config ->
  (forall c', add_core config n u k = Ok c' -> wf_collection c') /\
  (forall c', update_core config n u k = Ok c' -> wf_collection c') /\
  (forall c', delete_core config n = Ok c' -> wf_collection c') /\
  (forall c' x, activate_core config n = Ok (c', x) -> wf_collection c').
Proof.
  intros [Hnd Hcnt]. unfold unique_names in Hnd. split; [|split; [|split]].
  - intros c' H. unfold add_core in H.
    destruct (findConfiguration config n) eqn:F; [discriminate|].
    apply findConfiguration_None in F. injection H as <-. split.
    + unfold unique_names. rewrite map_app. simpl.
      destruct (Nat.eqb (length config) 0); simpl;
        (apply nodup_snoc; [exact Hnd | rewrite list_elem_of_In; exact F]).
    + rewrite count_snoc.
      destruct (Nat.eqb (length config) 0) eqn:L; simpl.
      * apply Nat.eqb_eq, length_zero_iff_nil in L. subst. reflexivity.
      * lia.
  - intros c' H. unfold update_core in H.
    destruct (findConfiguration config n) as [[i conf]|] eqn:F; [|discriminate].
    apply findConfiguration_Some in F as [Hi _]. cbv zeta in H. injection H as <-.
    set (y := if String.eqb k "" then _ else _).
    assert (Ey : Name y = Name conf /\ Active y = Active conf).
    { unfold y. destruct (String.eqb u ""), (String.eqb k ""); simpl; auto. }
    split.
    + unfold unique_names. erewrite map_insert_same; [exact Hnd | exact Hi | apply Ey].
    + erewrite count_insert_same; [exact Hcnt | exact Hi | apply Ey].
  - intros c' H. unfold delete_core in H.
    destruct (findConfiguration config n) as [[i conf]|]; [|discriminate].
    destruct (Active conf); [discriminate|]. injection H as <-. split.
    + apply nodup_map_filter. exact Hnd.
    + pose proof (count_filter_le config (fun c => negb (String.eqb (Name c) n))). lia.
  - intros c' x H. unfold activate_core in H.
    destruct (findConfiguration config n) as [[i conf]|]; [|discriminate].
    injection H as <- _. split.
    + unfold unique_names. rewrite names_setActive. exact Hnd.
    + rewrite count_setActive. apply count_name_le. exact Hnd.
Qed.

Lemma C1_witness :
  wf_collection two_profiles /\
  (forall c', add_core two_profiles "c" "https://c.test" "key-c" = Ok c' -> wf_collection c').
Proof.
  assert (W : wf_collection two_profiles).
  { split; [apply (bool_decide_unpack _); vm_compute; exact I | vm_compute; lia]. }
  split; [exact W|].
  exact (proj1 (C1_ops_preserve_invariants two_profiles "c" "https://c.test" "key-c" W)).
Defined.

(** ** C4: add *)

(** C4.  add fails with DuplicateName exactly when a profile of that name
    exists; otherwise it appends one new profile at the end, active iff the
    collection was empty, and keeps the existing profiles as they were. *)
Theorem C4_add_spec (config : ConfigFile) (n u k : string) :
  (In n (map Name config) -> add_core config n u k = Err ErrDuplicateName) /\
  (~ In n (map Name config) ->
     add_core config n u k
       = Ok (config ++ [mkConf n u k (match config with [] => true | _ :: _ => false end)])).
Proof.
  split; intros H; unfold add_core.
  - destruct (findConfiguration config n) eqn:F; [reflexivity|].
    apply findConfiguration_None in F. contradiction.
  - apply findConfiguration_None in H. rewrite H. destruct config; reflexivity.
Qed.

Lemma C4_witness :
  In "a" (map Name two_profiles) /\ ~ In "c" (map Name two_profiles) /\
  add_core two_profiles "a" "https://x.test" "k" = Err ErrDuplicateName /\
  add_core two_profiles "c" "https://x.test" "k"
    = Ok (two_profiles ++ [mkConf "c" "https://x.test" "k" false]).
Proof.
  assert (H1 : In "a" (map Name two_profiles)) by (simpl; auto).
  assert (H2 : ~ In "c" (map Name two_profiles)) by (simpl; intros [H|[H|[]]]; discriminate).
  split; [exact H1|]. split; [exact H2|]. split.
  - exact (proj1 (C4_add_spec two_profiles "a" "https://x.test" "k") H1).
  - exact (proj2 (C4_add_spec two_profiles "c" "https://x.test" "k") H2).
Defined.

(** ** C5 and C10: setActive *)

(** C5 (as stated: counterexample).  In a store with two profiles named
    "a", setActive "a" leaves both active, so the profile that was meant
    is not the only active one. *)
Lemma C5_counterexample :
  In "a" (map Name dup_names) /\
  count_active (setActiveConfiguration dup_names "a") = 2%nat.
Proof. vm_compute. split; [auto | reflexivity]. Qed.

(** C5 (amended).  For every collection containing a profile named n,
    setActive n sets isActive to true on the profiles named n and to false
    on all others, and changes no other field; with unique names this is
    exactly the profile found.  Applying it twice equals applying it once. *)
Theorem C5_setActive_spec (config : ConfigFile) (n : string) :
  In n (map Name config) ->
  (forall j c, config !! j = Some c ->
     setActiveConfiguration config n !! j = Some (set_active c (String.eqb (Name c) n))) /\
  (unique_names config ->
   forall i p j c, config !! i = Some p -> Name p = n -> config !! j = Some c ->
     setActiveConfiguration config n !! j = Some (set_active c (bool_decide (j = i)))) /\
  setActiveConfiguration (setActiveConfiguration config n) n = setActiveConfiguration config n.
Proof.
  intros _.
  assert (Hlook : forall j c, config !! j = Some c ->
     setActiveConfiguration config n !! j = Some (set_active c (String.eqb (Name c) n))).
  { intros j c Hj. unfold setActiveConfiguration. rewrite lookup_map_opt, Hj. reflexivity. }
  split; [exact Hlook|]. split.
  - intros Hnd i p j c Hi Hp Hj. rewrite (Hlook j c Hj). do 2 f_equal.
    destruct (String.eqb_spec (Name c) n) as [E|E]; case_bool_decide as D; auto.
    + exfalso. apply D. apply (NoDup_lookup (map Name config) j i (Name c) Hnd).
      * rewrite lookup_map_opt, Hj. reflexivity.
      * rewrite lookup_map_opt, Hi. simpl. rewrite Hp, E. reflexivity.
    + subst j. rewrite Hi in Hj. injection Hj as <-. contradiction.
  - unfold setActiveConfiguration. rewrite map_map. apply map_ext. intros c. reflexivity.
Qed.

Lemma C5_witness :
  In "b" (map Name two_profiles) /\
  setActiveConfiguration (setActiveConfiguration two_profiles "b") "b"
    = setActiveConfiguration two_profiles "b".
Proof.
  assert (H : In "b" (map Name two_profiles)) by (simpl; auto).
  split; [exact H|]. exact (proj2 (proj2 (C5_setActive_spec two_profiles "b" H))).
Defined.

(** C10.  For every collection with unique names containing a profile
    named n, whatever the active flags were before (none, one or several),
    setActiveConfiguration n leaves exactly one active profile, the one
    named n. *)
Theorem C10_setActive_repairs (config : ConfigFile) (n : string) :
  unique_names config -> In n (map Name config) ->
  count_active (setActiveConfiguration config n) = 1%nat /\
  (forall c, In c (setActiveConfiguration config n) -> Active c = true -> Name c = n).
Proof.
  intros Hnd Hin. split.
  - rewrite count_setActive. apply count_name_unique; assumption.
  - intros c Hc Ha. unfold setActiveConfiguration in Hc.
    apply in_map_iff in Hc as [d [<- _]]. simpl in *.
    apply String.eqb_eq. exact Ha.
Qed.

Lemma C10_witness :
  unique_names two_active /\ In "b" (map Name two_active) /\
  count_active (setActiveConfiguration two_active "b") = 1%nat.
Proof.
  assert (H1 : unique_names two_active) by (apply (bool_decide_unpack _); vm_compute; exact I).
  assert (H2 : In "b" (map Name two_active)) by (simpl; auto).
  split; [exact H1|]. split; [exact H2|].
  exact (proj1 (C10_setActive_repairs two_active "b" H1 H2)).
Defined.

(** ** C6: maskAPIKey *)

Lemma length_str_repeat_star n : String.length (str_repeat "*" n) = n.
Proof. induction n as [|n IH]; simpl; auto. Qed.

Lemma str_repeat_star_only n i ch :
  String.get i (str_repeat "*" n) = Some ch -> ch = "*"%char.
Proof.
  revert i. induction n as [|n IH]; intros i H; simpl in H; [discriminate|].
  destruct i as [|i]; [injection H as <-; reflexivity | exact (IH i H)].
Qed.

Lemma str_take_substring n s : str_take n s = substring 0 n s.
Proof.
  revert s. induction n as [|n IH]; intros [|c s]; simpl; auto. rewrite IH. reflexivity.
Qed.

Lemma substring_full s : substring 0 (String.length s) s = s.
Proof. induction s as [|c s IH]; simpl; [reflexivity|]. rewrite IH. reflexivity. Qed.

Lemma str_drop_substring n s : str_drop n s = substring n (String.length s - n) s.
Proof.
  revert s. induction n as [|n IH]; intros s.
  - simpl. rewrite Nat.sub_0_r, substring_full. reflexivity.
  - destruct s as [|c s]; simpl; [reflexivity|]. apply IH.
Qed.

(** C6.  A key of at most 8 bytes is shown as that many mask characters,
    whatever its bytes are; a longer key is shown as its first 4 bytes,
    then length - 8 mask characters, then its last 4 bytes. *)
Theorem C6_maskAPIKey_spec (s : string) :
  ((String.length s <= 8)%nat ->
     String.length (maskAPIKey s) = String.length s /\
     (forall i ch, String.get i (maskAPIKey s) = Some ch -> ch = "*"%char) /\
     (forall t, String.length t = String.length s -> maskAPIKey t = maskAPIKey s)) /\
  ((8 < String.length s)%nat ->
     exists mid,
       maskAPIKey s = String.append (substring 0 4 s)
                        (String.append mid (substring (String.length s - 4) 4 s)) /\
       String.length mid = String.length s - 8 /\
       (forall i ch, String.get i mid = Some ch -> ch = "*"%char)).
Proof.
  split; intros H.
  - assert (E : maskAPIKey s = str_repeat "*" (String.length s)).
    { unfold maskAPIKey. apply Nat.leb_le in H. rewrite H. reflexivity. }
    rewrite E. split; [apply length_str_repeat_star|]. split; [apply str_repeat_star_only|].
    intros t Ht. unfold maskAPIKey. rewrite Ht. apply Nat.leb_le in H. rewrite H. reflexivity.
  - exists (str_repeat "*" (String.length s - 8)). split; [|split].
    + unfold maskAPIKey. destruct (Nat.leb_spec (String.length s) 8); [lia|].
      rewrite str_take_substring, str_drop_substring.
      replace (String.length s - (String.length s - 4)) with 4%nat by lia. reflexivity.
    + apply length_str_repeat_star.
    + apply str_repeat_star_only.
Qed.

Lemma C6_witness :
  maskAPIKey "12345678" = "********" /\ maskAPIKey "sk-ant-api03-abcd" = "sk-a*********abcd" /\
  (String.length "12345678" <= 8)%nat /\ (8 < String.length "sk-ant-api03-abcd")%nat /\
  String.length (maskAPIKey "12345678") = 8%nat.
Proof.
  assert (H1 : (String.length "12345678" <= 8)%nat) by (simpl; lia).
  split; [reflexivity|]. split; [reflexivity|]. split; [exact H1|]. split; [simpl; lia|].
  exact (proj1 (proj1 (C6_maskAPIKey_spec "12345678") H1)).
Defined.

(** ** C7: extractDomainFromURL *)

Lemma split_char_nonempty sep s : split_char sep s <> [].
Proof.
  destruct s as [|c s]; simpl; [discriminate|].
  destruct (Ascii.eqb c sep); [discriminate|].
  destruct (split_char sep s); discriminate.
Qed.

(** C7.  extractDomainFromURL is the function the specification
    describes: "default" for the empty string, for a URL url.Parse
    rejects, or for an empty hostname; otherwise, after removing a
    leading "www.", label 1 when there are 3 or more labels, label 0 when
    there are 2, and the only label when there is 1.  In particular
    "https://api.anthropic.com" and "https://anthropic.com" give
    "anthropic" and "" gives "default". *)
Theorem C7_extractDomainFromURL_spec :
  (forall s, extractDomainFromURL s = extractName_spec s) /\
  extractDomainFromURL "https://api.anthropic.com" = "anthropic" /\
  extractDomainFromURL "https://anthropic.com" = "anthropic" /\
  extractDomainFromURL "" = "default".
Proof.
  split; [|split; [reflexivity|split; reflexivity]].
  intros s. unfold extractDomainFromURL, extractName_spec.
  destruct (String.eqb s ""); [reflexivity|].
  destruct (GoURL.Parse s) as [host|]; [|reflexivity].
  destruct (String.eqb (GoURL.Hostname host) ""); [reflexivity|].
  pose proof (split_char_nonempty "." (TrimPrefix (GoURL.Hostname host) "www.")) as Hne.
  destruct (split_char "." (TrimPrefix (GoURL.Hostname host) "www.")) as [|l0 [|l1 [|l2 r]]];
    [contradiction| reflexivity | reflexivity | reflexivity].
Qed.

(* ------------------------------------------------------------------ *)
(** ** Permissions of the store file *)

Lemma saveConfig_ok (cfg : ConfigFile) w w' :
  saveConfig cfg w = (w', Ok tt) ->
  exe_ok w = true /\
  exists f, write_file (root w) (store w) (exe_dir_writable w) (umask w) 420
              (encode (marshal_configfile cfg)) = Some f /\ w' = set_store w f.
Proof.
  unfold saveConfig, getConfigPath, bind, get, ret, throw, put. intros H.
  cbv beta iota in H. destruct (exe_ok w); cbv beta iota in H; [|discriminate H].
  destruct (write_file _ _ _ _ _ _) as [f|] eqn:Hw; [|discriminate H].
  injection H as <-. split; [reflexivity|]. exists f. split; reflexivity.
Qed.

(** C8.  saveConfig creates the store file with mode 0644 minus the
    umask (os.WriteFile with perm 0644) and leaves the mode of an
    existing file as it is (whether or not it may be written); nothing
    restricts it to the owner.  On a
    first run under the usual umask 022 the file gets 0644 (decimal 420),
    whose group and other read bits (0044, decimal 36) are set. *)
Theorem C8_saveConfig_mode (cfg : ConfigFile) (w : World) (Hexe : exe_ok w = true) :
  (store w = FMissing -> exe_dir_writable w = true ->
     mode_of (store (run (saveConfig cfg) w)) = Some (Z.ldiff 420 (umask w))) /\
  (forall cls m c, store w = FPresent cls m c -> mode_of (store (run (saveConfig cfg) w)) = Some m) /\
  mode_of (store (run (saveConfig cfg) fresh_linux)) = Some 420%Z /\
  Z.land 420 63 = 36%Z.
Proof.
  unfold run, saveConfig, getConfigPath, bind, get, ret, throw, put.
  rewrite Hexe. split; [|split; [|split]].
  - intros Hs Hc. unfold write_file. rewrite Hs, Hc. reflexivity.
  - intros cls m c Hs. unfold write_file. rewrite Hs.
    destruct (can_write _ _); simpl; rewrite ?Hs; reflexivity.
  - reflexivity.
  - reflexivity.
Qed.

Lemma C8_witness :
  mode_of (store (run (saveConfig two_profiles) fresh_linux)) = Some 420%Z.
Proof.
  destruct (C8_saveConfig_mode two_profiles fresh_linux eq_refl) as [H _].
  apply H; reflexivity.
Defined.

(* ------------------------------------------------------------------ *)
(** ** Save then load *)

Lemma str_take_drop k s : String.append (str_take k s) (str_drop k s) = s.
Proof.
  revert s. induction k as [|k IH]; intros [|c s]; simpl; try reflexivity.
  exact (f_equal (String c) (IH s)).
Qed.

Lemma length_str_drop k s : String.length (str_drop k s) = String.length s - k.
Proof.
  revert s. induction k as [|k IH]; intros [|c s]; simpl; try lia.
  apply IH.
Qed.

Lemma rune_size_ge s k : rune_size s = Some k -> (2 <= k)%nat.
Proof.
  unfold rune_size. intros H.
  repeat case_match; simplify_eq; lia.
Qed.

Lemma coerce_fuel_valid n s :
  (String.length s <= n)%nat -> valid_fuel n s = true -> coerce_fuel n s = s.
Proof.
  revert s. induction n as [|n IH]; intros s Hlen Hv; [reflexivity|].
  destruct s as [|c rest]; [reflexivity|]. cbn [valid_fuel coerce_fuel] in Hv |- *.
  destruct (Nat.ltb (byte_of c) 128).
  - simpl in Hlen. rewrite IH; [reflexivity| lia | exact Hv].
  - destruct (rune_size (String c rest)) as [k|] eqn:Hr; [|discriminate].
    pose proof (rune_size_ge _ _ Hr) as Hk.
    rewrite IH; [apply str_take_drop| |exact Hv].
    rewrite length_str_drop. simpl in Hlen |- *. lia.
Qed.

Lemma coerce_valid s : valid_utf8 s = true -> coerce s = s.
Proof. intros H. apply coerce_fuel_valid; [lia | exact H]. Qed.

(** Every string of a profile is valid UTF-8. *)
Definition conf_valid (c : Configuration) : bool :=
  valid_utf8 (Name c) && valid_utf8 (BaseURL c) && valid_utf8 (APIKey c).

Lemma jcoerce_marshal_conf c : conf_valid c = true -> jcoerce (marshal_conf c) = marshal_conf c.
Proof.
  unfold conf_valid. intros H. apply andb_prop in H as [H H3]. apply andb_prop in H as [H1 H2].
  simpl. rewrite !coerce_valid by assumption || reflexivity. reflexivity.
Qed.

Lemma decode_marshal_conf c : decode_conf (marshal_conf c) = Some c.
Proof. destruct c. reflexivity. Qed.

Lemma decode_marshal_configs (cfg : ConfigFile) :
  mapM decode_conf (map marshal_conf cfg) = Some cfg.
Proof.
  induction cfg as [|c cfg IH]; [reflexivity|].
  cbn [map mapM]. rewrite decode_marshal_conf, IH. reflexivity.
Qed.

Lemma marshal_configfile_cons c r :
  marshal_configfile (c :: r) = JObj [("configurations", JArr (map marshal_conf (c :: r)))].
Proof. reflexivity. Qed.

Lemma decode_encode_configfile (cfg : ConfigFile) :
  Forall (fun c => conf_valid c = true) cfg ->
  decode_configfile (decode_text (jcoerce (marshal_configfile cfg))) = Some cfg.
Proof.
  intros Hv. destruct cfg as [|c0 r]; [reflexivity|].
  rewrite marshal_configfile_cons. revert Hv. generalize (c0 :: r). intros cfg Hv.
  unfold decode_text.
  assert (Hm : map jcoerce (map marshal_conf cfg) = map marshal_conf cfg).
  { induction Hv as [|c cfg Hc _ IH]; [reflexivity|].
    cbn [map]. rewrite jcoerce_marshal_conf, IH by exact Hc. reflexivity. }
  cbn [jcoerce map fst snd]. rewrite Hm.
  cbn [jcoerce map fst snd]. rewrite Hm.
  rewrite (coerce_valid "configurations") by reflexivity.
  simpl. rewrite decode_marshal_configs. reflexivity.
Qed.

Lemma loadConfig_present w cls m v :
  exe_ok w = true -> store w = FPresent cls m (Wellformed v) ->
  loadConfig w = (w, if can_read (root w) (store w)
                     then match decode_configfile (decode_text v) with
                          | Some cfg => Ok cfg
                          | None => Err ErrParseConfig
                          end
                     else Err ErrReadConfig).
Proof.
  intros He Hs. unfold loadConfig, getConfigPath, bind, get, ret, throw.
  cbv beta iota. rewrite He. cbv beta iota. rewrite Hs.
  destruct (can_read _ _); [|reflexivity].
  destruct (decode_configfile (decode_text v)); reflexivity.
Qed.

Lemma write_file_content su f cc um perm c f' :
  write_file su f cc um perm c = Some f' -> exists cls m, f' = FPresent cls m c.
Proof.
  unfold write_file. destruct f; [destruct cc| |destruct (can_write _ _)]; intros H;
    try discriminate; injection H as <-; eexists; eexists; reflexivity.
Qed.

(** C9.  A save that succeeds followed by a load gives back the same
    list of profiles, in the same order, provided every name, endpoint
    and secret is valid UTF-8 (encoding/json replaces each invalid byte
    by U+FFFD on the way out) and the saved store file may be read; when
    it may not, the load fails with a read error. *)
Theorem C9_save_load_roundtrip (cfg : ConfigFile) (w w' : World) :
  Forall (fun c => conf_valid c = true) cfg ->
  saveConfig cfg w = (w', Ok tt) ->
  loadConfig w' = (w', if can_read (root w') (store w') then Ok cfg else Err ErrReadConfig).
Proof.
  intros Hv Hs. apply saveConfig_ok in Hs as [Hexe [f [Hw ->]]].
  apply write_file_content in Hw as [cls [m ->]].
  rewrite (loadConfig_present (set_store w (FPresent cls m (encode (marshal_configfile cfg)))) cls m
             (jcoerce (marshal_configfile cfg)) Hexe eq_refl).
  rewrite decode_encode_configfile by exact Hv. reflexivity.
Qed.

Lemma C9_witness :
  loadConfig (run (saveConfig two_profiles) fresh_linux)
  = (run (saveConfig two_profiles) fresh_linux, Ok two_profiles).
Proof.
  apply (C9_save_load_roundtrip two_profiles fresh_linux).
  - repeat constructor.
  - vm_compute. reflexivity.
Defined.

(** C9.  A name that is not UTF-8 (the single byte 0xFF) does not
    survive: after saving on a fresh Linux machine, loading gives the
    name U+FFFD instead.  And under umask 0477 the save succeeds but
    creates the store with mode 0200 (decimal 128), which its owner may
    not read, so the load fails. *)
Lemma C9_counterexample :
  outcome loadConfig
    (run (saveConfig [mkConf byte_ff "https://x.test" "12345678" true]) fresh_linux)
  = Ok [mkConf replacement "https://x.test" "12345678" true] /\
  replacement <> byte_ff /\
  outcome (saveConfig two_profiles) (fresh_linux_umask 319) = Ok tt /\
  mode_of (store (run (saveConfig two_profiles) (fresh_linux_umask 319))) = Some 128%Z /\
  outcome loadConfig (run (saveConfig two_profiles) (fresh_linux_umask 319)) = Err ErrReadConfig.
Proof.
  split; [vm_compute; reflexivity | split; [discriminate | vm_compute; auto]].
Qed.

(* ------------------------------------------------------------------ *)
(** ** Errors of the collection logic *)

(** Case analysis on every match of an action run on a world, until the
    hypothesis compares two final results. *)
Ltac split_run H :=
  cbv beta iota in H;
  repeat (match type of H with
          | context [match ?x with _ => _ end] =>
              lazymatch x with
              | context [match _ with _ => _ end] => fail
              | _ => let E := fresh "E" in destruct x eqn:E
              end
          end; cbv beta iota zeta in H).

Ltac close_run H :=
  first [ discriminate H | injection H as _ <-; reflexivity
        | injection H as <-; reflexivity ].

Lemma saveConfig_nd (cfg : ConfigFile) : no_domain_errors (saveConfig cfg).
Proof.
  intros w w' e H. unfold saveConfig, getConfigPath, bind, get, ret, throw, put in H.
  split_run H; close_run H.
Qed.

Lemma loadConfig_nd : no_domain_errors loadConfig.
Proof.
  intros w w' e H. unfold loadConfig, getConfigPath, bind, get, ret, throw, try_ in H.
  split_run H; close_run H.
Qed.

Lemma setWindows_nd conf : no_domain_errors (setWindowsEnvironmentVariables conf).
Proof.
  intros w w' e H. unfold setWindowsEnvironmentVariables, bind, get, put in H.
  discriminate H.
Qed.

Lemma read_settings_err su f e : read_settings su f = Err e -> e = ErrReadSettings.
Proof.
  unfold read_settings. intros H.
  repeat case_match; simplify_eq; reflexivity.
Qed.

Lemma write_settings_nd conf : no_domain_errors (write_settings conf).
Proof.
  intros w w' e H. unfold write_settings, bind, get, put, throw, lift in H.
  cbv beta iota in H.
  destruct (read_settings (root w) (settings w)) as [s0|e0] eqn:Hr; cbv beta iota in H.
  - destruct (write_file _ _ _ _ _ _); cbv beta iota in H; close_run H.
  - injection H as _ <-. apply read_settings_err in Hr as ->. reflexivity.
Qed.

Lemma setUnix_nd conf : no_domain_errors (setUnixSettingsFile conf).
Proof.
  intros w w' e H. unfold setUnixSettingsFile, bind, get, put, throw in H.
  cbv beta iota in H.
  destruct (home_ok w); cbv beta iota delta [negb] in H; [|close_run H].
  destruct (MkdirAll_claude w) as [w1|]; cbv beta iota in H; [|close_run H].
  exact (write_settings_nd conf w1 w' e H).
Qed.

Lemma loadConfig_keeps_world w : store w <> FMissing -> run loadConfig w = w.
Proof.
  intros Hs. unfold run, loadConfig, getConfigPath, bind, get, ret, throw.
  cbv beta iota. destruct (exe_ok w); cbv beta iota; [|reflexivity].
  destruct (store w) as [| |? ? c]; [contradiction| reflexivity |].
  destruct (negb _); [reflexivity|].
  destruct c; [reflexivity|]. destruct (decode_configfile _); reflexivity.
Qed.

(** A command of the form load, then a check of the collection logic,
    then actions that raise no error of the collection logic: an error of
    the collection logic leaves the world as the load left it. *)
Lemma load_core_step {A B} (core : ConfigFile -> result A) (rest : A -> M B) w w' e :
  (forall a, no_domain_errors (rest a)) -> domain_error e = true ->
  (config <- loadConfig ;; x <- lift (core config) ;; rest x) w = (w', Err e) ->
  w' = run loadConfig w.
Proof.
  intros Hrest Hd H. unfold bind, lift, run in *.
  destruct (loadConfig w) as [w1 [cfg|e1]] eqn:Hl.
  - destruct (core cfg) as [a|e2].
    + apply Hrest in H. congruence.
    + injection H as <- _. reflexivity.
  - injection H as <- <-. apply loadConfig_nd in Hl. congruence.
Qed.

Lemma activate_rest_nd :
  forall p : ConfigFile * Configuration,
    no_domain_errors (let '(config', conf) := p in
                      _ <- saveConfig config' ;;
                      w <- get ;;
                      match goos w with
                      | Windows => setWindowsEnvironmentVariables conf
                      | Linux | Darwin => setUnixSettingsFile conf
                      | OtherOS _ => ret tt
                      end).
Proof.
  intros [config' conf] w w' e H. unfold bind, get in H.
  destruct (saveConfig config' w) as [w1 [[]|e1]] eqn:Hs.
  - destruct (goos w1).
    + eapply setWindows_nd; exact H.
    + eapply setUnix_nd; exact H.
    + eapply setUnix_nd; exact H.
    + discriminate H.
  - injection H as _ <-. eapply saveConfig_nd; exact Hs.
Qed.

(** C3.  An add, update, delete or activate that fails with
    DuplicateName, NotFound or ActiveProfileDeletion ends in the world
    that loadConfig produced: nothing is saved after the check.  When the
    store file already exists that world is the initial one, so the store
    is untouched; when it is missing, loadConfig may already have written
    an auto-imported profile (see C3_counterexample).  A delete of a
    profile whose first match is active fails with ActiveProfileDeletion
    in the world loadConfig left. *)
Theorem C3_domain_errors_after_load (n u k : string) :
  (forall w w' e, domain_error e = true ->
     (addConfiguration n u k w = (w', Err e) \/ updateConfiguration n u k w = (w', Err e) \/
      deleteConfiguration n w = (w', Err e) \/ activateConfiguration n w = (w', Err e)) ->
     w' = run loadConfig w /\ (store w <> FMissing -> w' = w)) /\
  (forall w w1 cfg i c, loadConfig w = (w1, Ok cfg) -> findConfiguration cfg n = Some (i, c) ->
     Active c = true -> deleteConfiguration n w = (w1, Err ErrActiveDeletion)).
Proof.
  split.
  - intros w w' e Hd Hops.
    assert (Hw : w' = run loadConfig w).
    { destruct Hops as [H|[H|[H|H]]].
      - exact (load_core_step (fun config => add_core config n u k) saveConfig
                 w w' e saveConfig_nd Hd H).
      - exact (load_core_step (fun config => update_core config n u k) saveConfig
                 w w' e saveConfig_nd Hd H).
      - exact (load_core_step (fun config => delete_core config n) saveConfig
                 w w' e saveConfig_nd Hd H).
      - exact (load_core_step (fun config => activate_core config n) _
                 w w' e activate_rest_nd Hd H). }
    split; [exact Hw|]. intros Hs. rewrite Hw. apply loadConfig_keeps_world, Hs.
  - intros w w1 cfg i c Hl Hf Ha.
    unfold deleteConfiguration, bind, lift. rewrite Hl.
    unfold delete_core. rewrite Hf, Ha. reflexivity.
Qed.

Lemma C3_witness :
  deleteConfiguration "a" world_one_profile = (world_one_profile, Err ErrActiveDeletion).
Proof.
  apply (proj2 (C3_domain_errors_after_load "a" "" "") world_one_profile world_one_profile
           [mkConf "a" "https://x.test" "12345678" true] 0 (mkConf "a" "https://x.test" "12345678" true)).
  - vm_compute. reflexivity.
  - reflexivity.
  - reflexivity.
Defined.

(** C3.  On a Linux machine with no store file and a settings.json from
    which a profile "anthropic" is imported, "ccc add anthropic" fails
    with DuplicateName, and yet the store file, absent before, now
    exists. *)
Lemma C3_counterexample :
  store (linux_with importable_settings) = FMissing /\
  outcome (addConfiguration "anthropic" "https://x.test" "12345678") (linux_with importable_settings)
    = Err ErrDuplicateName /\
  store (run (addConfiguration "anthropic" "https://x.test" "12345678") (linux_with importable_settings))
    <> FMissing.
Proof.
  split; [reflexivity|split].
  - vm_compute. reflexivity.
  - vm_compute. intros H. discriminate H.
Qed.

(* ------------------------------------------------------------------ *)
(** ** The settings file *)

Lemma update_env_spec (e0 : gmap string gvalue) conf :
  let env' := update_env (mkSettings (Some e0)) conf in
  env' !! "ANTHROPIC_AUTH_TOKEN" = Some (GString (APIKey conf)) /\
  env' !! "ANTHROPIC_BASE_URL" = Some (GString (BaseURL conf)) /\
  env' !! "API_TIMEOUT_MS" = Some (default (GString "3000000") (e0 !! "API_TIMEOUT_MS")) /\
  env' !! "CLAUDE_CODE_DISABLE_NONESSENTIAL_TRAFFIC"
    = Some (default (GInt 1) (e0 !! "CLAUDE_CODE_DISABLE_NONESSENTIAL_TRAFFIC")) /\
  (forall k, k <> "ANTHROPIC_AUTH_TOKEN" -> k <> "ANTHROPIC_BASE_URL" -> k <> "API_TIMEOUT_MS" ->
     k <> "CLAUDE_CODE_DISABLE_NONESSENTIAL_TRAFFIC" -> env' !! k = e0 !! k).
Proof.
  intros env'. unfold env', update_env. cbn [Env].
  destruct (e0 !! "API_TIMEOUT_MS") eqn:T1;
    destruct (e0 !! "CLAUDE_CODE_DISABLE_NONESSENTIAL_TRAFFIC") eqn:T2;
    simplify_map_eq; repeat split; intros; simplify_map_eq; reflexivity.
Qed.

Lemma update_env_env_of s conf :
  update_env s conf = update_env (mkSettings (Some (env_of s))) conf.
Proof. destruct s as [[e|]]; reflexivity. Qed.

(** setUnixSettingsFile when ~/.claude exists: write_settings. *)
Lemma setUnix_dir_present conf w b :
  home_ok w = true -> claude_dir w = DirPresent b -> setUnixSettingsFile conf w = write_settings conf w.
Proof.
  intros Hh Hd. unfold setUnixSettingsFile, MkdirAll_claude, bind, get, put, throw.
  cbv beta iota. rewrite Hh. cbv beta iota delta [negb]. rewrite Hd. reflexivity.
Qed.

Lemma write_settings_eval conf w s0 :
  read_settings (root w) (settings w) = Ok s0 ->
  write_settings conf w
  = match write_file (root w) (settings w) (dir_can_create (claude_dir w)) (umask w) 420
            (encode (marshal_settings (mkSettings (Some (update_env s0 conf))))) with
    | Some f => (set_settings w f, Ok tt)
    | None => (w, Err ErrWriteSettings)
    end.
Proof.
  intros Hr. unfold write_settings, bind, get, put, throw, lift.
  cbv beta iota. rewrite Hr. cbv beta iota zeta.
  destruct (write_file _ _ _ _ _ _); reflexivity.
Qed.

Lemma write_settings_read_err conf w e :
  read_settings (root w) (settings w) = Err e -> write_settings conf w = (w, Err e).
Proof.
  intros Hr. unfold write_settings, bind, get, lift. cbv beta iota. rewrite Hr. reflexivity.
Qed.

(** setUnixSettingsFile when ~/.claude exists and settings.json could be
    read. *)
Lemma setUnix_present conf w b s0 :
  home_ok w = true -> claude_dir w = DirPresent b ->
  read_settings (root w) (settings w) = Ok s0 ->
  setUnixSettingsFile conf w
  = match write_file (root w) (settings w) b (umask w) 420
            (encode (marshal_settings (mkSettings (Some (update_env s0 conf))))) with
    | Some f => (set_settings w f, Ok tt)
    | None => (w, Err ErrWriteSettings)
    end.
Proof.
  intros Hh Hd Hr. rewrite (setUnix_dir_present conf w b Hh Hd), (write_settings_eval conf w s0 Hr).
  rewrite Hd. reflexivity.
Qed.

(** C2.  When settings.json exists and can be read, activation on Linux
    or macOS fails with a write error if the file may not be written
    (mode 0444 for a user other than root, say), and otherwise rewrites
    it in place (same owner and mode) as the single top-level key "env",
    holding the env map Go decoded from it (empty when env is missing or
    null; the default skeleton when the file does not parse, a number of
    env being out of float64 range included) with ANTHROPIC_AUTH_TOKEN
    and ANTHROPIC_BASE_URL set to the profile's secret and endpoint,
    API_TIMEOUT_MS and CLAUDE_CODE_DISABLE_NONESSENTIAL_TRAFFIC set only
    where absent, and every other decoded entry unchanged.  Decoded
    numbers are float64 values, written back in their shortest form, and
    top-level keys other than "env" are not written back (see
    C2_counterexample). *)
Theorem C2_settings_rewrite (conf : Configuration) (w : World) (b : bool) (cls : perm_class)
    (m : Z) (c : FileContent) (s0 : ClaudeSettings) :
  home_ok w = true -> claude_dir w = DirPresent b -> settings w = FPresent cls m c ->
  read_settings (root w) (settings w) = Ok s0 ->
  (can_write (root w) (settings w) = false ->
     setUnixSettingsFile conf w = (w, Err ErrWriteSettings)) /\
  (can_write (root w) (settings w) = true ->
   exists env',
    setUnixSettingsFile conf w
      = (set_settings w (FPresent cls m (encode (marshal_settings (mkSettings (Some env'))))), Ok tt) /\
    env' !! "ANTHROPIC_AUTH_TOKEN" = Some (GString (APIKey conf)) /\
    env' !! "ANTHROPIC_BASE_URL" = Some (GString (BaseURL conf)) /\
    env' !! "API_TIMEOUT_MS" = Some (default (GString "3000000") (env_of s0 !! "API_TIMEOUT_MS")) /\
    env' !! "CLAUDE_CODE_DISABLE_NONESSENTIAL_TRAFFIC"
      = Some (default (GInt 1) (env_of s0 !! "CLAUDE_CODE_DISABLE_NONESSENTIAL_TRAFFIC")) /\
    (forall k, k <> "ANTHROPIC_AUTH_TOKEN" -> k <> "ANTHROPIC_BASE_URL" -> k <> "API_TIMEOUT_MS" ->
       k <> "CLAUDE_CODE_DISABLE_NONESSENTIAL_TRAFFIC" -> env' !! k = env_of s0 !! k)).
Proof.
  intros Hh Hd Hs Hr. rewrite (setUnix_present conf w b s0 Hh Hd Hr).
  unfold write_file. rewrite Hs. rewrite <- Hs. split.
  - intros Hw. rewrite Hw. reflexivity.
  - intros Hw. rewrite Hw. exists (update_env s0 conf). split; [reflexivity|].
    rewrite update_env_env_of. apply update_env_spec.
Qed.

Lemma C2_witness :
  exists env',
    setUnixSettingsFile sample_conf (linux_with settings_with_model)
      = (set_settings (linux_with settings_with_model)
           (FPresent Owner 420 (encode (marshal_settings (mkSettings (Some env'))))), Ok tt) /\
    env' !! "ANTHROPIC_MODEL" = Some (GString "claude-x").
Proof.
  destruct (proj2 (C2_settings_rewrite sample_conf (linux_with settings_with_model) true Owner 420
              (Wellformed (JObj [("env", JObj [("ANTHROPIC_MODEL", JStr "claude-x")]);
                                 ("model", JStr "opus")]))
              (match read_settings false settings_with_model with
               | Ok s => s | Err _ => NewClaudeSettings end)
              eq_refl eq_refl eq_refl ltac:(vm_compute; reflexivity)) eq_refl)
    as (env' & Heq & _ & _ & _ & _ & Hk).
  exists env'. split; [exact Heq|].
  rewrite Hk by discriminate. vm_compute. reflexivity.
Defined.

(** C2.  A settings.json with the top-level key "model" next to "env"
    loses "model" when a profile is activated on Linux; an integer
    12345678901234567891 in env comes back as 12345678901234567000
    (the nearest float64); a number 1e400 in env makes the file
    unparseable, so env is replaced by the skeleton and its entry
    ANTHROPIC_MODEL is lost; and a settings.json of mode 0444 makes the
    activation fail. *)
Lemma C2_counterexample :
  top_keys (settings (linux_with settings_with_model)) = ["env"; "model"] /\
  outcome (setUnixSettingsFile sample_conf) (linux_with settings_with_model) = Ok tt /\
  top_keys (settings (run (setUnixSettingsFile sample_conf) (linux_with settings_with_model)))
    = ["env"] /\
  file_env_entry (settings (linux_with settings_big_number)) "MAX_TOKENS"
    = Some (JNum (mkDecimal false 12345678901234567891 0)) /\
  file_env_entry (settings (run (setUnixSettingsFile sample_conf) (linux_with settings_big_number)))
      "MAX_TOKENS"
    = Some (JNum (mkDecimal false 12345678901234567 3)) /\
  file_env_entry (settings (linux_with settings_overflow)) "ANTHROPIC_MODEL"
    = Some (JStr "claude-x") /\
  outcome (setUnixSettingsFile sample_conf) (linux_with settings_overflow) = Ok tt /\
  file_env_entry (settings (run (setUnixSettingsFile sample_conf) (linux_with settings_overflow)))
      "ANTHROPIC_MODEL" = None /\
  outcome (setUnixSettingsFile sample_conf) (linux_with settings_read_only) = Err ErrWriteSettings.
Proof.
  repeat split; vm_compute; reflexivity.
Qed.

(* ================================================================== *)
(** * Further properties of the code *)

(** ** findConfiguration, updateConfiguration, deleteConfiguration *)

(** findConfiguration returns the first configuration with the name, and
    nothing when no configuration has it. *)
Theorem findConfiguration_first (l : ConfigFile) (n : string) :
  match findConfiguration l n with
  | Some (i, c) =>
      l !! i = Some c /\ Name c = n /\
      (forall j d, (j < i)%nat -> l !! j = Some d -> Name d <> n)
  | None => forall d, In d l -> Name d <> n
  end.
Proof.
  induction l as [|a l IH]; simpl; [tauto|].
  destruct (String.eqb_spec (Name a) n) as [E|E].
  - split; [reflexivity|split; [exact E|]]. intros j d Hj. lia.
  - destruct (findConfiguration l n) as [[i c]|]; simpl.
    + destruct IH as (H1 & H2 & H3). split; [exact H1|split; [exact H2|]].
      intros [|j] d Hj Hd; simpl in Hd.
      * injection Hd as <-. exact E.
      * apply (H3 j d); [lia|exact Hd].
    + intros d [<-|Hd]; [exact E|]. apply IH, Hd.
Qed.

(** The configuration updateConfiguration writes back at index i. *)
Lemma update_core_found (config : ConfigFile) n u k i c :
  findConfiguration config n = Some (i, c) ->
  update_core config n u k
  = Ok (<[i := mkConf (Name c) (if String.eqb u "" then BaseURL c else u)
                      (if String.eqb k "" then APIKey c else k) (Active c)]> config).
Proof.
  intros Hf. unfold update_core. rewrite Hf. cbv zeta.
  destruct (String.eqb u ""), (String.eqb k ""); destruct c; reflexivity.
Qed.

(** updateConfiguration: an unknown name is NotFound; otherwise the first
    configuration with the name gets the new base URL and API key, each
    only when the flag is non-empty, and nothing else changes: every name
    and every active flag stays, and the length stays.  With both flags
    empty the collection is saved unchanged. *)
Theorem update_core_spec (config : ConfigFile) (n u k : string) :
  (~ In n (map Name config) -> update_core config n u k = Err ErrNotFound) /\
  (forall i c, findConfiguration config n = Some (i, c) ->
     update_core config n u k
     = Ok (<[i := mkConf (Name c) (if String.eqb u "" then BaseURL c else u)
                         (if String.eqb k "" then APIKey c else k) (Active c)]> config)) /\
  (forall config', update_core config n u k = Ok config' ->
     map Name config' = map Name config /\ map Active config' = map Active config /\
     length config' = length config /\
     (u = "" -> k = "" -> config' = config)).
Proof.
  split; [|split].
  - intros Hn. apply findConfiguration_None in Hn. unfold update_core. rewrite Hn. reflexivity.
  - apply update_core_found.
  - intros config' H.
    destruct (findConfiguration config n) as [[i c]|] eqn:Hf;
      [|unfold update_core in H; rewrite Hf in H; discriminate].
    rewrite (update_core_found _ _ u k _ _ Hf) in H. injection H as <-.
    apply findConfiguration_Some in Hf as [Hi _].
    split; [|split; [|split]].
    + apply (map_insert_same Name config i c); [exact Hi | reflexivity].
    + apply (map_insert_same Active config i c); [exact Hi | reflexivity].
    + apply length_insert.
    + intros -> ->. simpl. apply list_insert_id. rewrite Hi. destruct c; reflexivity.
Qed.

Lemma update_core_spec_witness :
  (exists config', update_core two_profiles "b" "https://new.test" "" = Ok config' /\
                   map Active config' = [true; false]) /\
  update_core two_profiles "c" "" "" = Err ErrNotFound.
Proof.
  destruct (update_core_spec two_profiles "b" "https://new.test" "") as [_ [_ H3]].
  destruct (update_core_spec two_profiles "c" "" "") as [H1 _].
  split.
  - eexists. split; [reflexivity|].
    rewrite (proj1 (proj2 (H3 _ eq_refl))). reflexivity.
  - apply H1. vm_compute. intros [H|[H|H]]; discriminate || contradiction.
Defined.

Lemma filter_name_single (l : ConfigFile) n c :
  unique_names l -> In c l -> Name c = n ->
  List.filter (fun d => String.eqb (Name d) n) l = [c].
Proof.
  unfold unique_names. induction l as [|a l IH]; intros Hnd Hin Hn; [contradiction|].
  inversion Hnd as [|? ? Hnin Hnd']; subst. simpl.
  destruct Hin as [<-|Hin].
  - rewrite String.eqb_refl. rewrite filter_name_nil; [reflexivity|].
    intros Hi. apply Hnin, list_elem_of_In, Hi.
  - destruct (String.eqb_spec (Name a) (Name c)) as [E|E].
    + exfalso. apply Hnin, list_elem_of_In. rewrite E. apply in_map, Hin.
    + apply IH; auto.
Qed.

Lemma count_active_split (l : ConfigFile) p :
  count_active l
  = (count_active (List.filter p l) + count_active (List.filter (fun d => negb (p d)) l))%nat.
Proof.
  unfold count_active. induction l as [|a l IH]; simpl; [reflexivity|].
  destruct (p a), (Active a) eqn:Ea; simpl; rewrite ?Ea; simpl; lia.
Qed.

(** deleteConfiguration: an unknown name is NotFound; a successful delete
    removes every configuration with the name and keeps the others in
    their order; with unique names it never removes an active
    configuration, so the number of active configurations stays. *)
Theorem delete_core_spec (config : ConfigFile) (n : string) :
  (~ In n (map Name config) -> delete_core config n = Err ErrNotFound) /\
  (forall config', delete_core config n = Ok config' ->
     config' = List.filter (fun c => negb (String.eqb (Name c) n)) config /\
     ~ In n (map Name config') /\
     (unique_names config -> count_active config' = count_active config)).
Proof.
  split.
  - intros Hn. apply findConfiguration_None in Hn. unfold delete_core. rewrite Hn. reflexivity.
  - intros config' H. unfold delete_core in H.
    destruct (findConfiguration config n) as [[i c]|] eqn:Hf; [|discriminate].
    destruct (Active c) eqn:Ha; [discriminate|]. injection H as <-.
    split; [reflexivity|split].
    + intros Hin. apply in_map_iff in Hin as [d [Ed Hd]].
      apply filter_In in Hd as [_ Hd]. rewrite Ed, String.eqb_refl in Hd. discriminate.
    + intros Hu. apply findConfiguration_Some in Hf as [Hi Hn].
      rewrite (count_active_split config (fun d => String.eqb (Name d) n)).
      rewrite (filter_name_single config n c Hu); [|apply list_elem_of_lookup_2 in Hi; apply list_elem_of_In, Hi|exact Hn].
      unfold count_active at 2. simpl. rewrite Ha. reflexivity.
Qed.

Lemma delete_core_spec_witness :
  delete_core two_profiles "b" = Ok [mkConf "a" "https://a.test" "key-a" true] /\
  count_active [mkConf "a" "https://a.test" "key-a" true] = count_active two_profiles.
Proof.
  destruct (delete_core_spec two_profiles "b") as [_ H].
  assert (Hd : delete_core two_profiles "b" = Ok [mkConf "a" "https://a.test" "key-a" true])
    by reflexivity.
  split; [exact Hd|].
  destruct (H _ Hd) as [_ [_ H3]]. apply H3.
  unfold unique_names. vm_compute. repeat constructor; set_solver.
Defined.

(** ** loadConfig and saveConfig *)

Lemma saveConfig_eval (cfg : ConfigFile) w :
  exe_ok w = true ->
  saveConfig cfg w
  = match write_file (root w) (store w) (exe_dir_writable w) (umask w) 420
            (encode (marshal_configfile cfg)) with
    | Some f => (set_store w f, Ok tt)
    | None => (w, Err ErrWriteConfig)
    end.
Proof.
  intros He. unfold saveConfig, getConfigPath, bind, get, ret, throw, put.
  cbv beta iota. rewrite He. cbv beta iota.
  destruct (write_file _ _ _ _ _ _); reflexivity.
Qed.

(** loadConfig with no store file: without an importable profile it
    returns the empty collection and writes nothing; with one it returns
    that single profile whether or not saving it works, and the store file
    (mode 0644 minus the umask) exists afterwards exactly when the
    directory of the executable is writable. *)
Theorem loadConfig_missing_store (w : World) :
  exe_ok w = true -> store w = FMissing ->
  (imported_config w = None -> loadConfig w = (w, Ok [])) /\
  (forall c, imported_config w = Some c ->
     loadConfig w
     = (if exe_dir_writable w
        then set_store w (FPresent Owner (Z.ldiff 420 (umask w)) (encode (marshal_configfile [c])))
        else w, Ok [c])).
Proof.
  intros He Hs.
  assert (Hl : loadConfig w
               = match imported_config w with
                 | Some c => match saveConfig [c] w with (w', _) => (w', Ok [c]) end
                 | None => (w, Ok [])
                 end).
  { unfold loadConfig, getConfigPath, bind, get, ret, throw, try_, imported_config.
    cbv beta iota. rewrite He. cbv beta iota. rewrite Hs. cbv zeta.
    destruct (match goos w with
              | Windows => importFromWindows w
              | Linux | Darwin => importFromUnixSettings w
              | OtherOS _ => None
              end); [|reflexivity].
    destruct (saveConfig _ w) as [w' r]. reflexivity. }
  split.
  - intros Hi. rewrite Hl, Hi. reflexivity.
  - intros c Hi. rewrite Hl, Hi, saveConfig_eval by exact He.
    unfold write_file. rewrite Hs. destruct (exe_dir_writable w); reflexivity.
Qed.

Lemma loadConfig_missing_store_witness :
  loadConfig fresh_linux = (fresh_linux, Ok []) /\
  outcome loadConfig (linux_with importable_settings)
  = Ok [mkConf "anthropic" "https://api.anthropic.com" "sk-ant-0123456789" true].
Proof.
  split.
  - apply (proj1 (loadConfig_missing_store fresh_linux eq_refl eq_refl)). reflexivity.
  - unfold outcome.
    rewrite (proj2 (loadConfig_missing_store (linux_with importable_settings) eq_refl eq_refl)
               (mkConf "anthropic" "https://api.anthropic.com" "sk-ant-0123456789" true)).
    + reflexivity.
    + vm_compute. reflexivity.
Defined.

(** When os.Executable fails, every command fails with that error and
    changes nothing. *)
Theorem commands_need_executable (w : World) (n u k : string) :
  exe_ok w = false ->
  loadConfig w = (w, Err ErrExecutablePath) /\
  addConfiguration n u k w = (w, Err ErrExecutablePath) /\
  updateConfiguration n u k w = (w, Err ErrExecutablePath) /\
  deleteConfiguration n w = (w, Err ErrExecutablePath) /\
  activateConfiguration n w = (w, Err ErrExecutablePath).
Proof.
  intros He.
  assert (Hl : loadConfig w = (w, Err ErrExecutablePath)).
  { unfold loadConfig, getConfigPath, bind, get, ret, throw.
    cbv beta iota. rewrite He. reflexivity. }
  split; [exact Hl|].
  unfold addConfiguration, updateConfiguration, deleteConfiguration, activateConfiguration.
  repeat split; unfold bind at 1; rewrite Hl; reflexivity.
Qed.

Lemma commands_need_executable_witness :
  activateConfiguration "a"
    (mkWorld Linux false true FMissing true (DirMissing true) FMissing 18 false [] [] true)
  = (mkWorld Linux false true FMissing true (DirMissing true) FMissing 18 false [] [] true,
     Err ErrExecutablePath).
Proof.
  exact (proj2 (proj2 (proj2 (proj2
    (commands_need_executable (mkWorld Linux false true FMissing true (DirMissing true) FMissing 18 false [] [] true)
       "a" "" "" eq_refl))))).
Defined.

(** ** setUnixSettingsFile *)

Lemma update_env_new conf : update_env NewClaudeSettings conf = fresh_env conf.
Proof.
  rewrite update_env_env_of.
  pose proof (update_env_spec (env_of NewClaudeSettings) conf) as H. cbv zeta in H.
  destruct H as (H1 & H2 & H3 & H4 & H5).
  apply map_eq. intros k.
  destruct (String.eqb_spec k "ANTHROPIC_AUTH_TOKEN") as [->|E1]; [rewrite H1; reflexivity|].
  destruct (String.eqb_spec k "ANTHROPIC_BASE_URL") as [->|E2]; [rewrite H2; reflexivity|].
  destruct (String.eqb_spec k "API_TIMEOUT_MS") as [->|E3]; [rewrite H3; reflexivity|].
  destruct (String.eqb_spec k "CLAUDE_CODE_DISABLE_NONESSENTIAL_TRAFFIC") as [->|E4];
    [rewrite H4; reflexivity|].
  rewrite H5 by assumption. unfold fresh_env, env_of. cbn [Env NewClaudeSettings list_to_map foldr fst snd].
  rewrite !lookup_insert_ne by congruence. reflexivity.
Qed.

(** setUnixSettingsFile when ~/.claude is missing and can be made. *)
Lemma setUnix_mkdir conf w :
  home_ok w = true -> claude_dir w = DirMissing true ->
  setUnixSettingsFile conf w
  = write_settings conf
      (set_settings (set_claude_dir w (DirPresent (root w || (Z.testbit (Z.ldiff 493 (umask w)) 7 &&
                                                              Z.testbit (Z.ldiff 493 (umask w)) 6))))
                    FMissing).
Proof.
  intros Hh Hd. unfold setUnixSettingsFile, MkdirAll_claude, bind, get, put, throw.
  cbv beta iota. rewrite Hh. cbv beta iota delta [negb]. rewrite Hd. reflexivity.
Qed.

(** setUnixSettingsFile fails without a change when the home directory is
    unknown or ~/.claude cannot be made.  When ~/.claude is missing it is
    created with mode 0755 minus the umask, and settings.json is created
    in it (mode 0644 minus the umask) with the four keys of the profile
    and the defaults, unless the new directory's mode keeps its owner
    from writing in it (and we are not root): then the directory stays
    and the write fails.  When ~/.claude exists: a missing settings.json
    is created the same way if new files can be made there, and the write
    fails otherwise; a settings.json that exists but cannot be read is a
    read error; one that is not JSON, or whose JSON does not decode into
    the settings structure (a wrong type, or a number of env out of
    float64 range), is overwritten in place with the same four keys when
    it may be written (every other entry is lost), and is a write error
    when it may not. *)
Theorem setUnixSettingsFile_edges (conf : Configuration) (w : World) :
  (home_ok w = false -> setUnixSettingsFile conf w = (w, Err ErrHomeDir)) /\
  (home_ok w = true -> (claude_dir w = DirBlocked \/ claude_dir w = DirMissing false) ->
     setUnixSettingsFile conf w = (w, Err ErrMkdirClaude)) /\
  (home_ok w = true -> claude_dir w = DirMissing true ->
     let dm := Z.ldiff 493 (umask w) in
     let ok := root w || (Z.testbit dm 7 && Z.testbit dm 6) in
     let w1 := set_settings (set_claude_dir w (DirPresent ok)) FMissing in
     setUnixSettingsFile conf w
     = if ok then (set_settings w1 (FPresent Owner (Z.ldiff 420 (umask w)) (fresh_file conf)), Ok tt)
       else (w1, Err ErrWriteSettings)) /\
  (forall b, home_ok w = true -> claude_dir w = DirPresent b -> settings w = FMissing ->
     setUnixSettingsFile conf w
     = if b then (set_settings w (FPresent Owner (Z.ldiff 420 (umask w)) (fresh_file conf)), Ok tt)
       else (w, Err ErrWriteSettings)) /\
  (forall b, home_ok w = true -> claude_dir w = DirPresent b -> settings w <> FMissing ->
     can_read (root w) (settings w) = false ->
     setUnixSettingsFile conf w = (w, Err ErrReadSettings)) /\
  (forall b cls m c, home_ok w = true -> claude_dir w = DirPresent b -> settings w = FPresent cls m c ->
     can_read (root w) (settings w) = true ->
     (c = Malformed \/ exists v, c = Wellformed v /\ decode_settings (decode_text v) = None) ->
     setUnixSettingsFile conf w
     = if can_write (root w) (settings w)
       then (set_settings w (FPresent cls m (fresh_file conf)), Ok tt)
       else (w, Err ErrWriteSettings)).
Proof.
  split; [|split; [|split; [|split; [|split]]]].
  - intros Hh. unfold setUnixSettingsFile, bind, get, throw. cbv beta iota. rewrite Hh. reflexivity.
  - intros Hh Hd. unfold setUnixSettingsFile, MkdirAll_claude, bind, get, throw. cbv beta iota.
    rewrite Hh. cbv beta iota delta [negb]. destruct Hd as [Hd|Hd]; rewrite Hd; reflexivity.
  - intros Hh Hd dm ok w1. rewrite (setUnix_mkdir conf w Hh Hd).
    fold dm. fold ok. fold w1.
    rewrite (write_settings_eval conf w1 NewClaudeSettings) by reflexivity.
    rewrite update_env_new. unfold fresh_file. cbn [w1 settings set_settings claude_dir set_claude_dir
      dir_can_create write_file root umask].
    destruct ok; reflexivity.
  - intros b Hh Hd Hs. rewrite (setUnix_present conf w b NewClaudeSettings Hh Hd);
      [|rewrite Hs; reflexivity].
    rewrite update_env_new, Hs. unfold fresh_file. destruct b; reflexivity.
  - intros b Hh Hd Hs Hr. rewrite (setUnix_dir_present conf w b Hh Hd).
    apply write_settings_read_err. unfold read_settings.
    destruct (settings w) as [| |cls m c]; [contradiction| reflexivity |].
    rewrite Hr. reflexivity.
  - intros b cls m c Hh Hd Hs Hr Hc. rewrite (setUnix_present conf w b NewClaudeSettings Hh Hd).
    + rewrite update_env_new. unfold write_file, fresh_file. rewrite Hs. rewrite <- Hs.
      destruct (can_write _ _); reflexivity.
    + unfold read_settings. rewrite Hs. cbn iota. rewrite <- Hs, Hr. cbv beta iota delta [negb].
      destruct Hc as [->|[v [-> Hv]]]; [reflexivity|]. rewrite Hv. reflexivity.
Qed.

Lemma setUnixSettingsFile_edges_witness :
  setUnixSettingsFile sample_conf fresh_linux
  = (set_settings (set_settings (set_claude_dir fresh_linux (DirPresent true)) FMissing)
       (FPresent Owner 420 (fresh_file sample_conf)), Ok tt) /\
  setUnixSettingsFile sample_conf (linux_with settings_overflow)
  = (set_settings (linux_with settings_overflow) (FPresent Owner 420 (fresh_file sample_conf)), Ok tt).
Proof.
  split.
  - exact (proj1 (proj2 (proj2 (setUnixSettingsFile_edges sample_conf fresh_linux)))
             eq_refl eq_refl).
  - refine (proj2 (proj2 (proj2 (proj2 (proj2 (setUnixSettingsFile_edges sample_conf
             (linux_with settings_overflow)))))) true Owner 420%Z _ eq_refl eq_refl eq_refl eq_refl _).
    right. eexists. split; [reflexivity | vm_compute; reflexivity].
Defined.

(** ** encoding/json output is valid UTF-8 *)

Lemma valid_fuel_enough n m s :
  (String.length s <= n)%nat -> (String.length s <= m)%nat -> valid_fuel n s = valid_fuel m s.
Proof.
  revert m s. induction n as [|n IH]; intros m s Hn Hm.
  - destruct s; simpl in Hn; [destruct m; reflexivity | lia].
  - destruct s as [|c r]; [destruct m; reflexivity|].
    destruct m as [|m]; simpl in Hm; [lia|]. simpl in Hn. cbn [valid_fuel].
    destruct (Nat.ltb (byte_of c) 128); [apply IH; lia|].
    destruct (rune_size (String c r)) as [k|] eqn:Hr; [|reflexivity].
    pose proof (rune_size_ge _ _ Hr). apply IH; rewrite length_str_drop; simpl; lia.
Qed.

Lemma rune_size_lead c r k : rune_size (String c r) = Some k -> Nat.ltb (byte_of c) 128 = false.
Proof.
  unfold rune_size, in_range. intros H. apply Nat.ltb_ge.
  destruct r as [|c1 r]; [discriminate|].
  destruct (Nat.leb 194 (byte_of c)) eqn:E1; [apply Nat.leb_le in E1; lia|].
  destruct (Nat.leb 224 (byte_of c)) eqn:E2; [apply Nat.leb_le in E2; lia|].
  destruct (Nat.leb 240 (byte_of c)) eqn:E3; [apply Nat.leb_le in E3; lia|].
  simpl in H. discriminate.
Qed.

Lemma rune_size_len s k : rune_size s = Some k -> (k <= String.length s)%nat.
Proof.
  unfold rune_size. intros H. repeat case_match; simplify_eq; simpl; lia.
Qed.

Lemma append_cons c s t : String.append (String c s) t = String c (String.append s t).
Proof. reflexivity. Qed.

Lemma append_nil t : String.append EmptyString t = t.
Proof. reflexivity. Qed.

Lemma rune_size_take_app s k t :
  rune_size s = Some k -> rune_size (String.append (str_take k s) t) = Some k.
Proof.
  unfold rune_size at 1. intros H.
  destruct s as [|c0 [|c1 rest]]; try discriminate.
  destruct (in_range 194 223 c0) eqn:E1.
  - destruct (is_cont c1) eqn:E2; [|discriminate]. injection H as <-.
    change (str_take 2 (String c0 (String c1 rest))) with (String c0 (String c1 EmptyString)).
    rewrite !append_cons, append_nil. unfold rune_size. rewrite E1, E2. reflexivity.
  - destruct (in_range 224 239 c0) eqn:E3.
    + destruct rest as [|c2 r]; [discriminate|].
      destruct (_ && is_cont c2) eqn:E4; [|discriminate]. injection H as <-.
      change (str_take 3 (String c0 (String c1 (String c2 r))))
        with (String c0 (String c1 (String c2 EmptyString))).
      rewrite !append_cons, append_nil. unfold rune_size. rewrite E1, E3. cbv zeta in E4 |- *.
      rewrite E4. reflexivity.
    + destruct (in_range 240 244 c0) eqn:E5; [|discriminate].
      destruct rest as [|c2 [|c3 r]]; try discriminate.
      destruct (_ && is_cont c2 && is_cont c3) eqn:E6; [|discriminate]. injection H as <-.
      change (str_take 4 (String c0 (String c1 (String c2 (String c3 r)))))
        with (String c0 (String c1 (String c2 (String c3 EmptyString)))).
      rewrite !append_cons, append_nil. unfold rune_size. rewrite E1, E3, E5. cbv zeta in E6 |- *.
      rewrite E6. reflexivity.
Qed.

Lemma str_drop_app p x : str_drop (String.length p) (String.append p x) = x.
Proof. induction p as [|c p IH]; [reflexivity|]. exact IH. Qed.

Lemma length_str_take k s : (k <= String.length s)%nat -> String.length (str_take k s) = k.
Proof.
  revert s. induction k as [|k IH]; intros [|c s] H; simpl in *; try lia.
  f_equal. apply IH. lia.
Qed.

Lemma length_append p x : String.length (String.append p x) = (String.length p + String.length x)%nat.
Proof. induction p as [|c p IH]; [reflexivity|]. simpl. f_equal. exact IH. Qed.

Lemma valid_utf8_ascii c r :
  Nat.ltb (byte_of c) 128 = true -> valid_utf8 (String c r) = valid_utf8 r.
Proof. intros H. unfold valid_utf8. simpl. rewrite H. reflexivity. Qed.

Lemma valid_utf8_rune_prefix p x k :
  rune_size (String.append p x) = Some k -> String.length p = k ->
  valid_utf8 (String.append p x) = valid_utf8 x.
Proof.
  intros Hr Hl. pose proof (rune_size_ge _ _ Hr) as Hk.
  destruct p as [|c p']; [simpl in Hl; lia|].
  unfold valid_utf8. rewrite append_cons in Hr |- *. cbn [String.length valid_fuel].
  rewrite (rune_size_lead _ _ _ Hr), Hr, <- append_cons, <- Hl, str_drop_app.
  apply valid_fuel_enough; [|lia].
  rewrite length_append. lia.
Qed.

Lemma valid_coerce_fuel n s : (String.length s <= n)%nat -> valid_utf8 (coerce_fuel n s) = true.
Proof.
  revert s. induction n as [|n IH]; intros s Hn.
  - destruct s; simpl in Hn; [reflexivity | lia].
  - destruct s as [|c r]; [reflexivity|]. simpl in Hn. cbn [coerce_fuel].
    destruct (Nat.ltb (byte_of c) 128) eqn:Ha.
    + rewrite valid_utf8_ascii by exact Ha. apply IH. lia.
    + destruct (rune_size (String c r)) as [k|] eqn:Hr.
      * pose proof (rune_size_ge _ _ Hr). pose proof (rune_size_len _ _ Hr).
        rewrite (valid_utf8_rune_prefix _ _ k).
        -- apply IH. rewrite length_str_drop. simpl. lia.
        -- apply rune_size_take_app, Hr.
        -- apply length_str_take. exact H0.
      * rewrite (valid_utf8_rune_prefix replacement _ 3); [| reflexivity | reflexivity].
        apply IH. lia.
Qed.

Lemma valid_coerce s : valid_utf8 (coerce s) = true.
Proof. apply valid_coerce_fuel. lia. Qed.

Lemma jvalid_jcoerce v : jvalid (jcoerce v) = true.
Proof.
  induction v as [| | |s|l IH|l IH] using jvalue_ind'; simpl; try reflexivity.
  - apply valid_coerce.
  - induction IH as [|a l Ha _ IHl]; [reflexivity|]. simpl. rewrite Ha. exact IHl.
  - induction IH as [|a l Ha _ IHl]; [reflexivity|]. simpl. rewrite valid_coerce, Ha. exact IHl.
Qed.

Lemma jcoerce_id v : jvalid v = true -> jcoerce v = v.
Proof.
  induction v as [| | |s|l IH|l IH] using jvalue_ind'; simpl; intros H; try reflexivity.
  - rewrite coerce_valid by exact H. reflexivity.
  - f_equal. induction IH as [|a l Ha _ IHl]; [reflexivity|].
    simpl in H |- *. apply andb_prop in H as [H1 H2]. rewrite Ha, IHl by assumption. reflexivity.
  - f_equal. induction IH as [|[k a] l Ha _ IHl]; [reflexivity|].
    simpl in H, Ha |- *. apply andb_prop in H as [H1 H2]. apply andb_prop in H1 as [Hk Hv].
    rewrite coerce_valid, Ha, IHl by assumption. reflexivity.
Qed.

Lemma jcoerce_idem v : jcoerce (jcoerce v) = jcoerce v.
Proof. apply jcoerce_id, jvalid_jcoerce. Qed.

(** ** Decoded values are valid UTF-8; settings read back as written *)

Lemma foldM_inv {A B} (P : A -> Prop) (Q : B -> Prop) (f : A -> B -> option A) acc l r :
  (forall a x a', P a -> Q x -> f a x = Some a' -> P a') ->
  P acc -> Forall Q l -> foldM f acc l = Some r -> P r.
Proof.
  intros Hf. revert acc. induction l as [|x l IH]; intros acc Ha Hl H; cbn [foldM] in H.
  - injection H as <-. exact Ha.
  - inversion Hl as [|? ? Hx Hl']; subst.
    destruct (f acc x) as [a'|] eqn:E; [|discriminate H]. exact (IH a' (Hf _ _ _ Ha Hx E) Hl' H).
Qed.

Lemma mapM_Forall {A B} (P : A -> Prop) (Q : B -> Prop) (f : A -> option B) l r :
  (forall x y, P x -> f x = Some y -> Q y) -> Forall P l -> mapM f l = Some r -> Forall Q r.
Proof.
  intros Hf Hl. revert r. induction Hl as [|x l Hx _ IH]; intros r H; cbn [mapM] in H.
  - injection H as <-. constructor.
  - destruct (f x) as [y|] eqn:E1, (mapM f l) as [ys|] eqn:E2; try discriminate H.
    injection H as <-. constructor; [exact (Hf _ _ Hx E1) | exact (IH _ eq_refl)].
Qed.

Lemma jvalid_obj l :
  jvalid (JObj l) = true -> Forall (fun kv => valid_utf8 kv.1 = true /\ jvalid kv.2 = true) l.
Proof.
  cbn [jvalid]. intros H. apply Forall_forall. intros kv Hin. apply list_elem_of_In in Hin.
  pose proof (proj1 (forallb_forall _ _) H kv Hin) as Hkv. apply andb_prop in Hkv. exact Hkv.
Qed.

Lemma jvalid_arr l : jvalid (JArr l) = true -> Forall (fun x => jvalid x = true) l.
Proof.
  cbn [jvalid]. intros H. apply Forall_forall. intros x Hin. apply list_elem_of_In in Hin.
  exact (proj1 (forallb_forall _ _) H x Hin).
Qed.

Lemma decode_conf_valid v c : jvalid v = true -> decode_conf v = Some c -> conf_valid c = true.
Proof.
  destruct v as [| | | |l|l]; cbn [decode_conf]; intros Hv H; try discriminate H.
  - injection H as <-. reflexivity.
  - refine (foldM_inv (fun c => conf_valid c = true) _ _ _ _ _ _ _ (jvalid_obj _ Hv) H);
      [|reflexivity].
    intros [n0 u0 k0 b0] [k x] a' Ha [_ Hx] Hf. unfold decode_conf_field in Hf.
    unfold conf_valid in *. cbn [Name BaseURL APIKey fst snd] in *.
    repeat case_match; destruct x; cbn [decode_string decode_bool option_map jvalid] in *;
      simplify_eq; cbn; rewrite ?Bool.andb_true_iff in *; intuition.
Qed.

Lemma decode_configfile_valid v cfg :
  jvalid v = true -> decode_configfile v = Some cfg -> Forall (fun c => conf_valid c = true) cfg.
Proof.
  destruct v as [| | | |l|l]; cbn [decode_configfile]; intros Hv H; try discriminate H.
  - injection H as <-. constructor.
  - refine (foldM_inv (fun cfg => Forall (fun c => conf_valid c = true) cfg) _ _ _ _ _ _ _
              (jvalid_obj _ Hv) H); [|constructor].
    intros a [k x] a' Ha [_ Hx] Hf. cbn [decode_configfile_field fst snd] in *.
    destruct (fold_eqb k "configurations"); [|injection Hf as <-; exact Ha].
    destruct x as [| | | |xs|xs]; cbn [decode_configs] in Hf; try discriminate Hf.
    + injection Hf as <-. constructor.
    + exact (mapM_Forall _ _ _ _ _ decode_conf_valid (jvalid_arr _ Hx) Hf).
Qed.

(** ** float64: what ParseFloat produces, and FormatFloat reads back *)

Section float64_facts.
Local Open Scope Z_scope.

Lemma float_ok_spec f :
  float_ok f = true <->
  (fexp f = -1074 /\ 0 <= fmant f < 2 ^ 53) \/
  (2 ^ 52 <= fmant f < 2 ^ 53 /\ -1074 < fexp f <= 971).
Proof.
  unfold float_ok. rewrite Bool.orb_true_iff, !Bool.andb_true_iff, Z.eqb_eq, !Z.leb_le, !Z.ltb_lt.
  tauto.
Qed.

Lemma round_scaled_ok neg p q f :
  0 <= p -> 0 < q -> round_scaled neg p q = Some f -> float_ok f = true /\ fneg f = neg.
Proof.
  intros Hp Hq. unfold round_scaled. rewrite float_ok_spec.
  set (N := p * 2 ^ 1074 / q). set (r := p * 2 ^ 1074 mod q).
  assert (HN : 0 <= N) by (apply Z.div_pos; [apply Z.mul_nonneg_nonneg; [lia | apply Z.pow_nonneg; lia] | lia]).
  set (shift := Z.max 0 (Z.log2 N - 52)).
  set (m0 := Z.shiftr N shift).
  assert (Hm0 : 0 <= m0 < 2 ^ 53 /\ (0 < shift -> 2 ^ 52 <= m0)).
  { unfold m0, shift. destruct (Z.eq_dec N 0) as [E|E].
    - rewrite E, Z.shiftr_0_l. change (Z.log2 0) with 0. lia.
    - pose proof (Z.log2_spec N ltac:(lia)) as [L1 L2].
      pose proof (Z.log2_nonneg N).
      destruct (Z.le_gt_cases (Z.log2 N - 52) 0) as [C|C].
      + rewrite Z.max_l by lia. rewrite Z.shiftr_0_r. split; [split; [lia|] | lia].
        eapply Z.lt_le_trans; [exact L2|]. apply Z.pow_le_mono_r; lia.
      + rewrite Z.max_r by lia. rewrite Z.shiftr_div_pow2 by lia.
        split; [split|intros _].
        * apply Z.div_pos; [lia | apply Z.pow_pos_nonneg; lia].
        * apply Z.div_lt_upper_bound; [apply Z.pow_pos_nonneg; lia|].
          rewrite <- Z.pow_add_r by lia. replace (Z.log2 N - 52 + 53) with (Z.succ (Z.log2 N)) by lia.
          exact L2.
        * apply Z.div_le_lower_bound; [apply Z.pow_pos_nonneg; lia|].
          rewrite <- Z.pow_add_r by lia. replace (Z.log2 N - 52 + 52) with (Z.log2 N) by lia. exact L1. }
  assert (Hs : 0 <= shift) by lia.
  set (up := if Z.eqb shift 0 then _ else _).
  set (m := if up then m0 + 1 else m0).
  assert (Hm : 0 <= m <= 2 ^ 53 /\ (0 < shift -> 2 ^ 52 <= m)).
  { unfold m. destruct up; lia. }
  destruct (Z.eqb_spec m (2 ^ 53)) as [E|E]; cbv zeta; cbn iota beta;
    match goal with |- context [Z.ltb 971 ?x] => destruct (Z.ltb_spec 971 x) end;
    intros HR; try discriminate HR;
    injection HR as <-; simpl; split; try reflexivity.
  - right. lia.
  - destruct (Z.eq_dec shift 0) as [Z0|Z0].
    + left. split; lia.
    + right. lia.
Qed.

Lemma ParseFloat_ok d f : ParseFloat d = Some f -> float_ok f = true /\ fneg f = dneg d.
Proof.
  unfold ParseFloat. cbv zeta. destruct (Z.leb_spec 0 (dexp d)) as [He|He]; intros H.
  - apply round_scaled_ok in H;
      [exact H | apply Z.mul_nonneg_nonneg; [apply Z.abs_nonneg | apply Z.pow_nonneg; lia] | lia].
  - apply round_scaled_ok in H; [exact H | apply Z.abs_nonneg | apply Z.pow_pos_nonneg; lia].
Qed.

Lemma round_scaled_exact s p q m e :
  0 < q -> float_ok (F64 s m e) = true -> p * 2 ^ 1074 = m * 2 ^ (e + 1074) * q ->
  round_scaled s p q = Some (F64 s m e).
Proof.
  intros Hq Hok Hp. apply float_ok_spec in Hok; simpl in Hok.
  assert (He : 0 <= e + 1074) by lia.
  unfold round_scaled. rewrite Hp.
  rewrite Z.div_mul by lia. rewrite Z.mod_mul by lia.
  assert (Hsh : Z.max 0 (Z.log2 (m * 2 ^ (e + 1074)) - 52) = e + 1074 /\
                Z.shiftr (m * 2 ^ (e + 1074)) (e + 1074) = m /\
                (m * 2 ^ (e + 1074)) mod 2 ^ (e + 1074) = 0).
  { rewrite Z.shiftr_div_pow2 by lia. rewrite Z.div_mul by (apply Z.pow_nonzero; lia).
    rewrite Z.mod_mul by (apply Z.pow_nonzero; lia). split; [|split; reflexivity].
    destruct (Z.lt_ge_cases m (2 ^ 52)) as [Small|Big].
    - assert (Ee : e = -1074) by lia. subst e. simpl (-1074 + 1074). rewrite Z.mul_1_r.
      destruct (Z.eq_dec m 0) as [->|Nz]; [reflexivity|].
      pose proof (Z.log2_spec m ltac:(lia)) as [L1 L2].
      destruct (Z.le_gt_cases (Z.log2 m) 51) as [C|C]; [lia|].
      assert (2 ^ 52 <= 2 ^ Z.log2 m) by (apply Z.pow_le_mono_r; lia). lia.
    - assert (Hl : Z.log2 m = 52) by (apply Z.log2_unique; lia).
      rewrite Z.log2_mul_pow2 by lia. lia. }
  destruct Hsh as [-> [-> Hlow]]. rewrite Hlow.
  assert (Hup : (if Z.eqb (e + 1074) 0 then Z.ltb q (2 * 0) || (Z.eqb (2 * 0) q && Z.odd m)
     else Z.ltb (2 ^ (e + 1074 - 1)) 0 || (Z.eqb 0 (2 ^ (e + 1074 - 1)) &&
            (negb (Z.eqb 0 0) || Z.odd m))) = false).
  { destruct (Z.eqb_spec (e + 1074) 0).
    - destruct (Z.ltb_spec q (2 * 0)); [lia|]. destruct (Z.eqb_spec (2 * 0) q); [lia|]. reflexivity.
    - assert (0 < 2 ^ (e + 1074 - 1)) by (apply Z.pow_pos_nonneg; lia).
      destruct (Z.ltb_spec (2 ^ (e + 1074 - 1)) 0); [lia|].
      destruct (Z.eqb_spec 0 (2 ^ (e + 1074 - 1))); [lia|]. reflexivity. }
  rewrite Hup. destruct (Z.eqb_spec m (2 ^ 53)); [lia|]. cbn iota beta.
  replace (e + 1074 - 1074) with e by lia.
  destruct (Z.ltb_spec 971 e); [lia|]. reflexivity.
Qed.

Lemma ParseFloat_exact f : float_ok f = true -> ParseFloat (exact_decimal f) = Some f.
Proof.
  destruct f as [s m e]. intros Hok. pose proof Hok as Hok'. apply float_ok_spec in Hok'; simpl in Hok'.
  unfold exact_decimal, ParseFloat. simpl fexp. simpl fmant. simpl fneg.
  destruct (Z.leb_spec 0 e) as [He|He]; simpl;
    [| rewrite (proj2 (Z.leb_gt 0 e) He)].
  - rewrite Z.abs_eq by (pose proof (Z.pow_nonneg 2 e); nia).
    apply round_scaled_exact; [lia | exact Hok |].
    rewrite Z.pow_0_r, !Z.mul_1_r. rewrite <- Z.mul_assoc, <- Z.pow_add_r by lia. reflexivity.
  - rewrite Z.abs_eq by (pose proof (Z.pow_nonneg 5 (- e)); nia).
    apply round_scaled_exact; [apply Z.pow_pos_nonneg; lia | exact Hok |].
    replace (2 ^ 1074) with (2 ^ (- e) * 2 ^ (e + 1074))
      by (rewrite <- Z.pow_add_r by lia; f_equal; lia).
    replace (10 ^ (- e)) with (2 ^ (- e) * 5 ^ (- e)) by (rewrite <- Z.pow_mul_l; reflexivity).
    lia.
Qed.

Lemma float_eqb_eq f g : float_eqb f g = true -> f = g.
Proof.
  destruct f as [a b c], g as [a' b' c']. unfold float_eqb. simpl.
  intros H. apply andb_prop in H as [H H3]. apply andb_prop in H as [H1 H2].
  apply Bool.eqb_prop in H1. apply Z.eqb_eq in H2. apply Z.eqb_eq in H3. subst. reflexivity.
Qed.

Lemma reads_as_Parse d f : reads_as d f = true -> ParseFloat d = Some f.
Proof.
  unfold reads_as. destruct (ParseFloat d) as [g|]; [|discriminate].
  intros H. apply float_eqb_eq in H. subst. reflexivity.
Qed.

Lemma shortest_fuel_reads fuel n f x :
  ParseFloat x = Some f -> ParseFloat (shortest_fuel fuel n f x) = Some f.
Proof.
  revert n. induction fuel as [|fuel IH]; intros n Hx; [exact Hx|].
  cbn [shortest_fuel]. cbv zeta.
  destruct (reads_as (mkDecimal _ _ _) f) eqn:Hlo, (reads_as (mkDecimal _ (_ + 1) _) f) eqn:Hhi;
    try (apply reads_as_Parse; assumption).
  - destruct (_ || _); apply reads_as_Parse; assumption.
  - apply IH. exact Hx.
Qed.

Lemma round_scaled_scale s c p q :
  0 < c -> 0 < q -> round_scaled s (c * p) (c * q) = round_scaled s p q.
Proof.
  intros Hc Hq.
  assert (HN : c * p * 2 ^ 1074 / (c * q) = p * 2 ^ 1074 / q).
  { rewrite <- Z.mul_assoc. apply Z.div_mul_cancel_l; lia. }
  assert (Hr : c * p * 2 ^ 1074 mod (c * q) = c * (p * 2 ^ 1074 mod q)).
  { rewrite <- Z.mul_assoc. apply Z.mul_mod_distr_l; lia. }
  unfold round_scaled. rewrite HN, Hr.
  set (r := p * 2 ^ 1074 mod q).
  assert (Hr0 : 0 <= r < q) by (apply Z.mod_pos_bound; lia).
  assert (E1 : Z.ltb (c * q) (2 * (c * r)) = Z.ltb q (2 * r)).
  { destruct (Z.ltb_spec q (2 * r)), (Z.ltb_spec (c * q) (2 * (c * r))); try reflexivity; nia. }
  assert (E2 : Z.eqb (2 * (c * r)) (c * q) = Z.eqb (2 * r) q).
  { destruct (Z.eqb_spec (2 * r) q), (Z.eqb_spec (2 * (c * r)) (c * q)); try reflexivity; nia. }
  assert (E3 : Z.eqb (c * r) 0 = Z.eqb r 0).
  { destruct (Z.eqb_spec r 0), (Z.eqb_spec (c * r) 0); try reflexivity; nia. }
  rewrite E1, E2, E3. reflexivity.
Qed.

Lemma ParseFloat_shift s k e :
  ParseFloat (mkDecimal s (k * 10) e) = ParseFloat (mkDecimal s k (e + 1)).
Proof.
  unfold ParseFloat; simpl. rewrite Z.abs_mul. change (Z.abs 10) with 10.
  set (a := Z.abs k).
  destruct (Z.leb_spec 0 e) as [He|He].
  - rewrite (proj2 (Z.leb_le 0 (e + 1))) by lia. f_equal.
    rewrite Z.pow_add_r by lia. lia.
  - destruct (Z.leb_spec 0 (e + 1)) as [He'|He'].
    + assert (e = -1) by lia. subst e.
      transitivity (round_scaled s (10 * a) (10 * 1)); [f_equal; simpl; lia|].
      rewrite round_scaled_scale by lia. f_equal. simpl. lia.
    + transitivity (round_scaled s (10 * a) (10 * 10 ^ (- (e + 1)))).
      * f_equal; [lia|]. replace (- e) with (1 + - (e + 1)) by lia.
        rewrite Z.pow_add_r by lia. lia.
      * apply round_scaled_scale; [lia | apply Z.pow_pos_nonneg; lia].
Qed.

Lemma ParseFloat_strip_fuel n d : ParseFloat (strip_zeros_fuel n d) = ParseFloat d.
Proof.
  revert d. induction n as [|n IH]; intros [s k e]; [reflexivity|].
  simpl. destruct (negb (Z.eqb k 0) && Z.eqb (k mod 10) 0) eqn:H; [|reflexivity].
  rewrite IH. apply andb_prop in H as [_ H]. apply Z.eqb_eq in H.
  rewrite (Z.div_mod k 10) at 2 by lia. rewrite H, Z.add_0_r, Z.mul_comm.
  symmetry. apply ParseFloat_shift.
Qed.

Lemma ParseFloat_strip d : ParseFloat (strip_zeros d) = ParseFloat d.
Proof. apply ParseFloat_strip_fuel. Qed.

Lemma ParseFloat_FormatFloat f : float_ok f = true -> ParseFloat (FormatFloat f) = Some f.
Proof.
  intros Hok. unfold FormatFloat. destruct (Z.eqb_spec (fmant f) 0) as [E|E].
  - destruct f as [s m e]; simpl in E |- *. subst m.
    apply float_ok_spec in Hok; simpl in Hok.
    assert (e = -1074) by lia. subst e. reflexivity.
  - rewrite ParseFloat_strip. apply shortest_fuel_reads. apply ParseFloat_exact. exact Hok.
Qed.

End float64_facts.

(** ** Byte order on strings *)

Lemma string_compare_refl s : String.compare s s = Eq.
Proof.
  induction s as [|a s IH]; [reflexivity|]. cbn [String.compare].
  unfold Ascii.compare. rewrite N.compare_refl. exact IH.
Qed.

Lemma string_compare_lt_trans s t u :
  String.compare s t = Lt -> String.compare t u = Lt -> String.compare s u = Lt.
Proof.
  revert t u. induction s as [|a s IH]; intros [|b t] [|c u]; cbn [String.compare];
    try discriminate; try reflexivity.
  unfold Ascii.compare.
  destruct (N.compare_spec (N_of_ascii a) (N_of_ascii b)) as [E1|E1|E1];
  destruct (N.compare_spec (N_of_ascii b) (N_of_ascii c)) as [E2|E2|E2]; intros H1 H2;
    try discriminate.
  - rewrite E1, E2, N.compare_refl. exact (IH _ _ H1 H2).
  - rewrite E1. rewrite (proj2 (N.compare_lt_iff _ _) E2). reflexivity.
  - rewrite <- E2. rewrite (proj2 (N.compare_lt_iff _ _) E1). reflexivity.
  - rewrite (proj2 (N.compare_lt_iff _ _)) by lia. reflexivity.
Qed.

Lemma string_ltb_trans s t u :
  String.ltb s t = true -> String.ltb t u = true -> String.ltb s u = true.
Proof.
  unfold String.ltb. destruct (String.compare s t) eqn:E1; try discriminate.
  destruct (String.compare t u) eqn:E2; try discriminate.
  rewrite (string_compare_lt_trans _ _ _ E1 E2). reflexivity.
Qed.

Lemma string_ltb_irrefl s : String.ltb s s = false.
Proof. unfold String.ltb. rewrite string_compare_refl. reflexivity. Qed.

Lemma string_ltb_asym s t : String.ltb s t = true -> String.ltb t s = false.
Proof.
  unfold String.ltb. rewrite (String.compare_antisym t s).
  destruct (String.compare s t); cbn; congruence.
Qed.

Lemma string_ltb_total s t :
  String.eqb s t = false -> String.ltb s t = false -> String.ltb t s = true.
Proof.
  unfold String.ltb. rewrite (String.compare_antisym t s).
  destruct (String.compare s t) eqn:E; cbn; try congruence.
  apply String.compare_eq_iff in E. subst. rewrite String.eqb_refl. discriminate.
Qed.

(** ** Maps kept sorted by key *)

Lemma keys_sorted_cons {A} k (x : A) l :
  keys_sorted ((k, x) :: l) = true <->
  Forall (fun kv => String.ltb k kv.1 = true) l /\ keys_sorted l = true.
Proof.
  revert k x. induction l as [|[k2 x2] r IH]; intros k x.
  - split; [intros _; split; [constructor | reflexivity] | reflexivity].
  - change (keys_sorted ((k, x) :: (k2, x2) :: r)) with (String.ltb k k2 && keys_sorted ((k2, x2) :: r)).
    rewrite Bool.andb_true_iff, IH. split.
    + intros (H1 & H2 & H3). split; [|split; assumption].
      constructor; [exact H1|]. eapply Forall_impl; [exact H2|].
      intros kv Hkv. exact (string_ltb_trans _ _ _ H1 Hkv).
    + intros (H1 & H2 & H3). inversion H1; subst.
      split; [assumption | split; assumption].
Qed.

Lemma map_set_Forall {A} (P : string * A -> Prop) k x l :
  P (k, x) -> Forall P l -> Forall P (map_set k x l).
Proof.
  intros Hx Hl. induction Hl as [|[k' x'] l Hk Hl IH]; cbn [map_set].
  - constructor; [exact Hx | constructor].
  - destruct (String.eqb k k'); [constructor; assumption|].
    destruct (String.ltb k k'); constructor; try assumption. constructor; assumption.
Qed.

Lemma keys_sorted_map_set {A} k (x : A) l :
  keys_sorted l = true -> keys_sorted (map_set k x l) = true.
Proof.
  induction l as [|[k' x'] r IH]; intros Hs; [reflexivity|].
  apply keys_sorted_cons in Hs as [F S]. cbn [map_set].
  destruct (String.eqb_spec k k') as [->|N].
  - apply keys_sorted_cons. split; assumption.
  - destruct (String.ltb k k') eqn:L.
    + apply keys_sorted_cons. split; [|apply keys_sorted_cons; split; assumption].
      constructor; [exact L|]. eapply Forall_impl; [exact F|].
      intros kv Hkv. exact (string_ltb_trans _ _ _ L Hkv).
    + apply keys_sorted_cons. split; [|exact (IH S)].
      apply map_set_Forall; [|exact F].
      apply string_ltb_total; [apply String.eqb_neq; exact N | exact L].
Qed.

Lemma map_set_app {A} k (x : A) l :
  Forall (fun kv => String.ltb kv.1 k = true) l -> map_set k x l = l ++ [(k, x)].
Proof.
  induction 1 as [|[k' x'] l Hk _ IH]; [reflexivity|]. cbn [map_set fst] in *.
  assert (E : String.eqb k k' = false).
  { destruct (String.eqb_spec k k') as [->|]; [rewrite string_ltb_irrefl in Hk; discriminate | reflexivity]. }
  rewrite E, (string_ltb_asym _ _ Hk), IH. reflexivity.
Qed.

(** ** json.Unmarshal into interface{} *)

Lemma to_interface_arr l :
  to_interface (JArr l) = option_map GSlice (mapM to_interface l).
Proof.
  cbn [to_interface]. f_equal. induction l as [|x r IH]; [reflexivity|].
  cbn [mapM]. rewrite <- IH. reflexivity.
Qed.

Lemma to_interface_obj_acc l :
  forall acc,
  (fix go (acc : list (string * gvalue)) (l : list (string * jvalue))
       : option (list (string * gvalue)) :=
     match l with
     | [] => Some acc
     | (k, x) :: r =>
         match to_interface x with
         | Some y => go (map_set k y acc) r
         | None => None
         end
     end) acc l
  = foldM (fun acc kv => option_map (fun y => map_set kv.1 y acc) (to_interface kv.2)) acc l.
Proof.
  induction l as [|[k x] r IH]; intros acc; [reflexivity|].
  cbn [foldM fst snd]. destruct (to_interface x); cbn [option_map]; [apply IH | reflexivity].
Qed.

Lemma to_interface_obj l :
  to_interface (JObj l)
  = option_map GMap
      (foldM (fun acc kv => option_map (fun y => map_set kv.1 y acc) (to_interface kv.2)) [] l).
Proof. cbn [to_interface]. rewrite to_interface_obj_acc. reflexivity. Qed.

Lemma forallb_Forall_iff {A} (f : A -> bool) l : forallb f l = true <-> Forall (fun x => f x = true) l.
Proof. rewrite forallb_forall, Forall_forall. setoid_rewrite <- list_elem_of_In. reflexivity. Qed.

(** What the decoder stores is valid: strings and keys valid UTF-8,
    floats canonical, maps sorted by key. *)
Lemma to_interface_valid v g : jvalid v = true -> to_interface v = Some g -> gvalid g = true.
Proof.
  revert g. induction v as [| | d | s | l IH | l IH] using jvalue_ind'; intros g Hv H.
  - injection H as <-. reflexivity.
  - injection H as <-. reflexivity.
  - cbn [to_interface] in H. destruct (ParseFloat d) as [f|] eqn:E; [|discriminate H].
    injection H as <-. exact (proj1 (ParseFloat_ok _ _ E)).
  - injection H as <-. exact Hv.
  - rewrite to_interface_arr in H. destruct (mapM to_interface l) as [ys|] eqn:E; [|discriminate H].
    injection H as <-. cbn [gvalid]. apply forallb_Forall_iff.
    refine (mapM_Forall (fun x => (forall g, jvalid x = true -> to_interface x = Some g -> gvalid g = true)
                                  /\ jvalid x = true) _ _ _ _ _ _ E).
    + intros x y [Hx1 Hx2] Hxy. exact (Hx1 y Hx2 Hxy).
    + apply Forall_and. split; [exact IH | exact (jvalid_arr _ Hv)].
  - rewrite to_interface_obj in H.
    destruct (foldM _ [] l) as [acc|] eqn:E; [|discriminate H]. injection H as <-.
    cbn [gvalid]. apply andb_true_iff.
    enough (keys_sorted acc = true /\
            Forall (fun kv => valid_utf8 kv.1 = true /\ gvalid kv.2 = true) acc) as [H1 H2].
    { split; [exact H1|]. apply forallb_Forall_iff. eapply Forall_impl; [exact H2|].
      intros kv [Ha Hb]. rewrite Ha, Hb. reflexivity. }
    refine (foldM_inv (fun acc => keys_sorted acc = true /\
              Forall (fun kv => valid_utf8 kv.1 = true /\ gvalid kv.2 = true) acc)
              (fun kv => (forall g, jvalid kv.2 = true -> to_interface kv.2 = Some g -> gvalid g = true)
                         /\ valid_utf8 kv.1 = true /\ jvalid kv.2 = true) _ _ _ _ _ _ _ E).
    + intros a [k x] a' [Ha1 Ha2] (Hx1 & Hk & Hx2) Hf. cbn [fst snd] in *.
      destruct (to_interface x) as [y|] eqn:Ey; [|discriminate Hf]. injection Hf as <-.
      split; [apply keys_sorted_map_set; exact Ha1|].
      apply map_set_Forall; [split; [exact Hk | exact (Hx1 y Hx2 eq_refl)] | exact Ha2].
    + split; [reflexivity | constructor].
    + pose proof (jvalid_obj _ Hv) as Hl. clear E Hv.
      induction l as [|kv l IHl]; [constructor|].
      inversion IH; subst. inversion Hl as [|? ? [Hk Hx] Hl']; subst.
      constructor; [split; [assumption | split; assumption] | apply IHl; assumption].
Qed.

(** ** json.Marshal of an interface{} value, and reading it back *)

Lemma jvalid_marshal_gvalue g : gvalid g = true -> jvalid (marshal_gvalue g) = true.
Proof.
  induction g as [| | | | s | l IH | l IH] using gvalue_ind'; cbn [gvalid marshal_gvalue jvalid];
    intros H; try reflexivity.
  - exact H.
  - apply forallb_Forall_iff in H. apply forallb_Forall_iff, Forall_map.
    apply Forall_forall. intros x Hin. rewrite Forall_forall in IH, H. exact (IH x Hin (H x Hin)).
  - apply andb_prop in H as [_ H]. apply forallb_Forall_iff in H.
    apply forallb_Forall_iff, Forall_map. apply Forall_forall. intros kv Hin.
    rewrite Forall_forall in IH, H. destruct (andb_prop _ _ (H kv Hin)) as [Hk Hx].
    cbn [fst snd]. rewrite Hk, (IH kv Hin Hx). reflexivity.
Qed.

Lemma gnorm_int1 : marshal_gvalue (gnorm (GInt 1)) = marshal_gvalue (GInt 1).
Proof. vm_compute. reflexivity. Qed.

Lemma marshal_gnorm g : gvalid g = true -> marshal_gvalue (gnorm g) = marshal_gvalue g.
Proof.
  induction g as [| | | z | | l IH | l IH] using gvalue_ind'; cbn [gvalid]; intros H; try reflexivity.
  - apply Z.eqb_eq in H. subst z. exact gnorm_int1.
  - apply forallb_Forall_iff in H. cbn [gnorm marshal_gvalue]. rewrite map_map. f_equal.
    apply map_ext_in. intros x Hin. apply list_elem_of_In in Hin.
    rewrite Forall_forall in IH, H. exact (IH x Hin (H x Hin)).
  - apply andb_prop in H as [_ H]. apply forallb_Forall_iff in H.
    cbn [gnorm marshal_gvalue]. rewrite map_map. f_equal.
    apply map_ext_in. intros kv Hin. apply list_elem_of_In in Hin.
    rewrite Forall_forall in IH, H. destruct (andb_prop _ _ (H kv Hin)) as [_ Hx].
    cbn [fst snd]. rewrite (IH kv Hin Hx). reflexivity.
Qed.

Lemma foldM_map_set_sorted (l : list (string * gvalue)) acc :
  Forall (fun a => Forall (fun kv => String.ltb a.1 kv.1 = true) l) acc ->
  keys_sorted l = true ->
  Forall (fun kv => to_interface (marshal_gvalue kv.2) = Some (gnorm kv.2)) l ->
  foldM (fun acc kv => option_map (fun y => map_set kv.1 y acc) (to_interface kv.2)) acc
        (map (fun kv => (kv.1, marshal_gvalue kv.2)) l)
  = Some (acc ++ map (fun kv => (kv.1, gnorm kv.2)) l).
Proof.
  revert acc. induction l as [|[k x] r IH]; intros acc Ha Hs Hl.
  - rewrite app_nil_r. reflexivity.
  - inversion Hl as [|? ? Hx Hr]; subst. cbn [map foldM fst snd] in *. rewrite Hx. cbn [option_map].
    apply keys_sorted_cons in Hs as [F S].
    rewrite map_set_app.
    + rewrite IH; [rewrite <- app_assoc; reflexivity | | exact S | exact Hr].
      apply Forall_app. split.
      * eapply Forall_impl; [exact Ha|]. intros a Ha'. inversion Ha'; assumption.
      * constructor; [exact F | constructor].
    + eapply Forall_impl; [exact Ha|]. intros a Ha'. inversion Ha'; assumption.
Qed.

(** A valid value written by json.Marshal reads back as itself, except
    that the int 1 comes back as the float64 1. *)
Lemma to_interface_marshal g : gvalid g = true -> to_interface (marshal_gvalue g) = Some (gnorm g).
Proof.
  induction g as [| | f | z | | l IH | l IH] using gvalue_ind'; cbn [gvalid]; intros H; try reflexivity.
  - cbn [marshal_gvalue to_interface]. rewrite ParseFloat_FormatFloat by exact H. reflexivity.
  - apply Z.eqb_eq in H. subst z. vm_compute. reflexivity.
  - apply forallb_Forall_iff in H. cbn [marshal_gvalue gnorm]. rewrite to_interface_arr.
    enough (E : mapM to_interface (map marshal_gvalue l) = Some (map gnorm l)) by (rewrite E; reflexivity).
    induction l as [|x r IHr]; [reflexivity|].
    inversion IH; subst. inversion H; subst. cbn [map mapM].
    rewrite IHr by assumption. match goal with Hx : gvalid x = true, Ix : gvalid x = true -> _ |- _ => rewrite (Ix Hx) end.
    reflexivity.
  - apply andb_prop in H as [Hs H]. apply forallb_Forall_iff in H.
    cbn [marshal_gvalue gnorm]. rewrite to_interface_obj.
    rewrite (foldM_map_set_sorted l []); [reflexivity | constructor | exact Hs |].
    apply Forall_forall. intros kv Hin. rewrite Forall_forall in IH, H.
    destruct (andb_prop _ _ (H kv Hin)) as [_ Hx]. exact (IH kv Hin Hx).
Qed.

(** ** Settings read back as written *)

Lemma decode_settings_valid v s : jvalid v = true -> decode_settings v = Some s -> env_valid (env_of s).
Proof.
  destruct v as [| | | |l|l]; cbn [decode_settings]; intros Hv H; try discriminate H.
  - injection H as <-. apply map_Forall_empty.
  - refine (foldM_inv (fun s => env_valid (env_of s)) _ _ _ _ _ _ _ (jvalid_obj _ Hv) H);
      [|apply map_Forall_empty].
    intros a [k x] a' Ha [_ Hx] Hf. cbn [decode_settings_field fst snd] in *.
    destruct (fold_eqb k "env"); [|injection Hf as <-; exact Ha].
    destruct x as [| | | |xs|xs]; cbn [decode_env] in Hf; try discriminate Hf.
    + injection Hf as <-. apply map_Forall_empty.
    + destruct (foldM _ _ xs) as [m|] eqn:E; cbn [option_map] in Hf; [|discriminate Hf].
      injection Hf as <-. unfold env_of. cbn [Env].
      refine (foldM_inv env_valid (fun kv => valid_utf8 kv.1 = true /\ jvalid kv.2 = true)
                _ _ _ _ _ _ (jvalid_obj _ Hx) E); [|exact Ha].
      intros m0 [k' x'] m1 Hm [Hk Hx'] Hf. cbn [fst snd] in *.
      destruct (to_interface x') as [g|] eqn:Eg; [|discriminate Hf]. injection Hf as <-.
      apply map_Forall_insert_2; [split; [exact Hk | exact (to_interface_valid _ _ Hx' Eg)] | exact Hm].
Qed.

Lemma new_settings_valid : env_valid (env_of NewClaudeSettings).
Proof.
  unfold env_of, NewClaudeSettings, env_valid. cbn [Env list_to_map fold_right fst snd].
  repeat (apply map_Forall_insert_2; [split; reflexivity|]). apply map_Forall_empty.
Qed.

Lemma read_settings_valid su f s : read_settings su f = Ok s -> env_valid (env_of s).
Proof.
  unfold read_settings. intros H.
  destruct f as [| |cls m c]; [injection H as <-; apply new_settings_valid | discriminate H |].
  destruct (negb (can_read su _)); [discriminate H|].
  destruct c as [|v]; [injection H as <-; apply new_settings_valid|].
  destruct (decode_settings (decode_text v)) as [s'|] eqn:E; injection H as <-.
  - exact (decode_settings_valid _ _ (jvalid_jcoerce v) E).
  - apply new_settings_valid.
Qed.

Lemma read_settings_access su f s : read_settings su f = Ok s -> f = FMissing \/ can_read su f = true.
Proof.
  unfold read_settings. intros H. destruct f as [| |cls m c]; [left; reflexivity | discriminate H |].
  right. destruct (can_read su _); [reflexivity | discriminate H].
Qed.

Lemma update_env_valid s conf :
  env_valid (env_of s) -> valid_utf8 (BaseURL conf) = true -> valid_utf8 (APIKey conf) = true ->
  env_valid (update_env s conf).
Proof.
  intros Hs Hu Hk. rewrite update_env_env_of. unfold update_env. cbn [Env].
  assert (H1 : env_valid (<["ANTHROPIC_BASE_URL" := GString (BaseURL conf)]>
                 (<["ANTHROPIC_AUTH_TOKEN" := GString (APIKey conf)]> (env_of s)))).
  { apply map_Forall_insert_2; [split; [reflexivity | exact Hu]|].
    apply map_Forall_insert_2; [split; [reflexivity | exact Hk] | exact Hs]. }
  repeat case_match; repeat (apply map_Forall_insert_2; [split; reflexivity|]); exact H1.
Qed.

(** Writing the env map read back from a file written by
    setUnixSettingsFile changes nothing. *)
Lemma update_env_gnorm s conf :
  update_env (mkSettings (Some (gnorm <$> update_env s conf))) conf = gnorm <$> update_env s conf.
Proof.
  rewrite (update_env_env_of s conf). apply map_eq. intros k.
  pose proof (update_env_spec (gnorm <$> update_env (mkSettings (Some (env_of s))) conf) conf) as A.
  pose proof (update_env_spec (env_of s) conf) as B. cbv zeta in A, B.
  destruct A as (A1 & A2 & A3 & A4 & A5), B as (B1 & B2 & B3 & B4 & B5).
  rewrite lookup_fmap.
  destruct (String.eq_dec k "ANTHROPIC_AUTH_TOKEN") as [->|N1]; [rewrite A1, B1; reflexivity|].
  destruct (String.eq_dec k "ANTHROPIC_BASE_URL") as [->|N2]; [rewrite A2, B2; reflexivity|].
  destruct (String.eq_dec k "API_TIMEOUT_MS") as [->|N3];
    [rewrite A3, lookup_fmap, B3; reflexivity|].
  destruct (String.eq_dec k "CLAUDE_CODE_DISABLE_NONESSENTIAL_TRAFFIC") as [->|N4];
    [rewrite A4, lookup_fmap, B4; reflexivity|].
  rewrite (A5 k N1 N2 N3 N4), lookup_fmap. reflexivity.
Qed.

Lemma marshal_env_gnorm m : env_valid m -> marshal_env (gnorm <$> m) = marshal_env m.
Proof.
  intros Hm. unfold marshal_env. rewrite <- map_fmap_compose.
  do 3 f_equal. apply map_fmap_ext. intros k x Hk. unfold compose.
  apply marshal_gnorm. exact (proj2 (Hm k x Hk)).
Qed.

Lemma jvalid_marshal_env m : env_valid m -> jvalid (marshal_env m) = true.
Proof.
  intros H. unfold marshal_env. cbn [jvalid]. apply forallb_forall. intros [k x] Hin.
  apply (Permutation_in _ (merge_sort_Permutation _ _)) in Hin.
  apply list_elem_of_In, elem_of_map_to_list in Hin.
  rewrite lookup_fmap in Hin. destruct (m !! k) as [g|] eqn:Eg; [|discriminate Hin].
  injection Hin as <-. destruct (H k g Eg) as [H1 H2]. cbn [fst snd].
  rewrite H1, (jvalid_marshal_gvalue _ H2). reflexivity.
Qed.

Lemma foldM_insert_ok (L : list (string * jvalue)) (m0 : gmap string gvalue) :
  Forall (fun kv => is_Some (to_interface kv.2)) L ->
  foldM (fun m kv => option_map (fun x => <[kv.1 := x]> m) (to_interface kv.2)) m0 L
  = Some (fold_left (fun m kv => <[kv.1 := default GNil (to_interface kv.2)]> m) L m0).
Proof.
  revert m0. induction L as [|[k x] L IH]; intros m0 HL; [reflexivity|].
  inversion HL as [|? ? [y Hy] HL']; subst. cbn [foldM fold_left fst snd] in *.
  rewrite Hy. cbn [option_map default]. apply IH. exact HL'.
Qed.

Lemma fold_insert_fold_right {A B} (h : A -> B) (L : list (string * A)) (m0 : gmap string B) :
  fold_left (fun m kv => <[kv.1 := h kv.2]> m) L m0
  = fold_right (fun kv m => <[kv.1 := kv.2]> m) m0 (rev ((fun kv => (kv.1, h kv.2)) <$> L)).
Proof.
  revert m0. induction L as [|[k x] L IH]; intros m0; [reflexivity|].
  rewrite fmap_cons. cbn [fold_left rev fst snd]. rewrite IH, fold_right_app. reflexivity.
Qed.

Lemma fmap_ext_Forall {A B} (f g : A -> B) (l : list A) :
  Forall (fun x => f x = g x) l -> f <$> l = g <$> l.
Proof.
  induction 1 as [|x l Hx _ IH]; [reflexivity|]. rewrite !fmap_cons, Hx, IH. reflexivity.
Qed.

Lemma decode_marshal_settings m :
  env_valid m ->
  decode_settings (decode_text (jcoerce (marshal_settings (mkSettings (Some m)))))
  = Some (mkSettings (Some (gnorm <$> m))).
Proof.
  intros Hm.
  assert (Hj : jvalid (marshal_settings (mkSettings (Some m))) = true).
  { unfold marshal_settings. cbn [jvalid forallb Env fst snd].
    rewrite jvalid_marshal_env by exact Hm. reflexivity. }
  unfold decode_text. rewrite !(jcoerce_id _ Hj).
  unfold marshal_settings, marshal_env. cbn [decode_settings foldM decode_settings_field Env fst snd].
  change (fold_eqb "env" "env") with true. cbn [decode_env].
  set (L := merge_sort key_le (map_to_list (marshal_gvalue <$> m))).
  assert (HL : L ≡ₚ prod_map id marshal_gvalue <$> map_to_list m).
  { unfold L. rewrite merge_sort_Permutation, map_to_list_fmap. reflexivity. }
  assert (HF : Forall (fun kv : string * gvalue =>
                 to_interface (marshal_gvalue kv.2) = Some (gnorm kv.2)) (map_to_list m)).
  { apply Forall_forall. intros [k g] Hin. apply elem_of_map_to_list in Hin.
    exact (to_interface_marshal _ (proj2 (Hm k g Hin))). }
  rewrite foldM_insert_ok.
  - cbn [option_map]. do 3 f_equal.
    rewrite (fold_insert_fold_right (fun v => default GNil (to_interface v))). change (fold_right _ ∅ ?l) with (list_to_map l : gmap string gvalue).
    set (h := fun kv : string * jvalue => (kv.1, default GNil (to_interface kv.2))).
    assert (HP : rev (h <$> L) ≡ₚ map_to_list (gnorm <$> m)).
    { rewrite <- Permutation_rev, HL, <- list_fmap_compose, map_to_list_fmap.
      apply reflexive_eq, fmap_ext_Forall. eapply Forall_impl; [exact HF|].
      intros [k g] Hg. unfold compose, h. cbn [prod_map fst snd id] in *. rewrite Hg. reflexivity. }
    assert (HN : NoDup (rev (h <$> L)).*1) by (rewrite HP; apply NoDup_fst_map_to_list).
    rewrite (list_to_map_proper _ _ HN HP).
    apply list_to_map_to_list.
  - apply Forall_forall. intros kv Hin. apply list_elem_of_In in Hin.
    apply (Permutation_in _ HL), list_elem_of_In, list_elem_of_fmap in Hin as [[k g] [-> Hin]].
    apply list_elem_of_In in Hin. rewrite Forall_forall in HF.
    apply list_elem_of_In in Hin. pose proof (HF _ Hin) as Hg. cbn [prod_map fst snd id] in *.
    rewrite Hg. eexists. reflexivity.
Qed.

Lemma read_settings_written su cls md e :
  env_valid e -> can_read su (FPresent cls md Malformed) = true ->
  read_settings su (FPresent cls md (encode (marshal_settings (mkSettings (Some e)))))
  = Ok (mkSettings (Some (gnorm <$> e))).
Proof.
  intros He Hr. unfold read_settings. change (can_read su (FPresent cls md ?c)) with (su || Z.testbit md (read_bit cls)).
  change (can_read su (FPresent cls md Malformed)) with (su || Z.testbit md (read_bit cls)) in Hr.
  rewrite Hr. cbv beta iota delta [negb]. unfold encode.
  rewrite decode_marshal_settings by exact He. reflexivity.
Qed.

(** ** Modes of the file os.WriteFile leaves *)

Lemma write_file_readable su f cc um c f' :
  (f = FMissing \/ can_read su f = true) -> (su = true \/ Z.testbit um 8 = false) ->
  write_file su f cc um 420 c = Some f' -> can_read su f' = true.
Proof.
  intros Hf Hu. unfold write_file. destruct f as [| |cls m c0].
  - destruct cc; intros H; [|discriminate H].
    assert (E : f' = FPresent Owner (Z.ldiff 420 um) c) by congruence. subst f'. unfold can_read, read_bit.
    rewrite Z.ldiff_spec. destruct Hu as [-> | ->]; [reflexivity | destruct su; reflexivity].
  - discriminate.
  - destruct (can_write su _); intros H; [|discriminate H]. injection H as <-.
    destruct Hf as [Hf|Hf]; [discriminate Hf|]. exact Hf.
Qed.

Lemma write_file_writable su f cc um c f' :
  (su = true \/ Z.testbit um 7 = false) ->
  write_file su f cc um 420 c = Some f' -> can_write su f' = true.
Proof.
  intros Hu. unfold write_file. destruct f as [| |cls m c0].
  - destruct cc; intros H; [|discriminate H].
    assert (E : f' = FPresent Owner (Z.ldiff 420 um) c) by congruence. subst f'. unfold can_write, write_bit.
    rewrite Z.ldiff_spec. destruct Hu as [-> | ->]; [reflexivity | destruct su; reflexivity].
  - discriminate.
  - destruct (can_write su _) eqn:Hw; intros H; [|discriminate H]. injection H as <-. exact Hw.
Qed.

(** ** setUnixSettingsFile after a success *)

Lemma MkdirAll_claude_some w w1 :
  MkdirAll_claude w = Some w1 ->
  exists b, claude_dir w1 = DirPresent b /\ home_ok w1 = home_ok w /\ root w1 = root w /\
    umask w1 = umask w /\ goos w1 = goos w /\ store w1 = store w /\ exe_ok w1 = exe_ok w.
Proof.
  unfold MkdirAll_claude. destruct (claude_dir w) as [[]|b|] eqn:E; intros H; try discriminate H;
    injection H as <-.
  - eexists. repeat split; reflexivity.
  - exists b. repeat split; [exact E | reflexivity ..].
Qed.

Lemma MkdirAll_claude_present w b : claude_dir w = DirPresent b -> MkdirAll_claude w = Some w.
Proof. intros E. unfold MkdirAll_claude. rewrite E. reflexivity. Qed.

Lemma setUnix_ok conf w w' :
  setUnixSettingsFile conf w = (w', Ok tt) ->
  home_ok w = true /\
  exists w1 s0 f, MkdirAll_claude w = Some w1 /\ read_settings (root w1) (settings w1) = Ok s0 /\
    write_file (root w1) (settings w1) (dir_can_create (claude_dir w1)) (umask w1) 420
      (encode (marshal_settings (mkSettings (Some (update_env s0 conf))))) = Some f /\
    w' = set_settings w1 f.
Proof.
  unfold setUnixSettingsFile, bind, get, put, throw. intros H. cbv beta iota in H.
  destruct (home_ok w); cbv beta iota delta [negb] in H; [|discriminate H].
  destruct (MkdirAll_claude w) as [w1|] eqn:Hm; [|discriminate H]. cbv beta iota in H.
  split; [reflexivity|].
  destruct (read_settings (root w1) (settings w1)) as [s0|e] eqn:Hr.
  - rewrite (write_settings_eval conf w1 s0 Hr) in H.
    destruct (write_file _ _ _ _ _ _) as [f|] eqn:Hw; [|discriminate H]. injection H as <-.
    exists w1, s0, f. repeat split; assumption.
  - rewrite (write_settings_read_err conf w1 e Hr) in H. discriminate H.
Qed.

Lemma set_settings_same w : set_settings w (settings w) = w.
Proof. destruct w; reflexivity. Qed.

Lemma setUnix_written conf w w' :
  valid_utf8 (BaseURL conf) = true -> valid_utf8 (APIKey conf) = true ->
  setUnixSettingsFile conf w = (w', Ok tt) ->
  exists w1 s0 b cls md, MkdirAll_claude w = Some w1 /\ read_settings (root w1) (settings w1) = Ok s0 /\
    claude_dir w' = DirPresent b /\ home_ok w' = true /\ root w' = root w /\ umask w' = umask w /\
    env_valid (update_env s0 conf) /\
    settings w' = FPresent cls md (encode (marshal_settings (mkSettings (Some (update_env s0 conf))))) /\
    (settings w1 = FMissing \/ can_read (root w) (settings w') = true) /\
    (settings w1 = FMissing \/ can_write (root w) (settings w') = true) /\
    (settings w1 = FMissing \/ (exists c0, settings w1 = FPresent cls md c0)) /\
    (settings w1 = FMissing -> cls = Owner /\ md = Z.ldiff 420 (umask w)) /\
    w' = set_settings w1 (settings w').
Proof.
  intros Hu Hk H. apply setUnix_ok in H as (Hh & w1 & s0 & f & Hm & Hr & Hw & ->).
  destruct (MkdirAll_claude_some _ _ Hm) as (b & Hd & Hh1 & Hr1 & Hu1 & _).
  assert (Hv : env_valid (update_env s0 conf))
    by exact (update_env_valid _ _ (read_settings_valid _ _ _ Hr) Hu Hk).
  pose proof (write_file_content _ _ _ _ _ _ _ Hw) as (cls & md & Hf).
  exists w1, s0, b, cls, md. cbn [settings set_settings claude_dir home_ok root umask].
  split; [exact Hm|]. split; [exact Hr|]. split; [exact Hd|]. split; [rewrite Hh1; exact Hh|].
  split; [exact Hr1|]. split; [exact Hu1|]. split; [exact Hv|]. split; [exact Hf|].
  rewrite <- Hr1, <- Hu1. subst f. revert Hw. unfold write_file.
  destruct (settings w1) as [| |c m c0] eqn:Es; intros Hw.
  - assert (E : cls = Owner /\ md = Z.ldiff 420 (umask w1)).
    { destruct (dir_can_create _); [split; congruence | discriminate Hw]. }
    split; [left; reflexivity|]. split; [left; reflexivity|]. split; [left; reflexivity|].
    split; [intros _; exact E|]. destruct w1; reflexivity.
  - discriminate Hw.
  - destruct (can_write (root w1) (FPresent c m c0)) eqn:Cw; [|discriminate Hw].
    assert (E : c = cls /\ m = md) by (split; congruence). destruct E as [-> ->].
    destruct (read_settings_access _ _ _ Hr) as [E|E]; [discriminate E|].
    split; [right; exact E|]. split; [right; exact Cw|]. split; [right; exists c0; reflexivity|].
    split; [intros E'; discriminate E'|]. destruct w1; reflexivity.
Qed.

Lemma setUnix_readable conf w w' :
  valid_utf8 (BaseURL conf) = true -> valid_utf8 (APIKey conf) = true ->
  root w = true \/ Z.testbit (umask w) 8 = false ->
  setUnixSettingsFile conf w = (w', Ok tt) ->
  exists w1 s0 b cls md, MkdirAll_claude w = Some w1 /\ read_settings (root w1) (settings w1) = Ok s0 /\
    claude_dir w' = DirPresent b /\ home_ok w' = true /\ root w' = root w /\ umask w' = umask w /\
    env_valid (update_env s0 conf) /\
    settings w' = FPresent cls md (encode (marshal_settings (mkSettings (Some (update_env s0 conf))))) /\
    can_read (root w') (settings w') = true /\
    (settings w1 = FMissing \/ can_write (root w) (settings w') = true) /\
    (settings w1 = FMissing -> cls = Owner /\ md = Z.ldiff 420 (umask w)) /\
    w' = set_settings w1 (settings w').
Proof.
  intros Hu Hk Hum H.
  destruct (setUnix_written _ _ _ Hu Hk H)
    as (w1 & s0 & b & cls & md & Hm & Hr & Hd & Hh & Hro & Hu' & Hv & Hs & Hcr & Hcw & _ & Hnew & Hw').
  exists w1, s0, b, cls, md. repeat (split; [assumption|]).
  split; [|split; [assumption | split; assumption]].
  rewrite Hro. destruct Hcr as [E|E]; [|exact E].
  rewrite Hs. destruct (Hnew E) as [-> ->]. unfold can_read, read_bit.
  rewrite Z.ldiff_spec. destruct Hum as [-> | ->]; [reflexivity | destruct (root w); reflexivity].
Qed.

(** setUnixSettingsFile then importFromUnixSettings: after a successful
    write of the settings file for a profile whose endpoint and secret
    are valid UTF-8, by root or under a umask that leaves the owner's
    read bit (0400) to a file it creates, reading the file back gives the
    env map that was written, with the int 1 read back as the float64 1
    (and nothing else changed), and the import path of loadConfig
    recovers the profile's endpoint and secret (under the name taken
    from the endpoint), unless one of them is empty. *)
Theorem setUnixSettingsFile_readback (conf : Configuration) (w w' : World) :
  valid_utf8 (BaseURL conf) = true -> valid_utf8 (APIKey conf) = true ->
  root w = true \/ Z.testbit (umask w) 8 = false ->
  setUnixSettingsFile conf w = (w', Ok tt) ->
  exists w1 s0, MkdirAll_claude w = Some w1 /\ read_settings (root w1) (settings w1) = Ok s0 /\
    read_settings (root w') (settings w') = Ok (mkSettings (Some (gnorm <$> update_env s0 conf))) /\
    importFromUnixSettings w'
    = if String.eqb (BaseURL conf) "" || String.eqb (APIKey conf) "" then None
      else Some (mkConf (extractDomainFromURL (BaseURL conf)) (BaseURL conf) (APIKey conf) true).
Proof.
  intros Hu Hk Hum H.
  destruct (setUnix_readable _ _ _ Hu Hk Hum H)
    as (w1 & s0 & b & cls & md & Hm & Hr & _ & Hh & _ & _ & Hv & Hs & Hread & _).
  exists w1, s0. split; [exact Hm|]. split; [exact Hr|]. split.
  - rewrite Hs in Hread |- *. exact (read_settings_written _ _ _ _ Hv Hread).
  - unfold importFromUnixSettings. rewrite Hh, Hread. cbv beta iota delta [negb].
    rewrite Hs. unfold encode. rewrite decode_marshal_settings by exact Hv.
    rewrite !lookup_fmap, update_env_env_of.
    pose proof (update_env_spec (env_of s0) conf) as (H1 & H2 & _). rewrite H1, H2. reflexivity.
Qed.

Lemma setUnixSettingsFile_readback_witness :
  exists w', setUnixSettingsFile sample_conf fresh_linux = (w', Ok tt) /\
    importFromUnixSettings w'
    = Some (mkConf "example" "https://api.example.com" "sk-9876543210" true).
Proof.
  exists (run (setUnixSettingsFile sample_conf) fresh_linux). split; [vm_compute; reflexivity|].
  destruct (setUnixSettingsFile_readback sample_conf fresh_linux
              (run (setUnixSettingsFile sample_conf) fresh_linux) eq_refl eq_refl
              (or_intror eq_refl) (ltac:(vm_compute; reflexivity))) as (w1 & s0 & _ & _ & _ & ->).
  vm_compute. reflexivity.
Defined.

Lemma setUnix_idem conf w w' :
  valid_utf8 (BaseURL conf) = true -> valid_utf8 (APIKey conf) = true ->
  root w = true \/ (Z.testbit (umask w) 8 = false /\ Z.testbit (umask w) 7 = false) ->
  setUnixSettingsFile conf w = (w', Ok tt) ->
  setUnixSettingsFile conf w' = (w', Ok tt).
Proof.
  intros Hu Hk Hum H.
  destruct (setUnix_readable _ _ _ Hu Hk ltac:(destruct Hum as [E|[E _]]; [left | right]; exact E) H)
    as (w1 & s0 & b & cls & md & Hm & Hr & Hd & Hh & Hro & Hu' & Hv & Hs & Hread & Hcw & Hnew & Hw').
  assert (Hwrite : can_write (root w') (settings w') = true).
  { rewrite Hro. destruct Hcw as [E|E]; [|exact E].
    rewrite Hs. destruct (Hnew E) as [-> ->]. unfold can_write, write_bit.
    rewrite Z.ldiff_spec. destruct Hum as [-> | [_ ->]]; [reflexivity | destruct (root w); reflexivity]. }
  assert (Hrd : read_settings (root w') (settings w')
                = Ok (mkSettings (Some (gnorm <$> update_env s0 conf)))).
  { rewrite Hs in Hread |- *. exact (read_settings_written _ _ _ _ Hv Hread). }
  rewrite (setUnix_present conf w' b _ Hh Hd Hrd), update_env_gnorm.
  assert (Hmar : marshal_settings (mkSettings (Some (gnorm <$> update_env s0 conf)))
                 = marshal_settings (mkSettings (Some (update_env s0 conf)))).
  { unfold marshal_settings. cbn [Env]. rewrite marshal_env_gnorm by exact Hv. reflexivity. }
  rewrite Hmar. rewrite Hs in Hwrite |- *. unfold write_file. rewrite Hwrite.
  rewrite <- Hs, set_settings_same. reflexivity.
Qed.

(** setUnixSettingsFile is idempotent: once it has succeeded for a
    profile whose endpoint and secret are valid UTF-8, run by root or
    under a umask that leaves the owner's read and write bits (0600) to
    a file it creates, running it again for the same profile succeeds
    and leaves the world as it is (same file, same mode, same bytes). *)
Theorem setUnixSettingsFile_idempotent (conf : Configuration) (w w' : World) :
  valid_utf8 (BaseURL conf) = true -> valid_utf8 (APIKey conf) = true ->
  root w = true \/ (Z.testbit (umask w) 8 = false /\ Z.testbit (umask w) 7 = false) ->
  setUnixSettingsFile conf w = (w', Ok tt) ->
  setUnixSettingsFile conf w' = (w', Ok tt).
Proof. exact (setUnix_idem conf w w'). Qed.

Lemma setUnixSettingsFile_idempotent_witness :
  setUnixSettingsFile sample_conf (run (setUnixSettingsFile sample_conf) fresh_linux)
  = (run (setUnixSettingsFile sample_conf) fresh_linux, Ok tt).
Proof.
  apply (setUnixSettingsFile_idempotent sample_conf fresh_linux);
    [reflexivity | reflexivity | right; split; reflexivity |].
  vm_compute. reflexivity.
Defined.

(** ** Loading an existing store; activating twice *)

Lemma loadConfig_stored w w0 cfg :
  store w <> FMissing -> loadConfig w = (w0, Ok cfg) ->
  w0 = w /\ exe_ok w = true /\ can_read (root w) (store w) = true /\
  exists cls md v, store w = FPresent cls md (Wellformed v) /\ decode_configfile (decode_text v) = Some cfg.
Proof.
  intros Hs H. unfold loadConfig, getConfigPath, bind, get, ret, throw in H.
  cbv beta iota in H. destruct (exe_ok w); cbv beta iota in H; [|discriminate H].
  destruct (store w) as [| |cls md c] eqn:Est; [contradiction | discriminate H |].
  destruct (can_read (root w) (FPresent cls md c)) eqn:Cr; cbv beta iota delta [negb] in H;
    [|discriminate H].
  destruct c as [|v]; [discriminate H|].
  destruct (decode_configfile (decode_text v)) as [c|] eqn:E; [|discriminate H].
  injection H as <- <-. split; [reflexivity|]. split; [reflexivity|]. split; [reflexivity|].
  exists cls, md, v. split; [reflexivity | exact E].
Qed.

Lemma save_then_load cfg w w' :
  Forall (fun c => conf_valid c = true) cfg -> can_read (root w) (store w) = true ->
  saveConfig cfg w = (w', Ok tt) ->
  loadConfig w' = (w', Ok cfg) /\ can_read (root w') (store w') = true /\
  can_write (root w') (store w') = true /\
  exists cls md, store w' = FPresent cls md (encode (marshal_configfile cfg)) /\
    w' = set_store w (store w').
Proof.
  intros Hv Hr H. apply saveConfig_ok in H as (He & f & Hw & ->).
  destruct (store w) as [| |cls md c0] eqn:Es; [discriminate Hr | discriminate Hr |].
  revert Hw. unfold write_file.
  destruct (can_write (root w) (FPresent cls md c0)) eqn:Cw; intros Hw; [|discriminate Hw].
  assert (Ef : f = FPresent cls md (encode (marshal_configfile cfg))) by congruence. subst f.
  split; [|split; [exact Hr | split; [exact Cw | exists cls, md; split; reflexivity]]].
  rewrite (loadConfig_present (set_store w (FPresent cls md (encode (marshal_configfile cfg)))) cls md
             (jcoerce (marshal_configfile cfg)) He eq_refl).
  replace (can_read _ _) with true by (symmetry; exact Hr).
  rewrite decode_encode_configfile by exact Hv. reflexivity.
Qed.

Lemma loaded_valid w w0 cfg :
  store w <> FMissing -> loadConfig w = (w0, Ok cfg) -> Forall (fun c => conf_valid c = true) cfg.
Proof.
  intros Hs H. destruct (loadConfig_stored _ _ _ Hs H) as (_ & _ & _ & cls & md & v & _ & E).
  exact (decode_configfile_valid _ _ (jvalid_jcoerce v) E).
Qed.

(** loadConfig, saveConfig, loadConfig: a collection read from an
    existing store file is valid UTF-8 throughout, so saving it back and
    loading again gives the same collection, with no condition on its
    strings (compare C9, where the collection is arbitrary). *)
Theorem load_save_load (w w0 w' : World) (cfg : ConfigFile) :
  store w <> FMissing -> loadConfig w = (w0, Ok cfg) -> saveConfig cfg w0 = (w', Ok tt) ->
  loadConfig w' = (w', Ok cfg).
Proof.
  intros Hs Hl Hsv. pose proof (loaded_valid _ _ _ Hs Hl) as Hv.
  destruct (loadConfig_stored _ _ _ Hs Hl) as (-> & _ & Hr & _).
  exact (proj1 (save_then_load _ _ _ Hv Hr Hsv)).
Qed.

Lemma load_save_load_witness :
  loadConfig (run (saveConfig two_profiles) stored_two_profiles)
  = (run (saveConfig two_profiles) stored_two_profiles, Ok two_profiles).
Proof.
  apply (load_save_load stored_two_profiles stored_two_profiles); [intros Hc; vm_compute in Hc; discriminate Hc | |];
    vm_compute; reflexivity.
Defined.

Lemma find_setActive (cfg : ConfigFile) n i c :
  findConfiguration cfg n = Some (i, c) ->
  findConfiguration (setActiveConfiguration cfg n) n = Some (i, set_active c true).
Proof.
  revert i. induction cfg as [|d cfg IH]; intros i H; cbn [findConfiguration] in H; [discriminate H|].
  unfold setActiveConfiguration. cbn [map findConfiguration]. fold (setActiveConfiguration cfg n).
  change (Name (set_active d (String.eqb (Name d) n))) with (Name d).
  destruct (String.eqb (Name d) n) eqn:E.
  - injection H as <- <-. reflexivity.
  - destruct (findConfiguration cfg n) as [[j e]|] eqn:F; cbn [option_map] in H; [|discriminate H].
    injection H as <- <-. rewrite (IH j eq_refl). reflexivity.
Qed.

Lemma set_active_twice c b : set_active (set_active c b) b = set_active c b.
Proof. destruct c; reflexivity. Qed.

Lemma setActive_idem (cfg : ConfigFile) n :
  setActiveConfiguration (setActiveConfiguration cfg n) n = setActiveConfiguration cfg n.
Proof.
  unfold setActiveConfiguration. rewrite map_map. apply map_ext. intros c. destruct c; reflexivity.
Qed.

Lemma setActive_valid (cfg : ConfigFile) n :
  Forall (fun c => conf_valid c = true) cfg ->
  Forall (fun c => conf_valid c = true) (setActiveConfiguration cfg n).
Proof.
  intros H. unfold setActiveConfiguration. apply Forall_map.
  eapply Forall_impl; [exact H|]. intros [] Hc. exact Hc.
Qed.

Lemma set_store_same w : set_store w (store w) = w.
Proof. destruct w; reflexivity. Qed.

Lemma filter_twice {A} (p q : A -> bool) (l : list A) :
  List.filter p (List.filter q (List.filter p (List.filter q l))) = List.filter p (List.filter q l).
Proof.
  induction l as [|a l IH]; [reflexivity|]. cbn [List.filter].
  destruct (q a) eqn:Hq; cbn [List.filter]; [|exact IH].
  destruct (p a) eqn:Hp; cbn [List.filter]; [|exact IH].
  rewrite Hq. cbn [List.filter]. rewrite Hp. f_equal. exact IH.
Qed.

Lemma Setenv_pair_twice e k1 v1 k2 v2 :
  String.eqb k1 k2 = false ->
  Setenv (Setenv (Setenv (Setenv e k1 v1) k2 v2) k1 v1) k2 v2 = Setenv (Setenv e k1 v1) k2 v2.
Proof.
  intros Hk. assert (Hk' : String.eqb k2 k1 = false) by (rewrite String.eqb_sym; exact Hk).
  unfold Setenv.
  do 4 (cbn [List.filter fst]; rewrite ?Hk, ?Hk', ?String.eqb_refl; cbn [negb]).
  rewrite filter_twice. reflexivity.
Qed.

Lemma setWindows_idem conf w w' :
  setWindowsEnvironmentVariables conf w = (w', Ok tt) ->
  setWindowsEnvironmentVariables conf w' = (w', Ok tt).
Proof.
  unfold setWindowsEnvironmentVariables, bind, get, put. intros H. injection H as <-.
  destruct w as [g eo ew st ho cd se um su pe ue sx]. cbn [set_user_env set_proc_env proc_env user_env setx_ok].
  rewrite Setenv_pair_twice by reflexivity.
  destruct sx; [rewrite Setenv_pair_twice by reflexivity|]; reflexivity.
Qed.

(** The last step of activateConfiguration, after the save. *)
Lemma activate_decomp n w w1 :
  activateConfiguration n w = (w1, Ok tt) ->
  exists cfg w0 i c w2, loadConfig w = (w0, Ok cfg) /\ findConfiguration cfg n = Some (i, c) /\
    saveConfig (setActiveConfiguration cfg n) w0 = (w2, Ok tt) /\
    (match goos w2 with
     | Windows => setWindowsEnvironmentVariables (set_active c true)
     | Linux | Darwin => setUnixSettingsFile (set_active c true)
     | OtherOS _ => ret tt
     end) w2 = (w1, Ok tt).
Proof.
  unfold activateConfiguration, bind, lift, get, activate_core. intros H.
  destruct (loadConfig w) as [w0 [cfg|e]] eqn:Hl; [|discriminate H].
  destruct (findConfiguration cfg n) as [[i c]|] eqn:Hf; [|discriminate H].
  destruct (saveConfig (setActiveConfiguration cfg n) w0) as [w2 [[]|e]] eqn:Hs; [|discriminate H].
  exists cfg, w0, i, c, w2. repeat split; assumption.
Qed.

Lemma activate_compose n w cfg w0 i c w2 :
  loadConfig w = (w0, Ok cfg) -> findConfiguration cfg n = Some (i, c) ->
  saveConfig (setActiveConfiguration cfg n) w0 = (w2, Ok tt) ->
  activateConfiguration n w
  = (match goos w2 with
     | Windows => setWindowsEnvironmentVariables (set_active c true)
     | Linux | Darwin => setUnixSettingsFile (set_active c true)
     | OtherOS _ => ret tt
     end) w2.
Proof.
  intros Hl Hf Hs. unfold activateConfiguration, bind, lift, get, activate_core.
  rewrite Hl. cbv beta iota. rewrite Hf. cbv beta iota. rewrite Hs. reflexivity.
Qed.

Lemma setUnix_keeps conf w w' r :
  setUnixSettingsFile conf w = (w', r) ->
  store w' = store w /\ exe_ok w' = exe_ok w /\ goos w' = goos w /\ root w' = root w /\
  umask w' = umask w.
Proof.
  unfold setUnixSettingsFile, bind, get, put, throw. intros H. cbv beta iota in H.
  destruct (home_ok w); cbv beta iota delta [negb] in H; [|injection H as <- _; auto].
  destruct (MkdirAll_claude w) as [w2|] eqn:Hm; cbv beta iota in H; [|injection H as <- _; auto].
  destruct (MkdirAll_claude_some _ _ Hm) as (b & _ & _ & Hr & Hu & Hg & Hs & He).
  unfold write_settings, bind, get, put, throw, lift in H. cbv beta iota in H.
  destruct (read_settings _ _); cbv beta iota in H; [|injection H as <- _; auto].
  destruct (write_file _ _ _ _ _ _); cbv beta iota in H; injection H as <- _;
    cbn [store exe_ok goos root umask set_settings]; auto.
Qed.

Lemma os_step_keeps conf w2 w1 r :
  (match goos w2 with
   | Windows => setWindowsEnvironmentVariables conf
   | Linux | Darwin => setUnixSettingsFile conf
   | OtherOS _ => ret tt
   end) w2 = (w1, r) ->
  store w1 = store w2 /\ exe_ok w1 = exe_ok w2 /\ goos w1 = goos w2 /\ root w1 = root w2.
Proof.
  intros H. destruct (goos w2) eqn:Eg.
  - unfold setWindowsEnvironmentVariables, bind, get, put in H. injection H as <- _.
    cbn [store exe_ok goos root set_user_env set_proc_env]. auto.
  - destruct (setUnix_keeps _ _ _ _ H) as (? & ? & ? & ? & _). repeat split; congruence.
  - destruct (setUnix_keeps _ _ _ _ H) as (? & ? & ? & ? & _). repeat split; congruence.
  - unfold ret in H. injection H as <- _. auto.
Qed.

(** activateConfiguration twice: when the store file exists, a second
    activation of the profile just activated succeeds and changes
    nothing: the store file, the settings file or the environment
    variables are already as it would write them.  On Linux and macOS
    this needs root or a umask that leaves the owner's read and write
    bits (0600) to a settings file the first activation creates. *)
Theorem activateConfiguration_idempotent (n : string) (w w1 : World) :
  store w <> FMissing ->
  root w = true \/ (Z.testbit (umask w) 8 = false /\ Z.testbit (umask w) 7 = false) ->
  activateConfiguration n w = (w1, Ok tt) ->
  activateConfiguration n w1 = (w1, Ok tt).
Proof.
  intros Hs Hum H. destruct (activate_decomp _ _ _ H) as (cfg & w0 & i & c & w2 & Hl & Hf & Hsv & Hos).
  pose proof (loaded_valid _ _ _ Hs Hl) as Hv.
  destruct (loadConfig_stored _ _ _ Hs Hl) as (-> & He & Hr & _).
  pose proof (setActive_valid _ n Hv) as Hv'.
  destruct (save_then_load _ _ _ Hv' Hr Hsv) as (_ & Hcr & Hcw & cls & md & Hst & Hw2).
  destruct (os_step_keeps _ _ _ _ Hos) as (Hst1 & He1 & Hg1 & Hro1).
  assert (He2 : exe_ok w2 = true) by (rewrite Hw2; exact He).
  assert (Hc : conf_valid c = true).
  { apply findConfiguration_Some in Hf as [Hi _].
    apply list_elem_of_lookup_2, list_elem_of_In in Hi.
    exact (proj1 (Forall_forall _ _) Hv c (proj2 (list_elem_of_In _ _) Hi)). }
  assert (Hl1 : loadConfig w1 = (w1, Ok (setActiveConfiguration cfg n))).
  { rewrite <- Hst1 in Hst. unfold encode in Hst.
    rewrite (loadConfig_present w1 cls md _ ltac:(rewrite He1; exact He2) Hst).
    rewrite Hst1, Hro1, Hcr.
    rewrite decode_encode_configfile by exact Hv'. reflexivity. }
  assert (Hs1 : saveConfig (setActiveConfiguration (setActiveConfiguration cfg n) n) w1 = (w1, Ok tt)).
  { rewrite setActive_idem.
    assert (Hcw1 : can_write (root w1) (store w1) = true) by (rewrite Hst1, Hro1; exact Hcw).
    rewrite <- Hst1 in Hst.
    rewrite (saveConfig_eval _ w1 ltac:(rewrite He1; exact He2)). rewrite Hst in Hcw1 |- *.
    unfold write_file. rewrite Hcw1. rewrite <- Hst, set_store_same. reflexivity. }
  rewrite (activate_compose n w1 _ _ _ _ _ Hl1 (find_setActive _ _ _ _ Hf) Hs1).
  rewrite set_active_twice, Hg1. clear Hg1.
  assert (Hum2 : root w2 = true \/ (Z.testbit (umask w2) 8 = false /\ Z.testbit (umask w2) 7 = false))
    by (rewrite Hw2; exact Hum).
  destruct (goos w2).
  - exact (setWindows_idem _ _ _ Hos).
  - unfold conf_valid in Hc. apply andb_prop in Hc as [Hc Hk]. apply andb_prop in Hc as [_ Hu].
    exact (setUnix_idem _ _ _ Hu Hk Hum2 Hos).
  - unfold conf_valid in Hc. apply andb_prop in Hc as [Hc Hk]. apply andb_prop in Hc as [_ Hu].
    exact (setUnix_idem _ _ _ Hu Hk Hum2 Hos).
  - unfold ret in Hos |- *. injection Hos as <-. reflexivity.
Qed.

Lemma activateConfiguration_idempotent_witness :
  activateConfiguration "b" (run (activateConfiguration "b") stored_two_profiles)
  = (run (activateConfiguration "b") stored_two_profiles, Ok tt).
Proof.
  apply (activateConfiguration_idempotent "b" stored_two_profiles);
    [intros Hc; vm_compute in Hc; discriminate Hc | right; split; reflexivity | vm_compute; reflexivity].
Defined.

(** ** listConfigurations: the table is aligned *)

Lemma rune_count_enough n m s :
  (String.length s <= n)%nat -> (String.length s <= m)%nat -> rune_count_fuel n s = rune_count_fuel m s.
Proof.
  revert m s. induction n as [|n IH]; intros m s Hn Hm.
  - destruct s; simpl in Hn; [destruct m; reflexivity | lia].
  - destruct s as [|c r]; [destruct m; reflexivity|].
    destruct m as [|m]; simpl in Hm; [lia|]. simpl in Hn. cbn [rune_count_fuel].
    destruct (Nat.ltb (byte_of c) 128); [f_equal; apply IH; lia|].
    destruct (rune_size (String c r)) as [k|] eqn:Hr; f_equal; [|apply IH; lia].
    pose proof (rune_size_ge _ _ Hr). apply IH; rewrite length_str_drop; simpl; lia.
Qed.

Lemma rune_count_cons_ascii c x :
  Nat.ltb (byte_of c) 128 = true -> RuneCountInString (String c x) = S (RuneCountInString x).
Proof. intros H. unfold RuneCountInString. cbn [String.length rune_count_fuel]. rewrite H. reflexivity. Qed.

Lemma rune_size_space a b : rune_size (String.append a (String " " b)) = rune_size a.
Proof.
  destruct a as [|c0 [|c1 [|c2 [|c3 r]]]]; rewrite ?append_cons, ?append_nil;
    [destruct b; reflexivity | | | | reflexivity];
    unfold rune_size; cbv zeta;
    repeat match goal with
           | |- context [in_range ?x ?y ?c] => is_var c; destruct (in_range x y c)
           | |- context [Nat.eqb (byte_of ?c) ?n] => is_var c; destruct (Nat.eqb (byte_of c) n)
           | |- context [is_cont ?c] => is_var c; destruct (is_cont c)
           end;
    try destruct b as [|? [|? ?]]; rewrite ?Bool.andb_false_r; reflexivity.
Qed.

Lemma str_drop_app_le k a x :
  (k <= String.length a)%nat -> str_drop k (String.append a x) = String.append (str_drop k a) x.
Proof.
  revert a. induction k as [|k IH]; intros a H; [reflexivity|].
  destruct a as [|c a]; simpl in H; [lia|]. rewrite append_cons. cbn [str_drop]. apply IH. lia.
Qed.

Lemma rune_count_app_space a b :
  RuneCountInString (String.append a (String " " b))
  = (RuneCountInString a + RuneCountInString (String " " b))%nat.
Proof.
  remember (String.length a) as n eqn:Hn. revert a Hn.
  induction n as [n IH] using (well_founded_induction lt_wf). intros a Hn.
  destruct a as [|c r]; [reflexivity|].
  unfold RuneCountInString. rewrite append_cons. cbn [String.length rune_count_fuel].
  fold (RuneCountInString (String " " b)).
  destruct (Nat.ltb (byte_of c) 128).
  - fold (RuneCountInString (String.append r (String " " b))) (RuneCountInString r).
    rewrite (IH (String.length r)); [reflexivity | simpl in Hn; lia | reflexivity].
  - rewrite <- append_cons, rune_size_space.
    destruct (rune_size (String c r)) as [k|] eqn:Hr.
    + pose proof (rune_size_ge _ _ Hr). pose proof (rune_size_len _ _ Hr).
      rewrite str_drop_app_le by exact H0.
      rewrite (rune_count_enough _ (String.length (String.append (str_drop k (String c r)) (String " " b))));
        [| rewrite length_append, length_append, length_str_drop; simpl; lia | lia].
      rewrite (rune_count_enough (String.length r) (String.length (str_drop k (String c r))));
        [| rewrite length_str_drop; simpl; lia | lia].
      fold (RuneCountInString (String.append (str_drop k (String c r)) (String " " b))).
      fold (RuneCountInString (str_drop k (String c r))).
      rewrite (IH (String.length (str_drop k (String c r)))); [reflexivity | | reflexivity].
      rewrite length_str_drop. simpl in Hn |- *. lia.
    + fold (RuneCountInString (String.append r (String " " b))) (RuneCountInString r).
      rewrite (IH (String.length r)); [reflexivity | simpl in Hn; lia | reflexivity].
Qed.

Lemma append_nil_r s : String.append s EmptyString = s.
Proof. induction s as [|c s IH]; [reflexivity|]. rewrite append_cons, IH. reflexivity. Qed.

Lemma append_assoc' a b c : String.append (String.append a b) c = String.append a (String.append b c).
Proof. induction a as [|ch a IH]; [reflexivity|]. rewrite !append_cons, IH. reflexivity. Qed.

Lemma str_repeat_space_S m : str_repeat " " (S m) = String " " (str_repeat " " m).
Proof. reflexivity. Qed.

Lemma rune_count_spaces m x :
  RuneCountInString (String.append (str_repeat " " m) x) = (m + RuneCountInString x)%nat.
Proof.
  induction m as [|m IH]; [reflexivity|].
  rewrite str_repeat_space_S, append_cons, rune_count_cons_ascii by reflexivity. rewrite IH. reflexivity.
Qed.

Lemma rune_count_fuel_le n s : (rune_count_fuel n s <= String.length s)%nat.
Proof.
  revert s. induction n as [|n IH]; intros s; [cbn; lia|].
  destruct s as [|c r]; [cbn; lia|]. cbn [rune_count_fuel String.length].
  destruct (Nat.ltb (byte_of c) 128); [specialize (IH r); lia|].
  destruct (rune_size (String c r)) as [k|] eqn:Hr; [|specialize (IH r); lia].
  pose proof (rune_size_ge _ _ Hr). specialize (IH (str_drop k (String c r))).
  rewrite length_str_drop in IH. simpl in IH. lia.
Qed.

Lemma rune_count_le s : (RuneCountInString s <= String.length s)%nat.
Proof. apply rune_count_fuel_le. Qed.

Lemma pad_right_count w a :
  (RuneCountInString a <= w)%nat -> RuneCountInString (pad_right w a) = w.
Proof.
  intros H. unfold pad_right. destruct (w - RuneCountInString a) as [|m] eqn:E.
  - cbn [str_repeat]. rewrite append_nil_r. lia.
  - rewrite str_repeat_space_S, rune_count_app_space, rune_count_cons_ascii by reflexivity.
    rewrite <- (append_nil_r (str_repeat " " m)), rune_count_spaces. cbn. lia.
Qed.

Lemma pad_right_app w a x :
  (RuneCountInString a < w)%nat ->
  RuneCountInString (String.append (pad_right w a) x) = (w + RuneCountInString x)%nat.
Proof.
  intros H. unfold pad_right. destruct (w - RuneCountInString a) as [|m] eqn:E; [lia|].
  rewrite append_assoc', str_repeat_space_S, append_cons, rune_count_app_space.
  rewrite rune_count_cons_ascii, rune_count_spaces by reflexivity. lia.
Qed.

Lemma table_line_count w1 w2 w3 w4 a b c d :
  (RuneCountInString a < w1)%nat -> (RuneCountInString b < w2)%nat ->
  (RuneCountInString c < w3)%nat -> (RuneCountInString d <= w4)%nat ->
  RuneCountInString (table_line w1 w2 w3 w4 a b c d) = (w1 + w2 + w3 + w4)%nat.
Proof.
  intros Ha Hb Hc Hd. unfold table_line.
  rewrite (pad_right_app _ _ _ Ha), (pad_right_app _ _ _ Hb), (pad_right_app _ _ _ Hc),
    (pad_right_count _ _ Hd). lia.
Qed.

Lemma column_widths_bounds_gen (config : ConfigFile) nw0 sw0 uw0 kw0 :
  let '(nw, sw, uw, kw) :=
    fold_left (fun acc conf =>
      let '(nameWidth, statusWidth, urlWidth, apiKeyWidth) := acc in
      let nameWidth := if Nat.ltb nameWidth (String.length (Name conf))
                       then String.length (Name conf) else nameWidth in
      let status := status_of conf in
      let statusWidth := if Nat.ltb statusWidth (String.length status)
                         then String.length status else statusWidth in
      let urlWidth := if Nat.ltb urlWidth (String.length (BaseURL conf))
                      then String.length (BaseURL conf) else urlWidth in
      let maskedKey := maskAPIKey (APIKey conf) in
      let apiKeyWidth := if Nat.ltb apiKeyWidth (String.length maskedKey)
                         then String.length maskedKey else apiKeyWidth in
      (nameWidth, statusWidth, urlWidth, apiKeyWidth)) config (nw0, sw0, uw0, kw0) in
  (nw0 <= nw /\ sw0 <= sw /\ uw0 <= uw /\ kw0 <= kw)%nat /\
  Forall (fun conf => String.length (Name conf) <= nw /\ String.length (status_of conf) <= sw /\
                      String.length (BaseURL conf) <= uw /\
                      String.length (maskAPIKey (APIKey conf)) <= kw)%nat config.
Proof.
  revert nw0 sw0 uw0 kw0. induction config as [|conf config IH]; intros nw0 sw0 uw0 kw0.
  - cbn. split; [lia | constructor].
  - cbn [fold_left]. cbv zeta.
    set (nw1 := if Nat.ltb nw0 (String.length (Name conf)) then String.length (Name conf) else nw0).
    set (sw1 := if Nat.ltb sw0 (String.length (status_of conf)) then String.length (status_of conf) else sw0).
    set (uw1 := if Nat.ltb uw0 (String.length (BaseURL conf)) then String.length (BaseURL conf) else uw0).
    set (kw1 := if Nat.ltb kw0 (String.length (maskAPIKey (APIKey conf)))
                then String.length (maskAPIKey (APIKey conf)) else kw0).
    assert (B : (nw0 <= nw1 /\ String.length (Name conf) <= nw1 /\ sw0 <= sw1 /\
                 String.length (status_of conf) <= sw1 /\ uw0 <= uw1 /\
                 String.length (BaseURL conf) <= uw1 /\ kw0 <= kw1 /\
                 String.length (maskAPIKey (APIKey conf)) <= kw1)%nat).
    { unfold nw1, sw1, uw1, kw1.
      repeat match goal with |- context [Nat.ltb ?x ?y] =>
        destruct (Nat.ltb_spec x y) end; lia. }
    specialize (IH nw1 sw1 uw1 kw1).
    destruct (fold_left _ config (nw1, sw1, uw1, kw1)) as [[[nw sw] uw] kw].
    destruct IH as [Hle Hall]. split; [lia|]. constructor; [lia | exact Hall].
Qed.

Lemma column_widths_bounds (config : ConfigFile) :
  let '(nw, sw, uw, kw) := column_widths config in
  (4 <= nw /\ 6 <= sw /\ 8 <= uw /\ 7 <= kw)%nat /\
  Forall (fun conf => String.length (Name conf) <= nw /\ String.length (status_of conf) <= sw /\
                      String.length (BaseURL conf) <= uw /\
                      String.length (maskAPIKey (APIKey conf)) <= kw)%nat config.
Proof. exact (column_widths_bounds_gen config 4 6 8 7). Qed.

Lemma rune_count_repeat_dash m : RuneCountInString (str_repeat "-" m) = m.
Proof.
  induction m as [|m IH]; [reflexivity|].
  change (str_repeat "-" (S m)) with (String "-" (str_repeat "-" m)).
  rewrite rune_count_cons_ascii by reflexivity. rewrite IH. reflexivity.
Qed.

Lemma listConfigurations_eval srt w :
  listConfigurations srt w
  = match loadConfig w with
    | (w', Ok config) =>
        if Nat.eqb (length config) 0 then (w', Ok ["No configurations found."])
        else
          let config := srt config in
          let '(nameWidth, statusWidth, urlWidth, apiKeyWidth) := column_widths config in
          let nameWidth := nameWidth + 2 in
          let statusWidth := statusWidth + 2 in
          let urlWidth := urlWidth + 2 in
          let apiKeyWidth := apiKeyWidth + 2 in
          (w', Ok (table_line nameWidth statusWidth urlWidth apiKeyWidth
                     "Name" "Status" "Base URL" "API Key"
                   :: table_line nameWidth statusWidth urlWidth apiKeyWidth
                        (str_repeat "-" (nameWidth - 2)) (str_repeat "-" (statusWidth - 2))
                        (str_repeat "-" (urlWidth - 2)) (str_repeat "-" (apiKeyWidth - 2))
                   :: map (fun conf => table_line nameWidth statusWidth urlWidth apiKeyWidth
                                         (Name conf) (status_of conf) (BaseURL conf)
                                         (maskAPIKey (APIKey conf))) config))
    | (w', Err e) => (w', Err e)
    end.
Proof.
  unfold listConfigurations, bind, ret. destruct (loadConfig w) as [w' [config|e]]; [|reflexivity].
  destruct (Nat.eqb (length config) 0); [reflexivity|].
  destruct (column_widths (srt config)) as [[[a b] c] d]. reflexivity.
Qed.

Lemma insert_rev_length x acc : length (insert_rev x acc) = S (length acc).
Proof.
  induction acc as [|y r IH]; [reflexivity|]. cbn [insert_rev].
  destruct (String.ltb (Name x) (Name y)); cbn [length]; [rewrite IH|]; reflexivity.
Qed.

Lemma insertionSort_length (l : ConfigFile) : length (insertionSort_by_name l) = length l.
Proof.
  unfold insertionSort_by_name. rewrite length_rev.
  assert (H : forall acc, length (fold_left (fun acc x => insert_rev x acc) l acc)
                          = (length l + length acc)%nat).
  { induction l as [|x l IH]; intros acc; [reflexivity|].
    cbn [fold_left]. rewrite IH, insert_rev_length. cbn [length]. lia. }
  rewrite H. cbn [length]. lia.
Qed.

(** listConfigurations writes nothing of its own: its final world is the
    one loadConfig leaves.  An error of loadConfig is its error, and an
    empty collection prints the single line "No configurations found.". *)
Theorem listConfigurations_edges (sortSlice : ConfigFile -> ConfigFile) (w : World) :
  fst (listConfigurations sortSlice w) = fst (loadConfig w) /\
  (forall w' e, loadConfig w = (w', Err e) -> listConfigurations sortSlice w = (w', Err e)) /\
  (forall w', loadConfig w = (w', Ok []) ->
     listConfigurations sortSlice w = (w', Ok ["No configurations found."])).
Proof.
  rewrite listConfigurations_eval. split; [|split].
  - destruct (loadConfig w) as [w' [config|e]]; [|reflexivity].
    destruct (Nat.eqb (length config) 0); [reflexivity|]. cbv zeta.
    destruct (column_widths (sortSlice config)) as [[[a b] c] d]. reflexivity.
  - intros w' e ->. reflexivity.
  - intros w' ->. reflexivity.
Qed.

Lemma listConfigurations_edges_witness :
  listConfigurations insertionSort_by_name fresh_linux
  = (fresh_linux, Ok ["No configurations found."]).
Proof.
  apply (proj2 (proj2 (listConfigurations_edges insertionSort_by_name fresh_linux))).
  vm_compute. reflexivity.
Defined.

(** listConfigurations on a non-empty collection prints the header, the
    separator and one row per profile, and the table is aligned: every
    line has the same width in runes, as fmt counts it for %-*s, whatever
    the names, endpoints and secrets (the column widths, taken in bytes,
    are never smaller than a cell's rune count, and a cell that is not
    the last one is followed by at least one space). *)
Theorem listConfigurations_table (sortSlice : ConfigFile -> ConfigFile) (w w' : World)
    (config : ConfigFile) :
  (forall l, length (sortSlice l) = length l) ->
  loadConfig w = (w', Ok config) -> config <> [] ->
  exists width lines, listConfigurations sortSlice w = (w', Ok lines) /\
    length lines = (length config + 2)%nat /\
    Forall (fun line => RuneCountInString line = width) lines.
Proof.
  intros Hsort Hl Hne. rewrite listConfigurations_eval, Hl.
  destruct (Nat.eqb_spec (length config) 0) as [E|_]; [destruct config; [contradiction | discriminate E]|].
  pose proof (column_widths_bounds (sortSlice config)) as Hb. cbv zeta.
  destruct (column_widths (sortSlice config)) as [[[nw sw] uw] kw].
  destruct Hb as [(H1 & H2 & H3 & H4) Hall].
  exists (nw + 2 + (sw + 2) + (uw + 2) + (kw + 2))%nat. eexists. split; [reflexivity|]. split.
  - cbn [length]. rewrite length_map, Hsort. lia.
  - constructor; [|constructor].
    + rewrite table_line_count;
        [reflexivity | change (RuneCountInString "Name") with 4%nat; lia
        | change (RuneCountInString "Status") with 6%nat; lia
        | change (RuneCountInString "Base URL") with 8%nat; lia
        | change (RuneCountInString "API Key") with 7%nat; lia].
    + rewrite table_line_count; [reflexivity | rewrite rune_count_repeat_dash; lia ..].
    + apply Forall_map. eapply Forall_impl; [exact Hall|]. intros conf (C1 & C2 & C3 & C4).
      pose proof (rune_count_le (Name conf)). pose proof (rune_count_le (status_of conf)).
      pose proof (rune_count_le (BaseURL conf)). pose proof (rune_count_le (maskAPIKey (APIKey conf))).
      rewrite table_line_count; [reflexivity | lia ..].
Qed.

Lemma listConfigurations_table_witness :
  exists width lines,
    listConfigurations insertionSort_by_name stored_two_profiles = (stored_two_profiles, Ok lines) /\
    length lines = 4%nat /\ Forall (fun line => RuneCountInString line = width) lines.
Proof.
  apply (listConfigurations_table insertionSort_by_name stored_two_profiles stored_two_profiles
           two_profiles insertionSort_length); [vm_compute; reflexivity | discriminate].
Defined.

(** ** main: command-line parsing *)

Lemma main_add_eval srt rest w :
  main srt ("add" :: rest) w
  = match Parse ["n"; "u"; "k"] rest with
    | ParseExit code => (w, code)
    | Parsed actual _ =>
        if String.eqb (flag_value actual "n") "" || String.eqb (flag_value actual "u") ""
           || String.eqb (flag_value actual "k") "" then (w, 1)
        else exit_of (addConfiguration (flag_value actual "n") (flag_value actual "u")
                        (flag_value actual "k") w)
    end.
Proof. reflexivity. Qed.

Lemma main_update_eval srt rest w :
  main srt ("update" :: rest) w
  = match Parse ["n"; "u"; "k"] rest with
    | ParseExit code => (w, code)
    | Parsed actual _ =>
        if String.eqb (flag_value actual "n") "" then (w, 1)
        else exit_of (updateConfiguration (flag_value actual "n") (flag_value actual "u")
                        (flag_value actual "k") w)
    end.
Proof. reflexivity. Qed.

Lemma main_delete_eval srt rest w :
  main srt ("delete" :: rest) w
  = match Parse ["n"] rest with
    | ParseExit code => (w, code)
    | Parsed actual _ =>
        if String.eqb (flag_value actual "n") "" then (w, 1)
        else exit_of (deleteConfiguration (flag_value actual "n") w)
    end.
Proof. reflexivity. Qed.

Lemma main_activate_eval srt rest w :
  main srt ("activate" :: rest) w
  = match Parse ["n"] rest with
    | ParseExit code => (w, code)
    | Parsed actual _ =>
        if String.eqb (flag_value actual "n") "" then (w, 1)
        else exit_of (activateConfiguration (flag_value actual "n") w)
    end.
Proof. reflexivity. Qed.

Lemma Parse_first formal x rest :
  Parse formal (x :: rest)
  = match parseOne formal (x :: rest) with
    | FlagSet name value rest' => parse_fuel (S (length rest)) formal rest' [(name, value)]
    | FlagDone rest' => Parsed [] rest'
    | FlagErr help => ParseExit (if help then 0 else 2)
    end.
Proof. reflexivity. Qed.

Lemma parseOne_not_flag formal x rest :
  ((String.length x < 2)%nat \/ String.get 0 x <> Some "-"%char \/ x = "--") ->
  exists rest', parseOne formal (x :: rest) = FlagDone rest'.
Proof.
  intros Hx. destruct x as [|c0 [|c1 t]]; [eexists; reflexivity | eexists; reflexivity |].
  cbn [parseOne]. destruct (Ascii.eqb_spec c0 "-") as [->|E0]; [|eexists; reflexivity].
  cbn [negb]. destruct Hx as [Hx|[Hx|Hx]]; [cbn in Hx; lia | cbn in Hx; congruence |].
  injection Hx as -> ->. eexists. reflexivity.
Qed.

Section flag_lines.
#[local] Arguments String.append : simpl nomatch.

Lemma index_char_app c r s :
  index_char c r = None ->
  index_char c (String.append r s) = option_map (Nat.add (String.length r)) (index_char c s).
Proof.
  induction r as [|d r IH]; intros H.
  - simpl. destruct (index_char c s); reflexivity.
  - simpl in H |- *. destruct (Ascii.eqb c d); [discriminate|].
    destruct (index_char c r); [discriminate|]. rewrite IH by reflexivity.
    destruct (index_char c s); reflexivity.
Qed.

Lemma str_take_app r s : str_take (String.length r) (String.append r s) = r.
Proof. induction r as [|d r IH]; simpl; [reflexivity | now rewrite IH]. Qed.

Lemma str_drop_app_add r s k : str_drop (String.length r + k) (String.append r s) = str_drop k s.
Proof. induction r as [|d r IH]; simpl; [reflexivity | exact IH]. Qed.

Lemma parseOne_flag formal (e : flag_form * flag_name * string) rest :
  (formal = ["n"; "u"; "k"] \/ formal = ["n"]) -> In (flag_letter e.1.2) formal ->
  parseOne formal (flag_args e ++ rest) = FlagSet (flag_letter e.1.2) e.2 rest.
Proof.
  destruct e as [[fm x] v]. simpl. intros [-> | ->] H;
    destruct fm, x; simpl in H; try (exfalso; intuition discriminate); reflexivity.
Qed.

Lemma parseOne_undefined_token formal two n0 r value rest :
  n0 <> "-"%char -> n0 <> "="%char -> index_char "=" r = None ->
  ~ In (String n0 r) formal -> String n0 r <> "h" -> String n0 r <> "help" ->
  parseOne formal (flag_token two (String n0 r) value :: rest) = FlagErr false.
Proof.
  intros H1 H2 H3 H4 H5 H6.
  assert (E : existsb (String.eqb (String n0 r)) formal = false).
  { apply Bool.not_true_iff_false. intros Hin. apply existsb_exists in Hin as [y [Hy Ey]].
    apply String.eqb_eq in Ey. subst y. exact (H4 Hy). }
  assert (Eh : (String.eqb (String n0 r) "help" || String.eqb (String n0 r) "h") = false).
  { rewrite (proj2 (String.eqb_neq _ _) H6), (proj2 (String.eqb_neq _ _) H5). reflexivity. }
  unfold flag_token. destruct value as [v|].
  - assert (Ei : index_char "=" (String.append r (String "=" v)) = Some (String.length r)).
    { rewrite index_char_app by exact H3. cbn. rewrite Nat.add_0_r. reflexivity. }
    assert (Et : str_take (String.length r) (String.append r (String "=" v)) = r)
      by apply str_take_app.
    assert (Ed : str_drop (S (String.length r)) (String.append r (String "=" v)) = v).
    { rewrite <- Nat.add_1_r, str_drop_app_add. reflexivity. }
    destruct two; simpl; remember (String.append r (String "=" v)) as X eqn:HX;
      cbn -[String.eqb existsb]; rewrite ?(proj2 (Ascii.eqb_neq n0 "-") H1),
      ?(proj2 (Ascii.eqb_neq n0 "=") H2); cbn -[String.eqb existsb];
      rewrite Ei; cbn -[String.eqb existsb]; rewrite Et;
      rewrite ?(proj2 (Ascii.eqb_neq n0 "-") H1), ?(proj2 (Ascii.eqb_neq n0 "=") H2);
      cbn [orb]; rewrite E, Eh; reflexivity.
  - assert (Er : String.append r "" = r) by (clear; induction r; simpl; congruence).
    destruct two; simpl; rewrite Er; cbn -[String.eqb existsb];
      rewrite ?(proj2 (Ascii.eqb_neq n0 "-") H1), ?(proj2 (Ascii.eqb_neq n0 "=") H2);
      cbn -[String.eqb existsb]; rewrite ?H3; cbn -[String.eqb existsb]; rewrite ?E, ?Eh;
      rewrite ?(proj2 (Ascii.eqb_neq n0 "-") H1), ?(proj2 (Ascii.eqb_neq n0 "=") H2);
      cbn [orb]; rewrite ?E, ?Eh; try reflexivity.
Qed.

Lemma parse_fuel_flags formal (fl : list (flag_form * flag_name * string)) rest acc fuel :
  (formal = ["n"; "u"; "k"] \/ formal = ["n"]) ->
  Forall (fun e => In (flag_letter e.1.2) formal) fl ->
  (length (flags_args fl ++ rest) < fuel)%nat ->
  exists fuel', (length rest < fuel')%nat /\
    parse_fuel fuel formal (flags_args fl ++ rest) acc
    = parse_fuel fuel' formal rest (rev (map (fun e => (flag_letter e.1.2, e.2)) fl) ++ acc).
Proof.
  intros Hf Hall. revert acc fuel. induction Hall as [|e fl He Hall IH]; intros acc fuel Hlen.
  - exists fuel. split; [exact Hlen | reflexivity].
  - destruct fuel as [|fuel]; [lia|].
    assert (L : (1 <= length (flag_args e))%nat) by (destruct e as [[[] x] v]; simpl; lia).
    unfold flags_args in *. cbn [flat_map] in *. rewrite <- app_assoc. cbn [parse_fuel].
    rewrite parseOne_flag by assumption.
    destruct (IH ((flag_letter e.1.2, e.2) :: acc) fuel) as [f' [Hf' E]].
    { rewrite !length_app in *. lia. }
    exists f'. split; [exact Hf'|]. rewrite E. cbn [map rev]. rewrite <- app_assoc. reflexivity.
Qed.

Lemma flag_value_flags (fl : list (flag_form * flag_name * string)) acc x :
  flag_value (rev (map (fun e => (flag_letter e.1.2, e.2)) fl) ++ acc) (flag_letter x)
  = fold_left (fun a e => if flag_name_eqb e.1.2 x then e.2 else a) fl (flag_value acc (flag_letter x)).
Proof.
  revert acc. induction fl as [|e fl IH]; intros acc; [reflexivity|].
  cbn [map rev fold_left]. rewrite <- app_assoc. cbn [app]. rewrite IH. f_equal.
  destruct e as [[fm y] v]. cbn [fst snd flag_value]. destruct y, x; reflexivity.
Qed.

Lemma flag_value_last (fl : list (flag_form * flag_name * string)) x :
  flag_value (rev (map (fun e => (flag_letter e.1.2, e.2)) fl)) (flag_letter x) = last_flag_value fl x.
Proof. rewrite <- (app_nil_r (rev _)), flag_value_flags. reflexivity. Qed.

Lemma Parse_flags_done formal (fl : list (flag_form * flag_name * string)) rest r :
  (formal = ["n"; "u"; "k"] \/ formal = ["n"]) ->
  Forall (fun e => In (flag_letter e.1.2) formal) fl ->
  parseOne formal rest = FlagDone r ->
  Parse formal (flags_args fl ++ rest) = Parsed (rev (map (fun e => (flag_letter e.1.2, e.2)) fl)) r.
Proof.
  intros Hf Hall Hr. unfold Parse.
  destruct (parse_fuel_flags formal fl rest [] (S (length (flags_args fl ++ rest))) Hf Hall)
    as [[|f'] [Hf' E]]; [lia | lia |].
  rewrite E. cbn [parse_fuel]. rewrite Hr, app_nil_r. reflexivity.
Qed.

Lemma Parse_flags_err formal (fl : list (flag_form * flag_name * string)) tail :
  (formal = ["n"; "u"; "k"] \/ formal = ["n"]) ->
  Forall (fun e => In (flag_letter e.1.2) formal) fl ->
  parseOne formal tail = FlagErr false ->
  Parse formal (flags_args fl ++ tail) = ParseExit 2.
Proof.
  intros Hf Hall Hr. unfold Parse.
  destruct (parse_fuel_flags formal fl tail [] (S (length (flags_args fl ++ tail))) Hf Hall)
    as [[|f'] [Hf' E]]; [lia | lia |].
  rewrite E. cbn [parse_fuel]. rewrite Hr. reflexivity.
Qed.

Lemma parseOne_stop formal rest :
  (rest = [] \/ exists x r, rest = x :: r /\
     ((String.length x < 2)%nat \/ String.get 0 x <> Some "-"%char \/ x = "--")) ->
  exists r, parseOne formal rest = FlagDone r.
Proof.
  intros [-> | (x & r & -> & Hx)]; [exists []; reflexivity|].
  exact (parseOne_not_flag formal x r Hx).
Qed.

Lemma main_flags_exit2 srt w command formal (fl : list (flag_form * flag_name * string)) tail :
  (command = "add" /\ formal = ["n"; "u"; "k"] \/ command = "update" /\ formal = ["n"; "u"; "k"] \/
   command = "delete" /\ formal = ["n"] \/ command = "activate" /\ formal = ["n"]) ->
  Forall (fun e => In (flag_letter e.1.2) formal) fl ->
  parseOne formal tail = FlagErr false ->
  main srt (command :: flags_args fl ++ tail) w = (w, 2%nat).
Proof.
  intros Hc Hall Ht.
  destruct Hc as [[-> ->]|[[-> ->]|[[-> ->]|[-> ->]]]];
    [rewrite main_add_eval | rewrite main_update_eval | rewrite main_delete_eval
    | rewrite main_activate_eval];
    rewrite Parse_flags_err by (auto || assumption); reflexivity.
Qed.

Lemma flags_all_defined (fl : list (flag_form * flag_name * string)) :
  Forall (fun e => In (flag_letter e.1.2) ["n"; "u"; "k"]) fl.
Proof. apply Forall_forall. intros [[fm []] v] _; simpl; tauto. Qed.

End flag_lines.

(** main with the name flag of delete and activate: for any sequence of
    -n flags, each written as "-n v", "-n=v", "--n v" or "--n=v" (the
    value taken as it is: it may start with "-" or contain "="), followed
    by nothing or by an argument that ends flag parsing, the last -n
    wins; no -n or an empty last value exits with status 1 without doing
    anything. *)
Theorem main_name_flag (srt : ConfigFile -> ConfigFile) (w : World) (fl : list (flag_form * string))
    (rest : list string) :
  (rest = [] \/ exists x r, rest = x :: r /\
     ((String.length x < 2)%nat \/ String.get 0 x <> Some "-"%char \/ x = "--")) ->
  let ns := map (fun p => (p.1, FlagN, p.2)) fl in
  let a := last_flag_value ns FlagN in
  main srt ("activate" :: flags_args ns ++ rest) w
  = (if String.eqb a "" then (w, 1%nat) else exit_of (activateConfiguration a w)) /\
  main srt ("delete" :: flags_args ns ++ rest) w
  = (if String.eqb a "" then (w, 1%nat) else exit_of (deleteConfiguration a w)).
Proof.
  intros Hr ns a. destruct (parseOne_stop ["n"] rest Hr) as [r Er].
  assert (Hall : Forall (fun e => In (flag_letter e.1.2) ["n"]) ns).
  { unfold ns. apply Forall_map, Forall_forall. intros p _. simpl. tauto. }
  split; [rewrite main_activate_eval | rewrite main_delete_eval];
    rewrite (Parse_flags_done ["n"] ns rest r) by auto;
    change "n" with (flag_letter FlagN); rewrite flag_value_last; reflexivity.
Qed.

Lemma main_name_flag_witness :
  main insertionSort_by_name ["activate"; "-n=a"; "--n"; "b"; "--n=a"; "extra"] stored_two_profiles
  = exit_of (activateConfiguration "a" stored_two_profiles) /\
  main insertionSort_by_name ["delete"; "-n=a"; "--n"; "b"; "--n=a"; "extra"] stored_two_profiles
  = exit_of (deleteConfiguration "a" stored_two_profiles).
Proof.
  refine (main_name_flag insertionSort_by_name stored_two_profiles
           [(DashEq, "a"); (DDashSpace, "b"); (DDashEq, "a")] ["extra"] _).
  right. exists "extra", []. split; [reflexivity|]. right; left; discriminate.
Defined.

(** main with add and update: for any sequence of -n, -u and -k flags,
    in any order, any of the four forms and repeated or omitted at will,
    followed by nothing or by an argument that ends flag parsing, each
    flag gets the last value given for it, "" when omitted; add needs all
    three non-empty, update only the name (an omitted or empty -u or -k
    is passed as ""), and otherwise the command exits with status 1
    without doing anything. *)
Theorem main_add_update_flags (srt : ConfigFile -> ConfigFile) (w : World)
    (fl : list (flag_form * flag_name * string)) (rest : list string) :
  (rest = [] \/ exists x r, rest = x :: r /\
     ((String.length x < 2)%nat \/ String.get 0 x <> Some "-"%char \/ x = "--")) ->
  let n := last_flag_value fl FlagN in
  let u := last_flag_value fl FlagU in
  let k := last_flag_value fl FlagK in
  main srt ("add" :: flags_args fl ++ rest) w
  = (if String.eqb n "" || String.eqb u "" || String.eqb k "" then (w, 1%nat)
     else exit_of (addConfiguration n u k w)) /\
  main srt ("update" :: flags_args fl ++ rest) w
  = (if String.eqb n "" then (w, 1%nat) else exit_of (updateConfiguration n u k w)).
Proof.
  intros Hr n u k. destruct (parseOne_stop ["n"; "u"; "k"] rest Hr) as [r Er].
  split; [rewrite main_add_eval | rewrite main_update_eval];
    rewrite (Parse_flags_done ["n"; "u"; "k"] fl rest r) by (auto using flags_all_defined);
    change "n" with (flag_letter FlagN); change "u" with (flag_letter FlagU);
    change "k" with (flag_letter FlagK); rewrite !flag_value_last; reflexivity.
Qed.

Lemma main_add_update_flags_witness :
  main insertionSort_by_name ["add"; "--k=key-c"; "-u"; "https://c.test"; "-n"; "c"] stored_two_profiles
  = exit_of (addConfiguration "c" "https://c.test" "key-c" stored_two_profiles) /\
  main insertionSort_by_name ["update"; "-n"; "b"; "--k=key-d"] stored_two_profiles
  = exit_of (updateConfiguration "b" "" "key-d" stored_two_profiles).
Proof.
  exact (conj (proj1 (main_add_update_flags insertionSort_by_name stored_two_profiles
                  [(DDashEq, FlagK, "key-c"); (DashSpace, FlagU, "https://c.test"); (DashSpace, FlagN, "c")]
                  [] (or_introl eq_refl)))
         (proj2 (main_add_update_flags insertionSort_by_name stored_two_profiles
                  [(DashSpace, FlagN, "b"); (DDashEq, FlagK, "key-d")] [] (or_introl eq_refl)))).
Defined.

(** main exits with status 1 and leaves the world unchanged when there
    is no command, when the command is unknown, and when the first
    argument after add, update, delete or activate is not a flag (one
    byte or less, not starting with "-", or "--"): flag parsing stops
    there, every later flag is ignored and the name stays empty. *)
Theorem main_usage_errors (srt : ConfigFile -> ConfigFile) (w : World) :
  main srt [] w = (w, 1%nat) /\
  (forall command rest, ~ In command ["list"; "ls"; "add"; "update"; "delete"; "activate"] ->
     main srt (command :: rest) w = (w, 1%nat)) /\
  (forall command x rest, In command ["add"; "update"; "delete"; "activate"] ->
     ((String.length x < 2)%nat \/ String.get 0 x <> Some "-"%char \/ x = "--") ->
     main srt (command :: x :: rest) w = (w, 1%nat)).
Proof.
  split; [reflexivity|]. split.
  - intros command rest Hc. unfold main.
    destruct (String.eqb_spec command "list"); [subst; exfalso; apply Hc; simpl; tauto|].
    destruct (String.eqb_spec command "ls"); [subst; exfalso; apply Hc; simpl; tauto|].
    destruct (String.eqb_spec command "add"); [subst; exfalso; apply Hc; simpl; tauto|].
    destruct (String.eqb_spec command "update"); [subst; exfalso; apply Hc; simpl; tauto|].
    destruct (String.eqb_spec command "delete"); [subst; exfalso; apply Hc; simpl; tauto|].
    destruct (String.eqb_spec command "activate"); [subst; exfalso; apply Hc; simpl; tauto|].
    reflexivity.
  - intros command x rest Hc Hx.
    destruct (parseOne_not_flag ["n"; "u"; "k"] x rest Hx) as [r3 E3].
    destruct (parseOne_not_flag ["n"] x rest Hx) as [r1 E1].
    destruct Hc as [<-|[<-|[<-|[<-|[]]]]].
    + rewrite main_add_eval, Parse_first, E3. reflexivity.
    + rewrite main_update_eval, Parse_first, E3. reflexivity.
    + rewrite main_delete_eval, Parse_first, E1. reflexivity.
    + rewrite main_activate_eval, Parse_first, E1. reflexivity.
Qed.

Lemma main_usage_errors_witness :
  main insertionSort_by_name ["activate"; "work"; "-n"; "work"] stored_two_profiles
  = (stored_two_profiles, 1%nat).
Proof.
  apply (proj2 (proj2 (main_usage_errors insertionSort_by_name stored_two_profiles))).
  - simpl. tauto.
  - right. left. discriminate.
Defined.

(** main exits with status 2 and leaves the world unchanged on a flag
    error of add, update, delete or activate, after any sequence of
    flags the command defines and whatever follows: a flag that the
    command does not define (other than -h and -help; -u and -k for
    delete and activate), with one or two dashes and with or without
    "=value"; a flag name starting with "-" or "="; or a last defined
    flag without its value. *)
Theorem main_flag_errors (srt : ConfigFile -> ConfigFile) (w : World) (command : string)
    (fl : list (flag_form * flag_name * string)) (rest : list string) :
  In command ["add"; "update"; "delete"; "activate"] ->
  (In command ["add"; "update"] \/ Forall (fun e => e.1.2 = FlagN) fl) ->
  (forall two n0 r value, n0 <> "-"%char -> n0 <> "="%char -> index_char "=" r = None ->
     String n0 r <> "h" -> String n0 r <> "help" ->
     (~ In (String n0 r) ["n"; "u"; "k"] \/
      (In command ["delete"; "activate"] /\ String n0 r <> "n")) ->
     main srt (command :: flags_args fl ++ flag_token two (String n0 r) value :: rest) w
     = (w, 2%nat)) /\
  (forall s, main srt (command :: flags_args fl ++ String "-" (String "=" s) :: rest) w = (w, 2%nat)) /\
  (forall s, main srt (command :: flags_args fl ++ String "-" (String "-" (String "-" s)) :: rest) w
             = (w, 2%nat)) /\
  (forall s, main srt (command :: flags_args fl ++ String "-" (String "-" (String "=" s)) :: rest) w
             = (w, 2%nat)) /\
  (forall two x, (In command ["add"; "update"] \/ x = FlagN) ->
     main srt (command :: flags_args fl ++ [flag_token two (flag_letter x) None]) w = (w, 2%nat)).
Proof.
  intros Hc Hfl.
  assert (G : exists formal,
            (command = "add" /\ formal = ["n"; "u"; "k"] \/ command = "update" /\ formal = ["n"; "u"; "k"] \/
             command = "delete" /\ formal = ["n"] \/ command = "activate" /\ formal = ["n"]) /\
            Forall (fun e => In (flag_letter e.1.2) formal) fl /\
            (forall nm, (~ In nm ["n"; "u"; "k"] \/ (In command ["delete"; "activate"] /\ nm <> "n")) ->
               ~ In nm formal) /\
            (forall x, (In command ["add"; "update"] \/ x = FlagN) -> In (flag_letter x) formal)).
  { destruct Hc as [<-|[<-|[<-|[<-|[]]]]].
    - exists ["n"; "u"; "k"]. split; [tauto|]. split; [apply flags_all_defined|]. split.
      + intros nm [H|[H _]]; [exact H | simpl in H; intuition discriminate].
      + intros [] _; simpl; tauto.
    - exists ["n"; "u"; "k"]. split; [tauto|]. split; [apply flags_all_defined|]. split.
      + intros nm [H|[H _]]; [exact H | simpl in H; intuition discriminate].
      + intros [] _; simpl; tauto.
    - exists ["n"]. split; [tauto|]. split.
      + destruct Hfl as [H|H]; [simpl in H; intuition discriminate|].
        eapply Forall_impl; [exact H|]. intros e ->. simpl. tauto.
      + split.
        * intros nm [H|[_ H]] Hin; [apply H | apply H]; simpl in Hin |- *; intuition.
        * intros x [H| ->]; [simpl in H; intuition discriminate | simpl; tauto].
    - exists ["n"]. split; [tauto|]. split.
      + destruct Hfl as [H|H]; [simpl in H; intuition discriminate|].
        eapply Forall_impl; [exact H|]. intros e ->. simpl. tauto.
      + split.
        * intros nm [H|[_ H]] Hin; [apply H | apply H]; simpl in Hin |- *; intuition.
        * intros x [H| ->]; [simpl in H; intuition discriminate | simpl; tauto]. }
  destruct G as (formal & Hcf & Hall & Hund & Hdef).
  assert (Hf : formal = ["n"; "u"; "k"] \/ formal = ["n"]) by (intuition congruence).
  split; [|split; [|split; [|split]]].
  - intros two n0 r value H1 H2 H3 H4 H5 H6.
    apply (main_flags_exit2 srt w command formal fl); [exact Hcf | exact Hall |].
    apply parseOne_undefined_token; auto.
  - intros s. apply (main_flags_exit2 srt w command formal fl); [exact Hcf | exact Hall | reflexivity].
  - intros s. apply (main_flags_exit2 srt w command formal fl); [exact Hcf | exact Hall | reflexivity].
  - intros s. apply (main_flags_exit2 srt w command formal fl); [exact Hcf | exact Hall | reflexivity].
  - intros two x Hx. apply (main_flags_exit2 srt w command formal fl); [exact Hcf | exact Hall |].
    specialize (Hdef x Hx).
    destruct Hf as [-> | ->], two, x; simpl in Hdef; try (exfalso; intuition discriminate);
      reflexivity.
Qed.

Lemma main_flag_errors_witness :
  main insertionSort_by_name ["delete"; "-n"; "a"; "-u"; "x"] stored_two_profiles
  = (stored_two_profiles, 2%nat).
Proof.
  refine (proj1 (main_flag_errors insertionSort_by_name stored_two_profiles "delete"
                   [(DashSpace, FlagN, "a")] ["x"] ltac:(simpl; tauto)
                   ltac:(right; repeat constructor))
                false "u"%char "" None _ _ eq_refl _ _ _);
    [discriminate | discriminate | discriminate | discriminate | right; split; [simpl; tauto | discriminate]].
Defined.

(** -h and -help (with one or two dashes) are not defined by any command:
    add, update, delete and activate then exit with status 0 (ErrHelp)
    and leave the world unchanged, whatever follows. *)
Theorem main_help (srt : ConfigFile -> ConfigFile) (w : World) (command h : string)
    (rest : list string) :
  In command ["add"; "update"; "delete"; "activate"] -> In h ["-h"; "-help"; "--h"; "--help"] ->
  main srt (command :: h :: rest) w = (w, 0%nat).
Proof.
  intros Hc Hh.
  destruct Hc as [<-|[<-|[<-|[<-|[]]]]]; destruct Hh as [<-|[<-|[<-|[<-|[]]]]]; reflexivity.
Qed.

Lemma main_help_witness :
  main insertionSort_by_name ["update"; "-help"; "-n"; "a"] stored_two_profiles
  = (stored_two_profiles, 0%nat).
Proof.
  apply main_help; simpl; tauto.
Defined.
